(** * Verification of the query router, masking, loader, aggregation,
      lookup and join logic of the business-data assistant

    The Python sources are embedded shallowly: a [str] is the list of
    its Unicode code points, Python's [re] is a small backtracking
    matcher with Python's priorities (leftmost match, first alternative
    first, greedy repetition), pandas tables are lists of rows, and
    code that can raise returns a result type. *)

From Stdlib Require Import NArith ZArith QArith Lia Lqa String Ascii DecimalString.
From stdpp Require Import base option list sorting gmap.

#[local] Open Scope N_scope.
#[local] Open Scope list_scope.

(* ================================================================= *)
(** ** Python strings *)

(** A Python [str]: the sequence of its code points. *)
Definition str : Type := list N.

(** Source literals are written as UTF-8 text and decoded once. *)
Fixpoint utf8_decode (bs : list N) : str :=
  match bs with
  | [] => []
  | b0 :: t0 =>
    if b0 <? 128 then b0 :: utf8_decode t0 else
    match t0 with
    | [] => []
    | b1 :: t1 =>
      if b0 <? 224 then ((b0 - 192) * 64 + (b1 - 128)) :: utf8_decode t1 else
      match t1 with
      | [] => []
      | b2 :: t2 =>
        if b0 <? 240
        then ((b0 - 224) * 4096 + (b1 - 128) * 64 + (b2 - 128)) :: utf8_decode t2
        else
        match t2 with
        | [] => []
        | b3 :: t3 =>
          ((b0 - 240) * 262144 + (b1 - 128) * 4096 + (b2 - 128) * 64 + (b3 - 128))
            :: utf8_decode t3
        end
      end
    end
  end.

Definition u (s : string) : str :=
  utf8_decode (map (fun a => N_of_ascii a) (list_ascii_of_string s)).

(** [a == b] *)
Fixpoint str_eqb (a b : str) : bool :=
  match a, b with
  | [], [] => true
  | x :: a', y :: b' => (x =? y) && str_eqb a' b'
  | _, _ => false
  end.

(** [needle in hay] *)
Fixpoint starts_with (p s : str) : bool :=
  match p, s with
  | [], _ => true
  | _ :: _, [] => false
  | a :: p', b :: s' => (a =? b) && starts_with p' s'
  end.

Fixpoint contains (needle hay : str) : bool :=
  starts_with needle hay ||
  match hay with
  | [] => false
  | _ :: t => contains needle t
  end.

(** [any(word in query for word in words)] *)
Definition any_in (words : list str) (query : str) : bool :=
  existsb (fun w => contains w query) words.

(** [s.split(sep)] for a one-character separator. *)
Fixpoint split (sep : N) (s : str) : list str :=
  match s with
  | [] => [[]]
  | c :: t =>
    if c =? sep then [] :: split sep t
    else match split sep t with
         | [] => [[c]]
         | p :: ps => (c :: p) :: ps
         end
  end.

(** [s[-2:]] *)
Definition last2 (s : str) : str := drop (length s - 2)%nat s.

(** ['*' * n] *)
Definition stars (n : nat) : str := replicate n 42%N.

(** [s.zfill(2)] on a string without sign. *)
Definition zfill2 (s : str) : str := replicate (2 - length s)%nat 48 ++ s.

(* ================================================================= *)
(** ** Character classes and case mapping

    ASCII and the Hangul syllables (the characters of every literal in
    the sources) are fixed here.  What Python's Unicode database says
    about the other code points is a parameter of the development. *)

Record Unicode : Type := {
  (** decimal value of a non-ASCII character of category Nd *)
  nd_value : N -> option N;
  (** non-ASCII white space *)
  hi_space : N -> bool;
  (** non-ASCII alphanumerics *)
  hi_alnum : N -> bool;
  (** lower-casing of a non-ASCII character between its left and right
      context (the context matters for the final sigma only) *)
  hi_lower : str -> N -> str -> str
}.

Definition is_ascii (c : N) : bool := c <? 128.
Definition is_hangul (c : N) : bool := (44032 <=? c) && (c <=? 55203).
Definition is_fixed (c : N) : bool := is_ascii c || is_hangul c.

Definition ascii_digit (c : N) : bool := (48 <=? c) && (c <=? 57).
Definition ascii_upper (c : N) : bool := (65 <=? c) && (c <=? 90).
Definition ascii_lower (c : N) : bool := (97 <=? c) && (c <=? 122).
Definition ascii_space (c : N) : bool :=
  ((9 <=? c) && (c <=? 13)) || ((28 <=? c) && (c <=? 32)).

Section Classes.
Variable U : Unicode.

(** [\d] *)
Definition is_digit (c : N) : bool :=
  if is_fixed c then ascii_digit c else bool_decide (is_Some (nd_value U c)).

(** value of one decimal digit, as [int] reads it *)
Definition digit_value (c : N) : option N :=
  if is_fixed c then (if ascii_digit c then Some (c - 48) else None)
  else nd_value U c.

(** [\s] *)
Definition is_space (c : N) : bool :=
  if is_fixed c then ascii_space c else hi_space U c.

(** [\w] *)
Definition is_word (c : N) : bool :=
  if is_fixed c
  then ascii_digit c || ascii_upper c || ascii_lower c || (c =? 95) || is_hangul c
  else hi_alnum U c || bool_decide (is_Some (nd_value U c)).

(** [s.lower()] *)
Fixpoint lower_from (before : str) (s : str) : str :=
  match s with
  | [] => []
  | c :: t =>
    (if ascii_upper c then [c + 32]
     else if is_fixed c then [c]
     else hi_lower U before c t) ++ lower_from (before ++ [c]) t
  end.

Definition lower (s : str) : str := lower_from [] s.

(** The most digits [int] reads: the default of
    [sys.int_max_str_digits].  A longer text is refused with a
    ValueError. *)
Definition MAX_STR_DIGITS : N := 4300.

(** [int(s)] for a run of decimal digits; [None] is the ValueError. *)
Fixpoint int_acc (acc : N) (s : str) : option N :=
  match s with
  | [] => Some acc
  | c :: t =>
    match digit_value c with
    | Some v => int_acc (acc * 10 + v) t
    | None => None
    end
  end.

Definition int (s : str) : option N :=
  match s with
  | [] => None
  | _ => if MAX_STR_DIGITS <? N.of_nat (length s) then None else int_acc 0 s
  end.
End Classes.

(** The database with no entries beyond ASCII and Hangul; it agrees with
    Python on every string drawn from those two ranges. *)
Definition plain : Unicode :=
  {| nd_value := fun _ => None;
     hi_space := fun _ => false;
     hi_alnum := fun _ => false;
     hi_lower := fun _ c _ => [c] |}.

(* ================================================================= *)
(** ** Regular expressions *)

Inductive regex : Type :=
| Eps
| Chr (c : N)
| Cls (p : N -> bool)
| Seq (r1 r2 : regex)
| Alt (r1 r2 : regex)
| Star (r : regex)
| Grp (i : nat) (r : regex)
| Eos.

(** Captured groups, most recent first. *)
Definition caps : Type := list (nat * str).

Fixpoint group (i : nat) (g : caps) : option str :=
  match g with
  | [] => None
  | (j, s) :: g' => if Nat.eqb i j then Some s else group i g'
  end.

(** The text consumed between a string and one of its suffixes. *)
Definition consumed (s rest : str) : str := take (length s - length rest)%nat s.

(** Backtracking matcher in continuation-passing style: [re_m r s g k]
    matches [r] at the head of [s] and hands the rest to [k]; the first
    success in Python's priority order is returned. *)
Fixpoint re_m {A : Type} (r : regex) (s : str) (g : caps)
    (k : str -> caps -> option A) {struct r} : option A :=
  match r with
  | Eps => k s g
  | Chr c =>
    match s with
    | x :: t => if x =? c then k t g else None
    | [] => None
    end
  | Cls p =>
    match s with
    | x :: t => if p x then k t g else None
    | [] => None
    end
  | Seq r1 r2 => re_m r1 s g (fun s' g' => re_m r2 s' g' k)
  | Alt r1 r2 =>
    match re_m r1 s g k with
    | Some a => Some a
    | None => re_m r2 s g k
    end
  | Star r' =>
    (fix loop (n : nat) (s : str) (g : caps) {struct n} : option A :=
       match n with
       | O => k s g
       | S n' =>
         match re_m r' s g
                 (fun s' g' =>
                    if (length s' <? length s)%nat then loop n' s' g' else None)
         with
         | Some a => Some a
         | None => k s g
         end
       end) (length s) s g
  | Grp i r' => re_m r' s g (fun s' g' => k s' ((i, consumed s s') :: g'))
  | Eos =>
    match s with
    | [] => k s g
    | [10] => k s g
    | _ => None
    end
  end.

(** A match found by [re.search]: text before it, the match, the text
    after it, and the groups. *)
Record rmatch : Type := {
  m_pre : str;
  m_text : str;
  m_post : str;
  m_groups : caps
}.

(** [pattern.match(s)]: match at the head of [s]; returns the match and
    the rest. *)
Definition match_at (r : regex) (s : str) : option (str * str * caps) :=
  re_m r s [] (fun s' g => Some (consumed s s', s', g)).

Fixpoint search_from (r : regex) (pre : str) (s : str) : option rmatch :=
  match match_at r s with
  | Some (mt, rest, g) =>
    Some {| m_pre := pre; m_text := mt; m_post := rest; m_groups := g |}
  | None =>
    match s with
    | [] => None
    | c :: t => search_from r (pre ++ [c]) t
    end
  end.

(** [re.search(r, s)] *)
Definition re_search (r : regex) (s : str) : option rmatch := search_from r [] s.

(** [if re.search(r, s):] *)
Definition re_found (r : regex) (s : str) : bool :=
  match re_search r s with Some _ => true | None => false end.

(** [re.sub(r, repl, s)] with a function [repl] of the matched text.
    [skip] counts the characters of the current match still to pass. *)
Fixpoint sub_from (r : regex) (repl : str -> str) (skip : nat) (s : str) : str :=
  match s with
  | [] =>
    match skip, match_at r [] with
    | O, Some (mt, _, _) => repl mt
    | _, _ => []
    end
  | c :: t =>
    match skip with
    | S n => sub_from r repl n t
    | O =>
      match match_at r s with
      | Some ([], _, _) => repl [] ++ c :: sub_from r repl 0 t
      | Some (mt, _, _) => repl mt ++ sub_from r repl (length mt - 1) t
      | None => c :: sub_from r repl 0 t
      end
    end
  end.

Definition re_sub (r : regex) (repl : str -> str) (s : str) : str :=
  sub_from r repl 0 s.

(** [re.findall(r, s)] for a pattern without capturing groups. *)
Fixpoint findall_from (r : regex) (skip : nat) (s : str) : list str :=
  match s with
  | [] => []
  | c :: t =>
    match skip with
    | S n => findall_from r n t
    | O =>
      match match_at r s with
      | Some ([], _, _) => [] :: findall_from r 0 t
      | Some (mt, _, _) => mt :: findall_from r (length mt - 1) t
      | None => findall_from r 0 t
      end
    end
  end.

Definition re_findall (r : regex) (s : str) : list str := findall_from r 0 s.

(** Pattern combinators. *)
Fixpoint lit (s : str) : regex :=
  match s with
  | [] => Eps
  | [c] => Chr c
  | c :: t => Seq (Chr c) (lit t)
  end.

Fixpoint times (n : nat) (r : regex) : regex :=
  match n with
  | O => Eps
  | 1%nat => r
  | S n' => Seq r (times n' r)
  end.

Definition opt (r : regex) : regex := Alt r Eps.
Definition plus (r : regex) : regex := Seq r (Star r).

Fixpoint alts (rs : list regex) : regex :=
  match rs with
  | [] => Cls (fun _ => false)
  | [r] => r
  | r :: rs' => Alt r (alts rs')
  end.

(* ================================================================= *)
(** ** config.py and utils.py: masking of sensitive values *)

(** The characters ['-'] and ['*']. *)
Abbreviation hyphen := (45%N) (only parsing).

Module Utils.
(** The literal parts of the masked forms, ["-**-***"] and ["-*******"]. *)
Definition BUSINESS_MASK : str := Eval vm_compute in u "-**-***".
Definition RESIDENT_MASK : str := Eval vm_compute in u "-*******".

Section WithUnicode.
Variable U : Unicode.

Definition d : regex := Cls (is_digit U).

Definition BUSINESS_NO : str := Eval vm_compute in u "사업자등록번호".
Definition RESIDENT_NO : str := Eval vm_compute in u "주민등록번호".
Definition PHONE_NO : str := Eval vm_compute in u "전화번호".

(** [r"\d{3}-\d{2}-\d{5}"] *)
Definition business_re : regex :=
  Seq (times 3 d) (Seq (Chr hyphen) (Seq (times 2 d) (Seq (Chr hyphen) (times 5 d)))).
(** [r"\d{6}-\d{7}"] *)
Definition resident_re : regex :=
  Seq (times 6 d) (Seq (Chr hyphen) (times 7 d)).
(** [r"\d{2,3}-\d{3,4}-\d{4}"] *)
Definition phone_re : regex :=
  Seq (Seq (times 2 d) (opt d))
      (Seq (Chr hyphen)
           (Seq (Seq (times 3 d) (opt d)) (Seq (Chr hyphen) (times 4 d)))).

(** The dict [SENSITIVE_PATTERNS], in insertion order. *)
Definition SENSITIVE_PATTERNS : list (str * regex) :=
  [(BUSINESS_NO, business_re); (RESIDENT_NO, resident_re); (PHONE_NO, phone_re)].

(** The inner function [mask_match] of [mask_sensitive_info]. *)
Definition mask_match (info_type : str) (original : str) : str :=
  let parts := split hyphen original in
  if str_eqb info_type BUSINESS_NO then
    match parts with
    | [p0; _; p2] => p0 ++ BUSINESS_MASK ++ last2 p2
    | _ => original
    end
  else if str_eqb info_type RESIDENT_NO then
    match parts with
    | [p0; _] => p0 ++ RESIDENT_MASK
    | _ => original
    end
  else if str_eqb info_type PHONE_NO then
    match parts with
    | [p0; p1; p2] => p0 ++ [hyphen] ++ stars (length p1) ++ [hyphen] ++ p2
    | _ => original
    end
  else original.

Definition mask_with (masked_text : str) (entry : str * regex) : str :=
  re_sub (snd entry) (mask_match (fst entry)) masked_text.

(** [mask_sensitive_info(text)] for a [str] argument. *)
Definition mask_sensitive_info (text : str) : str :=
  fold_left mask_with SENSITIVE_PATTERNS text.
End WithUnicode.
End Utils.

Example mask_business :
  Utils.mask_sensitive_info plain (u "214-86-59900") = u "214-**-***00".
Proof. vm_compute. reflexivity. Qed.

Example mask_resident :
  Utils.mask_sensitive_info plain (u "123456-1234567") = u "123456-*******".
Proof. vm_compute. reflexivity. Qed.

Example mask_phone :
  Utils.mask_sensitive_info plain (u "tel 010-1234-5678 / 02-123-4567.")
  = u "tel 010-****-5678 / 02-***-4567.".
Proof. vm_compute. reflexivity. Qed.

(* ================================================================= *)
(** ** What the matcher accepts *)

(** The language of a pattern, without regard to priorities.  [Eos] is
    listed as consuming nothing; where it may stand is decided by the
    matcher. *)
Inductive derives : regex -> str -> Prop :=
| D_eps : derives Eps []
| D_chr c : derives (Chr c) [c]
| D_cls (p : N -> bool) c : p c = true -> derives (Cls p) [c]
| D_seq r1 r2 s1 s2 :
    derives r1 s1 -> derives r2 s2 -> derives (Seq r1 r2) (s1 ++ s2)
| D_alt_l r1 r2 s : derives r1 s -> derives (Alt r1 r2) s
| D_alt_r r1 r2 s : derives r2 s -> derives (Alt r1 r2) s
| D_star_nil r : derives (Star r) []
| D_star_cons r s1 s2 :
    derives r s1 -> derives (Star r) s2 -> derives (Star r) (s1 ++ s2)
| D_grp i r s : derives r s -> derives (Grp i r) s
| D_eos : derives Eos [].

Create HintDb re.
#[local] Hint Constructors derives : re.

Lemma consumed_app (s1 s2 : str) : consumed (s1 ++ s2) s2 = s1.
Proof.
  unfold consumed. rewrite length_app.
  replace (length s1 + length s2 - length s2)%nat with (length s1) by lia.
  apply take_app_length.
Qed.

(** Every success of the matcher splits the input into a word of the
    pattern and the rest handed to the continuation. *)
Lemma re_m_sound {A : Type} (r : regex) :
  forall (s : str) (g : caps) (k : str -> caps -> option A) (a : A),
    re_m r s g k = Some a ->
    exists s1 s2 g', s = s1 ++ s2 /\ derives r s1 /\ k s2 g' = Some a.
Proof.
  induction r as [ | c | p | r1 IH1 r2 IH2 | r1 IH1 r2 IH2 | r IH | i r IH | ];
    intros s g k a H; simpl in H.
  - exists [], s, g. auto with re.
  - destruct s as [ | x t]; [discriminate | ].
    destruct (N.eqb_spec x c) as [-> | ]; [ | discriminate].
    exists [c], t, g. auto with re.
  - destruct s as [ | x t]; [discriminate | ].
    destruct (p x) eqn:Hp; [ | discriminate].
    exists [x], t, g. auto with re.
  - apply IH1 in H as (s1 & s2 & g1 & -> & D1 & H).
    apply IH2 in H as (s3 & s4 & g2 & -> & D2 & H).
    exists (s1 ++ s3), s4, g2. rewrite <- app_assoc. auto with re.
  - destruct (re_m r1 s g k) eqn:E1.
    + inversion H; subst. apply IH1 in E1 as (s1 & s2 & g1 & -> & D1 & E1).
      exists s1, s2, g1. auto with re.
    + apply IH2 in H as (s1 & s2 & g1 & -> & D1 & H).
      exists s1, s2, g1. auto with re.
  - remember (length s) as n eqn:Hn. clear Hn.
    revert s g a H. induction n as [ | n IHn]; intros s g a H.
    + exists [], s, g. auto with re.
    + match type of H with
      | match ?e with _ => _ end = _ => destruct e eqn:E
      end.
      * inversion H; subst.
        apply IH in E as (s1 & s2 & g1 & -> & D1 & E).
        destruct (length s2 <? length (s1 ++ s2))%nat; [ | discriminate].
        apply IHn in E as (s3 & s4 & g2 & -> & D2 & E).
        exists (s1 ++ s3), s4, g2. rewrite <- app_assoc. auto with re.
      * exists [], s, g. auto with re.
  - apply IH in H as (s1 & s2 & g1 & -> & D1 & H).
    exists s1, s2, ((i, consumed (s1 ++ s2) s2) :: g1). auto with re.
  - exists [], s, g. split; [reflexivity | ]. split; [constructor | ].
    repeat match type of H with
           | match ?x with _ => _ end = _ => destruct x
           end; try discriminate; exact H.
Qed.

Lemma match_at_sound (r : regex) (s mt rest : str) (g : caps) :
  match_at r s = Some (mt, rest, g) -> s = mt ++ rest /\ derives r mt.
Proof.
  unfold match_at. intros H.
  apply re_m_sound in H as (s1 & s2 & g' & -> & D & H).
  rewrite consumed_app in H. inversion H; subst. auto.
Qed.

(** Substitution keeps the length when every replacement does. *)
Lemma sub_from_length (r : regex) (repl : str -> str) :
  (forall mt, derives r mt -> length (repl mt) = length mt) ->
  forall (s : str) (skip : nat),
    (skip <= length s)%nat ->
    (length (sub_from r repl skip s) + skip = length s)%nat.
Proof.
  intros Hrepl. induction s as [ | c t IH]; intros skip Hskip; simpl in *.
  - assert (skip = O) as -> by lia.
    destruct (match_at r []) as [[[mt rest] g] | ] eqn:E; [ | reflexivity].
    apply match_at_sound in E as [E D].
    symmetry in E. apply app_eq_nil in E as [-> ->].
    rewrite (Hrepl [] D). reflexivity.
  - destruct skip as [ | n].
    + destruct (match_at r (c :: t)) as [[[mt rest] g] | ] eqn:E.
      * apply match_at_sound in E as [E D].
        destruct mt as [ | x mt'].
        -- rewrite length_app, (Hrepl [] D). simpl.
           specialize (IH O ltac:(lia)). lia.
        -- rewrite length_app, (Hrepl _ D).
           assert (length (x :: mt') - 1 <= length t)%nat as Hle.
           { apply (f_equal length) in E. rewrite length_app in E.
             simpl in *. lia. }
           specialize (IH _ Hle). simpl in *. lia.
      * simpl. specialize (IH O ltac:(lia)). lia.
    + specialize (IH n ltac:(lia)). lia.
Qed.

Lemma re_sub_length (r : regex) (repl : str -> str) (s : str) :
  (forall mt, derives r mt -> length (repl mt) = length mt) ->
  length (re_sub r repl s) = length s.
Proof.
  intros H. unfold re_sub.
  pose proof (sub_from_length r repl H s O ltac:(lia)). lia.
Qed.

(** [re.fullmatch(r, s)] *)
Definition re_fullmatch (r : regex) (s : str) : bool :=
  match re_m r s [] (fun s' g => match s' with [] => Some g | _ => None end) with
  | Some _ => true
  | None => false
  end.

Lemma re_fullmatch_sound (r : regex) (s : str) :
  re_fullmatch r s = true -> derives r s.
Proof.
  unfold re_fullmatch. intros H.
  destruct (re_m r s [] _) as [g | ] eqn:E; [clear H | discriminate].
  apply re_m_sound in E as (s1 & s2 & g' & -> & D & H).
  destruct s2; [ | discriminate]. rewrite app_nil_r. exact D.
Qed.

Lemma derives_times_cls (p : N -> bool) (n : nat) :
  forall s, derives (times n (Cls p)) s ->
            length s = n /\ Forall (fun c => p c = true) s.
Proof.
  induction n as [ | n IH]; intros s H.
  - inversion H; subst. split; [reflexivity | constructor].
  - destruct n as [ | n].
    + inversion H; subst. split; [reflexivity | ]. repeat constructor. assumption.
    + change (times (S (S n)) (Cls p)) with (Seq (Cls p) (times (S n) (Cls p))) in H.
      inversion H as [ | | | r1 r2 s1 s2 D1 D2 | | | | | | ]; subst.
      inversion D1; subst. apply IH in D2 as [Hl Hf].
      split; [simpl; lia | constructor; assumption].
Qed.

Lemma derives_opt_cls (p : N -> bool) (s : str) :
  derives (opt (Cls p)) s ->
  (length s <= 1)%nat /\ Forall (fun c => p c = true) s.
Proof.
  intros H. inversion H as [ | | | | r1 r2 s' D | r1 r2 s' D | | | | ]; subst;
    inversion D; subst; simpl; split; try lia; repeat constructor; assumption.
Qed.

Lemma split_no_sep (sep : N) (p : str) :
  Forall (fun c => c <> sep) p -> split sep p = [p].
Proof.
  induction 1 as [ | c p Hc _ IH]; [reflexivity | ].
  simpl. rewrite IH. destruct (N.eqb_spec c sep); [contradiction | reflexivity].
Qed.

Lemma split_app_sep (sep : N) (p rest : str) :
  Forall (fun c => c <> sep) p ->
  split sep (p ++ sep :: rest) = p :: split sep rest.
Proof.
  induction 1 as [ | c p Hc _ IH]; simpl.
  - rewrite N.eqb_refl. reflexivity.
  - rewrite IH. destruct (N.eqb_spec c sep); [contradiction | reflexivity].
Qed.

Lemma length_last2 (s : str) : (2 <= length s)%nat -> length (last2 s) = 2%nat.
Proof. intros H. unfold last2. rewrite length_drop. lia. Qed.

Lemma length_stars (n : nat) : length (stars n) = n.
Proof. apply length_replicate. Qed.

Module MaskFacts.
Import Utils.
Section WithUnicode.
Variable U : Unicode.

(** A run of digits of a length between two bounds. *)
Definition digits (lo hi : nat) (p : str) : Prop :=
  Forall (fun c => is_digit U c = true) p /\ (lo <= length p <= hi)%nat.

Lemma digit_not_hyphen (c : N) : is_digit U c = true -> c <> hyphen.
Proof. intros H ->. vm_compute in H. discriminate. Qed.

Lemma digit_not_star (c : N) : is_digit U c = true -> c <> 42.
Proof. intros H ->. vm_compute in H. discriminate. Qed.

Lemma digits_no_hyphen lo hi p :
  digits lo hi p -> Forall (fun c => c <> hyphen) p.
Proof.
  intros [H _]. eapply Forall_impl; [exact H | ].
  intros c Hc. simpl in *. apply digit_not_hyphen. exact Hc.
Qed.

Lemma derives_times_d n s : derives (times n (d U)) s -> digits n n s.
Proof.
  intros H. apply derives_times_cls in H as [Hl Hf].
  split; [exact Hf | lia].
Qed.

Lemma derives_range_d n s :
  derives (Seq (times n (d U)) (opt (d U))) s -> digits n (S n) s.
Proof.
  intros H. inversion H as [ | | | r1 r2 s1 s2 D1 D2 | | | | | | ]; subst.
  apply derives_times_cls in D1 as [Hl1 Hf1].
  apply derives_opt_cls in D2 as [Hl2 Hf2].
  split; [apply Forall_app; auto | rewrite length_app; lia].
Qed.

Lemma business_shape s :
  derives (business_re U) s ->
  exists p0 p1 p2,
    s = p0 ++ hyphen :: p1 ++ hyphen :: p2 /\
    digits 3 3 p0 /\ digits 2 2 p1 /\ digits 5 5 p2.
Proof.
  intros H. unfold business_re in H.
  inversion H as [ | | | ? ? p0 s0 D0 H0 | | | | | | ]; subst.
  inversion H0 as [ | | | ? ? h1 s1 Dh1 H1 | | | | | | ]; subst.
  inversion H1 as [ | | | ? ? p1 s2 D1 H2 | | | | | | ]; subst.
  inversion H2 as [ | | | ? ? h2 p2 Dh2 D2 | | | | | | ]; subst.
  inversion Dh1; subst. inversion Dh2; subst.
  exists p0, p1, p2. split; [reflexivity | ].
  auto using derives_times_d.
Qed.

Lemma resident_shape s :
  derives (resident_re U) s ->
  exists p0 p1, s = p0 ++ hyphen :: p1 /\ digits 6 6 p0 /\ digits 7 7 p1.
Proof.
  intros H. unfold resident_re in H.
  inversion H as [ | | | ? ? p0 s0 D0 H0 | | | | | | ]; subst.
  inversion H0 as [ | | | ? ? h1 p1 Dh1 D1 | | | | | | ]; subst.
  inversion Dh1; subst.
  exists p0, p1. split; [reflexivity | ].
  auto using derives_times_d.
Qed.

Lemma phone_shape s :
  derives (phone_re U) s ->
  exists p0 p1 p2,
    s = p0 ++ hyphen :: p1 ++ hyphen :: p2 /\
    digits 2 3 p0 /\ digits 3 4 p1 /\ digits 4 4 p2.
Proof.
  intros H. unfold phone_re in H.
  inversion H as [ | | | ? ? p0 s0 D0 H0 | | | | | | ]; subst.
  inversion H0 as [ | | | ? ? h1 s1 Dh1 H1 | | | | | | ]; subst.
  inversion H1 as [ | | | ? ? p1 s2 D1 H2 | | | | | | ]; subst.
  inversion H2 as [ | | | ? ? h2 p2 Dh2 D2 | | | | | | ]; subst.
  inversion Dh1; subst. inversion Dh2; subst.
  exists p0, p1, p2. split; [reflexivity | ].
  auto using derives_times_d, derives_range_d.
Qed.

Lemma split3 p0 p1 p2 a b c d e f :
  digits a b p0 -> digits c d p1 -> digits e f p2 ->
  split hyphen (p0 ++ hyphen :: p1 ++ hyphen :: p2) = [p0; p1; p2].
Proof.
  intros H0 H1 H2.
  rewrite split_app_sep by eauto using digits_no_hyphen.
  rewrite split_app_sep by eauto using digits_no_hyphen.
  rewrite split_no_sep by eauto using digits_no_hyphen.
  reflexivity.
Qed.

Lemma split2 p0 p1 a b c d :
  digits a b p0 -> digits c d p1 ->
  split hyphen (p0 ++ hyphen :: p1) = [p0; p1].
Proof.
  intros H0 H1.
  rewrite split_app_sep by eauto using digits_no_hyphen.
  rewrite split_no_sep by eauto using digits_no_hyphen.
  reflexivity.
Qed.

(** What [mask_match] returns on a match of each pattern. *)
Lemma mask_match_business s :
  derives (business_re U) s ->
  exists p0 p1 p2,
    s = p0 ++ hyphen :: p1 ++ hyphen :: p2 /\
    digits 3 3 p0 /\ digits 2 2 p1 /\ digits 5 5 p2 /\
    mask_match BUSINESS_NO s = p0 ++ BUSINESS_MASK ++ last2 p2.
Proof.
  intros H. apply business_shape in H as (p0 & p1 & p2 & -> & H0 & H1 & H2).
  exists p0, p1, p2. repeat (split; [assumption || reflexivity | ]).
  unfold mask_match. rewrite (split3 _ _ _ _ _ _ _ _ _ H0 H1 H2). reflexivity.
Qed.

Lemma mask_match_resident s :
  derives (resident_re U) s ->
  exists p0 p1,
    s = p0 ++ hyphen :: p1 /\ digits 6 6 p0 /\ digits 7 7 p1 /\
    mask_match RESIDENT_NO s = p0 ++ RESIDENT_MASK.
Proof.
  intros H. apply resident_shape in H as (p0 & p1 & -> & H0 & H1).
  exists p0, p1. repeat (split; [assumption || reflexivity | ]).
  unfold mask_match. rewrite (split2 _ _ _ _ _ _ H0 H1). reflexivity.
Qed.

Lemma mask_match_phone s :
  derives (phone_re U) s ->
  exists p0 p1 p2,
    s = p0 ++ hyphen :: p1 ++ hyphen :: p2 /\
    digits 2 3 p0 /\ digits 3 4 p1 /\ digits 4 4 p2 /\
    mask_match PHONE_NO s = p0 ++ [hyphen] ++ stars (length p1) ++ [hyphen] ++ p2.
Proof.
  intros H. apply phone_shape in H as (p0 & p1 & p2 & -> & H0 & H1 & H2).
  exists p0, p1, p2. repeat (split; [assumption || reflexivity | ]).
  unfold mask_match. rewrite (split3 _ _ _ _ _ _ _ _ _ H0 H1 H2). reflexivity.
Qed.

Lemma mask_match_length (entry : str * regex) (mt : str) :
  In entry (SENSITIVE_PATTERNS U) ->
  derives (snd entry) mt ->
  length (mask_match (fst entry) mt) = length mt.
Proof.
  intros Hin D. simpl in Hin.
  destruct Hin as [<- | [<- | [<- | []]]]; simpl in *.
  - apply mask_match_business in D as (p0 & p1 & p2 & -> & H0 & H1 & H2 & ->).
    destruct H0 as [_ H0], H1 as [_ H1], H2 as [_ H2].
    rewrite !length_app, length_last2 by lia. simpl.
    rewrite !length_app. simpl. lia.
  - apply mask_match_resident in D as (p0 & p1 & -> & H0 & H1 & ->).
    destruct H0 as [_ H0], H1 as [_ H1].
    rewrite !length_app. simpl. lia.
  - apply mask_match_phone in D as (p0 & p1 & p2 & -> & H0 & H1 & H2 & ->).
    rewrite !length_app, length_stars. simpl. rewrite !length_app. simpl. lia.
Qed.

Lemma mask_with_length (entry : str * regex) (s : str) :
  In entry (SENSITIVE_PATTERNS U) ->
  length (mask_with s entry) = length s.
Proof.
  intros Hin. unfold mask_with. apply re_sub_length.
  intros mt D. apply mask_match_length; assumption.
Qed.
End WithUnicode.
End MaskFacts.

Lemma mask_length (U : Unicode) (text : str) :
  length (Utils.mask_sensitive_info U text) = length text.
Proof.
  unfold Utils.mask_sensitive_info.
  assert (forall l s, (forall e, In e l -> In e (Utils.SENSITIVE_PATTERNS U)) ->
            length (fold_left Utils.mask_with l s) = length s) as H.
  { induction l as [ | e l IH]; intros s Hl; [reflexivity | ].
    simpl. rewrite IH by (intros e' He'; apply Hl; right; exact He').
    apply (MaskFacts.mask_with_length U). apply Hl. left. reflexivity. }
  apply H. auto.
Qed.

(** C10. [mask_sensitive_info] preserves the length of its input: every
    match of a recognised pattern is replaced by a string of the same
    number of characters, and the text between matches is copied. *)
Theorem mask_sensitive_info_length (U : Unicode) (text : str) :
  length (Utils.mask_sensitive_info U text) = length text.
Proof. apply mask_length. Qed.

(* ================================================================= *)
(** ** Masking one sensitive value *)

Lemma sub_from_none (r : regex) (repl : str -> str) :
  forall s pre, search_from r pre s = None -> sub_from r repl 0 s = s.
Proof.
  induction s as [ | c t IH]; intros pre H; simpl in *.
  - destruct (match_at r []) as [[[mt rest] g] | ]; [discriminate | reflexivity].
  - destruct (match_at r (c :: t)) as [[[mt rest] g] | ]; [discriminate | ].
    f_equal. eapply IH. exact H.
Qed.

Lemma re_sub_none (r : regex) (repl : str -> str) (s : str) :
  re_search r s = None -> re_sub r repl s = s.
Proof. apply sub_from_none. Qed.

Lemma sub_from_skip_all (r : regex) (repl : str -> str) :
  match_at r [] = None ->
  forall s, sub_from r repl (length s) s = [].
Proof.
  intros H. induction s as [ | c t IH]; simpl; [rewrite H; reflexivity | exact IH].
Qed.

Lemma re_sub_whole (r : regex) (repl : str -> str) (s : str) (g : caps) :
  s <> [] ->
  match_at r [] = None ->
  match_at r s = Some (s, [], g) ->
  re_sub r repl s = repl s.
Proof.
  intros Hs Hnil H. destruct s as [ | c t]; [contradiction | ].
  unfold re_sub. simpl sub_from. rewrite H.
  replace (length (c :: t) - 1)%nat with (length t) by (simpl; lia).
  rewrite sub_from_skip_all by exact Hnil.
  apply app_nil_r.
Qed.

(** The three kinds of sensitive value of [SENSITIVE_PATTERNS]. *)
Inductive pii : Type := Business | Resident | Phone.

Definition pii_pattern (U : Unicode) (k : pii) : regex :=
  match k with
  | Business => Utils.business_re U
  | Resident => Utils.resident_re U
  | Phone => Utils.phone_re U
  end.

(** The whole value is a number of kind [k]. *)
Definition is_pii (U : Unicode) (k : pii) (s : str) : bool :=
  re_fullmatch (pii_pattern U k) s.

(** The text before the first hyphen. *)
Fixpoint before_hyphen (s : str) : str :=
  match s with
  | [] => []
  | c :: t => if c =? hyphen then [] else c :: before_hyphen t
  end.

(** The masked form of a value, written from its positions:
    - a business number keeps its first three and its last two digits;
    - a resident number keeps its first six digits and nothing after;
    - a phone number keeps the area code and the last four digits, with
      one asterisk for each digit between. *)
Definition masked_form (k : pii) (s : str) : str :=
  match k with
  | Business => take 3 s ++ Utils.BUSINESS_MASK ++ drop 10 s
  | Resident => take 6 s ++ Utils.RESIDENT_MASK
  | Phone =>
    let area := before_hyphen s in
    area ++ [hyphen] ++ stars (length s - length area - 6)
         ++ [hyphen] ++ drop (length s - 4) s
  end.

Module ValueFacts.
Import Utils MaskFacts.
Section WithUnicode.
Variable U : Unicode.

Lemma is_digit_hyphen : is_digit U 45 = false.
Proof. reflexivity. Qed.

Lemma is_digit_star : is_digit U 42 = false.
Proof. reflexivity. Qed.

Lemma digit_eqb_hyphen c : is_digit U c = true -> (c =? 45) = false.
Proof. intros H. apply N.eqb_neq. apply (digit_not_hyphen U c H). Qed.

Lemma digit_eqb_star c : is_digit U c = true -> (c =? 42) = false.
Proof. intros H. apply N.eqb_neq. apply (digit_not_star U c H). Qed.
End WithUnicode.

(** Turn [digits lo hi p] into an explicit list of digits. *)
Ltac explode_digits :=
  repeat match goal with
  | H : digits _ _ _ ?p |- _ =>
    let Hf := fresh "Hf" in let Hl := fresh "Hl" in
    destruct H as [Hf Hl];
    repeat (let c := fresh "c" in destruct p as [ | c p]; simpl in Hl; try lia);
    clear Hl
  end;
  repeat match goal with
  | H : Forall _ (_ :: _) |- _ =>
    let Hc := fresh "Hc" in apply Forall_cons in H as [Hc H]; simpl in Hc
  | H : Forall _ [] |- _ => clear H
  end.

(** Run the matcher on a text whose digits are variables. *)
Ltac digit_facts U :=
  repeat match goal with
  | H : is_digit U ?c = true |- _ =>
    lazymatch goal with
    | _ : (c =? 45) = false |- _ => fail
    | _ =>
      pose proof (digit_eqb_hyphen U c H);
      pose proof (digit_eqb_star U c H)
    end
  end.

Ltac step_digits U :=
  progress (repeat match goal with
  | H : is_digit U ?c = true |- _ => rewrite H
  | H : (?c =? _) = false |- _ => rewrite H
  end; rewrite ?(is_digit_hyphen U), ?(is_digit_star U)).

Ltac run U :=
  repeat first [step_digits U | progress cbn -[is_digit]].
End ValueFacts.

Lemma search_from_step (r : regex) (pre : str) (c : N) (t : str) :
  match_at r (c :: t) = None ->
  search_from r pre (c :: t) = search_from r (pre ++ [c]) t.
Proof. intros H. simpl. rewrite H. reflexivity. Qed.

Lemma search_from_end (r : regex) (pre : str) :
  match_at r [] = None -> search_from r pre [] = None.
Proof. intros H. simpl. rewrite H. reflexivity. Qed.

Lemma starts_with_short :
  forall p h, (length h < length p)%nat -> starts_with p h = false.
Proof.
  induction p as [ | a p IH]; intros [ | b h] Hl; simpl in *;
    try lia; try reflexivity.
  rewrite IH by lia. apply andb_false_r.
Qed.

Lemma contains_short (p : str) :
  forall h, (length h < length p)%nat -> contains p h = false.
Proof.
  induction h as [ | c t IH]; intros Hl.
  - simpl. rewrite starts_with_short by exact Hl. reflexivity.
  - cbn [contains]. rewrite starts_with_short by exact Hl.
    rewrite IH by (simpl in Hl; lia). reflexivity.
Qed.

Lemma starts_with_same_length :
  forall p h, length p = length h -> starts_with p h = true -> p = h.
Proof.
  induction p as [ | a p IH]; intros [ | b h] Hl H; simpl in *; try lia; [reflexivity | ].
  apply andb_prop in H as [Hab H]. apply N.eqb_eq in Hab as ->.
  f_equal. apply IH; [lia | exact H].
Qed.

Lemma contains_same_length (p h : str) :
  length p = length h -> contains p h = true -> p = h.
Proof.
  intros Hl H. destruct h as [ | c t].
  - destruct p; [reflexivity | simpl in Hl; lia].
  - simpl in H. rewrite (contains_short p t) in H by (simpl in Hl; lia).
    rewrite orb_false_r in H.
    apply (starts_with_same_length p (c :: t) Hl). exact H.
Qed.

Module ValueRun.
Import Utils MaskFacts ValueFacts.

(** No position of the text starts a match. *)
Ltac no_match U :=
  unfold re_search;
  repeat (rewrite search_from_step by (unfold match_at; run U; reflexivity));
  apply search_from_end; reflexivity.

(** The substitution of pattern [r] leaves the text as it is. *)
Ltac pass_none U r :=
  rewrite (re_sub_none r) by (no_match U).

(** The substitution of pattern [r] replaces the whole text. *)
Ltac pass_whole U r Hm :=
  rewrite (re_sub_whole r _ _ []);
    [ rewrite Hm; clear Hm;
      unfold last2, BUSINESS_MASK, RESIDENT_MASK, stars;
      cbn [app drop length Nat.sub replicate]
    | discriminate
    | reflexivity
    | unfold match_at; run U; reflexivity ].

Ltac open_mask :=
  unfold mask_sensitive_info, SENSITIVE_PATTERNS, fold_left, mask_with, fst, snd;
  cbn [app] in *.

Section Values.
Variable U : Unicode.

Lemma business_value s :
  derives (business_re U) s ->
  mask_sensitive_info U s = masked_form Business s /\
  mask_sensitive_info U (masked_form Business s) = masked_form Business s /\
  s <> masked_form Business s.
Proof.
  intros H.
  apply mask_match_business in H as (p0 & p1 & p2 & -> & H0 & H1 & H2 & Hm).
  explode_digits. digit_facts U. split; [ | split].
  - open_mask.
    pass_whole U (business_re U) Hm.
    pass_none U (resident_re U). pass_none U (phone_re U). reflexivity.
  - unfold masked_form, BUSINESS_MASK. cbn [take drop app]. open_mask.
    pass_none U (business_re U).
    pass_none U (resident_re U). pass_none U (phone_re U). reflexivity.
  - unfold masked_form, BUSINESS_MASK. cbn [take drop app].
    intros E. injection E as ->. discriminate.
Qed.

Lemma resident_value s :
  derives (resident_re U) s ->
  mask_sensitive_info U s = masked_form Resident s /\
  mask_sensitive_info U (masked_form Resident s) = masked_form Resident s /\
  s <> masked_form Resident s.
Proof.
  intros H.
  apply mask_match_resident in H as (p0 & p1 & -> & H0 & H1 & Hm).
  explode_digits. digit_facts U. split; [ | split].
  - open_mask.
    pass_none U (business_re U).
    pass_whole U (resident_re U) Hm.
    pass_none U (phone_re U). reflexivity.
  - unfold masked_form, RESIDENT_MASK. cbn [take drop app]. open_mask.
    pass_none U (business_re U).
    pass_none U (resident_re U). pass_none U (phone_re U). reflexivity.
  - unfold masked_form, RESIDENT_MASK. cbn [take drop app].
    intros E. injection E as ->. discriminate.
Qed.

Lemma phone_value s :
  derives (phone_re U) s ->
  mask_sensitive_info U s = masked_form Phone s /\
  mask_sensitive_info U (masked_form Phone s) = masked_form Phone s /\
  s <> masked_form Phone s.
Proof.
  intros H.
  apply mask_match_phone in H as (p0 & p1 & p2 & -> & H0 & H1 & H2 & Hm).
  explode_digits; digit_facts U; cbn [app] in *;
    (match goal with
     | |- context [masked_form Phone ?s] =>
       let E := fresh "E" in
       eassert (masked_form Phone s = _) as E
         by (unfold masked_form; run U; reflexivity);
       rewrite !E; clear E
     end);
    (split;
     [ open_mask;
       pass_none U (business_re U); pass_none U (resident_re U);
       pass_whole U (phone_re U) Hm; reflexivity
     | split;
       [ open_mask;
         pass_none U (business_re U); pass_none U (resident_re U);
         pass_none U (phone_re U); reflexivity
       | intros E; injection E as ->; discriminate ] ]).
Qed.
End Values.
End ValueRun.

Lemma pii_value (U : Unicode) (k : pii) (s : str) :
  is_pii U k s = true ->
  Utils.mask_sensitive_info U s = masked_form k s /\
  Utils.mask_sensitive_info U (masked_form k s) = masked_form k s /\
  s <> masked_form k s.
Proof.
  intros H. apply re_fullmatch_sound in H.
  destruct k; simpl in H.
  - apply ValueRun.business_value. exact H.
  - apply ValueRun.resident_value. exact H.
  - apply ValueRun.phone_value. exact H.
Qed.

(** The reading of "keeps a short suffix": some non-empty end of the
    value is also the end of the masked text. *)
Definition keeps_suffix (s out : str) : Prop :=
  exists suf, suf <> [] /\ suf `suffix_of` s /\ suf `suffix_of` out.

(** C3, amended. A value that is as a whole a business number, a
    resident number or a phone number is masked to [masked_form]: a
    business number keeps its three-digit prefix and its last two
    digits, a resident number keeps its six-digit prefix only, and a
    phone number keeps the area code and the last segment with the
    middle segment turned into as many asterisks as it has digits. *)
Theorem mask_value_form (U : Unicode) (k : pii) (s : str) :
  is_pii U k s = true ->
  Utils.mask_sensitive_info U s = masked_form k s.
Proof. intros H. apply (pii_value U k s H). Qed.

Lemma mask_value_form_witness :
  is_pii plain Phone (u "010-1234-5678") = true /\
  Utils.mask_sensitive_info plain (u "010-1234-5678") = u "010-****-5678".
Proof.
  split; [reflexivity | ].
  rewrite (mask_value_form plain Phone (u "010-1234-5678")); reflexivity.
Defined.

(** C3 as stated fails for resident numbers: nothing of the digits after
    the hyphen survives, so no suffix of the value is kept. *)
Lemma resident_keeps_no_suffix :
  is_pii plain Resident (u "123456-1234567") = true /\
  Utils.mask_sensitive_info plain (u "123456-1234567") = u "123456-*******" /\
  ~ keeps_suffix (u "123456-1234567")
      (Utils.mask_sensitive_info plain (u "123456-1234567")).
Proof.
  split; [reflexivity | ]. split; [vm_compute; reflexivity | ].
  intros (suf & Hne & [p1 H1] & [p2 H2]).
  assert (last (p1 ++ suf) = last (p2 ++ suf)) as E.
  { destruct suf as [ | c t] using rev_ind; [contradiction | ].
    rewrite !app_assoc, !last_snoc. reflexivity. }
  rewrite <- H1, <- H2 in E. vm_compute in E. discriminate.
Qed.

(** C4 as stated fails on a text with two numbers that share digits: the
    first pass masks the left one, the digits it keeps complete a new
    number that the second pass masks; and the right number of the
    original text is still readable after one pass. *)
Lemma mask_not_idempotent :
  Utils.mask_sensitive_info plain (u "02-123-4567-890-1234")
    = u "02-***-4567-890-1234" /\
  Utils.mask_sensitive_info plain
    (Utils.mask_sensitive_info plain (u "02-123-4567-890-1234"))
    = u "02-***-4567-***-1234" /\
  Utils.mask_sensitive_info plain
    (Utils.mask_sensitive_info plain (u "02-123-4567-890-1234"))
    <> Utils.mask_sensitive_info plain (u "02-123-4567-890-1234") /\
  is_pii plain Phone (u "567-890-1234") = true /\
  contains (u "567-890-1234") (u "02-123-4567-890-1234") = true /\
  contains (u "567-890-1234")
    (Utils.mask_sensitive_info plain (u "02-123-4567-890-1234")) = true.
Proof.
  repeat split; try (vm_compute; reflexivity).
  vm_compute. discriminate.
Qed.

(* ================================================================= *)
(** ** old_files/router.py: the query classifier *)

#[local] Open Scope Q_scope.

(** Python's [max] and [min] of two floats (the first argument wins a tie). *)
Definition pymax (a b : Q) : Q := if Qlt_le_dec a b then b else a.
Definition pymin (a b : Q) : Q := if Qlt_le_dec b a then b else a.

Lemma pymax_cases (a b : Q) :
  (a < b /\ pymax a b = b) \/ (b <= a /\ pymax a b = a).
Proof. unfold pymax. destruct (Qlt_le_dec a b); auto. Qed.

Module Router.

Inductive QueryMode : Type := CALC | LOOKUP | RAG.

(** [RoutingResult]; the [reasoning] text is for display only and is
    left out.  Scores are multiples of one half and are kept as exact
    rationals; [confidence] is the exact value of the quotient that
    Python rounds to a float. *)
Record RoutingResult : Type := {
  mode : QueryMode;
  confidence : Q
}.

Definition CALC_KEYWORDS : list str := Eval vm_compute in map u [
  "합계"; "총"; "평균"; "최대"; "최소"; "최댓값"; "최솟값";
  "상위"; "하위"; "Top"; "top"; "랭킹"; "순위";
  "추이"; "전월"; "전년"; "증감"; "증가"; "감소"; "변화";
  "월별"; "분기별"; "년도별"; "기간별"; "일별"; "주별";
  "그룹별"; "거래처별"; "제품별"; "품목별"; "지역별"; "담당자별";
  "필터"; "조건"; "범위";
  "몇"; "얼마"; "몇개"; "몇건"; "건수"; "개수"; "수량";
  "비율"; "퍼센트"; "%"; "점유율"; "비중"
]%string.

Definition LOOKUP_KEYWORDS : list str := Eval vm_compute in map u [
  "특정"; "해당"; "이 거래처"; "이 주문"; "이 제품";
  "언제"; "누가"; "어디"; "무엇";
  "주문번호"; "거래코드"; "사업자번호"
]%string.

Definition RAG_KEYWORDS : list str := Eval vm_compute in map u [
  "이란"; "무엇"; "뭐야"; "설명"; "정의"; "의미";
  "어떻게"; "왜"; "이유"; "방법";
  "영업일지"; "일지"; "메모"; "기록"; "노트";
  "규정"; "가이드"; "지침"; "정책";
  "코드북"; "항목"; "컬럼"; "필드"; "데이터";
  "A-"; "B-"; "C-"; "D-"; "E-"; "F-"; "G-"; "H-"; "I-"; "J-"
]%string.

Definition COMPARE_WORDS : list str := Eval vm_compute in map u [
  "비교"; "차이"; "이상"; "이하"; "초과"; "미만"
]%string.

Definition QUESTION_WORDS : list str := Eval vm_compute in map u [
  "무엇"; "어디"; "언제"; "누구"; "왜"; "어떻게"; "합계"; "평균"; "알려"; "보여"
]%string.

Definition TOP_WORDS : list str := Eval vm_compute in map u ["top"; "상위"; "하위"]%string.
Definition ENDINGS : list str := Eval vm_compute in map u [
  "이란"; "란"; "는"; "은"; "무엇"; "뭐"; "의미"; "설명"; "인가요"; "인가"
]%string.
Definition RELATIVE_TIMES : list str :=
  Eval vm_compute in map u ["최근"; "지난"; "올해"; "작년"]%string.

Definition BYEOL : N := Eval vm_compute in hd 0%N (u "별").
Definition NYEON : N := Eval vm_compute in hd 0%N (u "년").
Definition WOL : N := Eval vm_compute in hd 0%N (u "월").
Definition IL : N := Eval vm_compute in hd 0%N (u "일").

Section WithUnicode.
Variable U : Unicode.

Definition digit : regex := Cls (is_digit U).

(** [r'(top|상위|하위)\s*\d+'] *)
Definition top_n_re : regex :=
  Seq (Grp 1 (alts (map lit TOP_WORDS)))
      (Seq (Star (Cls (is_space U))) (plus digit)).

(** [r'\w+별'] *)
Definition group_by_re : regex := Seq (plus (Cls (is_word U))) (Chr BYEOL).

(** [r'(이란|란|는|은|무엇|뭐|의미|설명|인가요|인가)\?*$'] *)
Definition ending_re : regex :=
  Seq (Grp 1 (alts (map lit ENDINGS))) (Seq (Star (Chr 63)) Eos).

(** [r'\d{4}년|\d+월|\d+일|최근|지난|올해|작년'] *)
Definition date_re : regex :=
  alts ([Seq (times 4 digit) (Chr NYEON);
         Seq (plus digit) (Chr WOL);
         Seq (plus digit) (Chr IL)] ++ map lit RELATIVE_TIMES).

(** [r'[가-힣]{2,}'] *)
Definition korean_re : regex :=
  Seq (times 2 (Cls is_hangul)) (Star (Cls is_hangul)).

(** [_calculate_score] *)
Definition _calculate_score (query : str) (keywords : list str) : Q :=
  fold_left
    (fun score keyword =>
       if contains (lower U keyword) query then score + 1 else score)
    keywords 0.

(** [_contains_specific_name] *)
Definition _contains_specific_name (query : str) : bool :=
  existsb (fun m => negb (existsb (str_eqb m) QUESTION_WORDS))
          (re_findall korean_re query).

(** The three scores after the six adjustment rules of [route]. *)
Definition scores (query : str) : Q * Q * Q :=
  let query_lower := lower U query in
  let calc_score := _calculate_score query_lower CALC_KEYWORDS in
  let lookup_score := _calculate_score query_lower LOOKUP_KEYWORDS in
  let rag_score := _calculate_score query_lower RAG_KEYWORDS in
  let calc_score :=
    if re_found top_n_re query_lower then calc_score + 2 else calc_score in
  let calc_score :=
    if re_found group_by_re query then calc_score + (3 # 2) else calc_score in
  let calc_score :=
    if any_in COMPARE_WORDS query then calc_score + 1 else calc_score in
  let '(rag_score, lookup_score) :=
    if re_found ending_re query
    then (rag_score + 3, lookup_score - 1)
    else (rag_score, lookup_score) in
  let '(calc_score, lookup_score) :=
    if _contains_specific_name query
    then if Qlt_le_dec 0 calc_score
         then (calc_score + 1, lookup_score)
         else (calc_score, lookup_score + 2)
    else (calc_score, lookup_score) in
  let '(calc_score, lookup_score) :=
    if re_found date_re query
    then if Qlt_le_dec 0 calc_score
         then (calc_score + 1, lookup_score)
         else (calc_score, lookup_score + (1 # 2))
    else (calc_score, lookup_score) in
  (calc_score, lookup_score, rag_score).

(** [max(scores.items(), key=lambda x: x[1])[0]]: the first of CALC,
    LOOKUP, RAG whose score is maximal. *)
Definition select (calc_score lookup_score rag_score : Q) : QueryMode :=
  if Qlt_le_dec calc_score lookup_score
  then if Qlt_le_dec lookup_score rag_score then RAG else LOOKUP
  else if Qlt_le_dec calc_score rag_score then RAG else CALC.

(** [QueryRouter.route] *)
Definition route (query : str) : RoutingResult :=
  let '(calc_score, lookup_score, rag_score) := scores query in
  let max_score := pymax (pymax calc_score lookup_score) rag_score in
  if Qeq_dec max_score 0
  then {| mode := LOOKUP; confidence := 3 # 10 |}
  else {| mode := select calc_score lookup_score rag_score;
          confidence := pymin (max_score / 3) 1 |}.

(** The query contains no keyword of any of the three sets. *)
Definition no_keywords (query : str) : bool :=
  negb (any_in (map (lower U) CALC_KEYWORDS) (lower U query)) &&
  negb (any_in (map (lower U) LOOKUP_KEYWORDS) (lower U query)) &&
  negb (any_in (map (lower U) RAG_KEYWORDS) (lower U query)).

(** None of the six adjustment rules applies to the query. *)
Definition no_bonus (query : str) : bool :=
  negb (re_found top_n_re (lower U query)) &&
  negb (re_found group_by_re query) &&
  negb (any_in COMPARE_WORDS query) &&
  negb (re_found ending_re query) &&
  negb (_contains_specific_name query) &&
  negb (re_found date_re query).
End WithUnicode.
End Router.

Module RouterFacts.
Import Router.
Section WithUnicode.
Variable U : Unicode.

Lemma score_step_nonneg (query : str) (keywords : list str) :
  forall acc, 0 <= acc ->
    0 <= fold_left
           (fun score keyword =>
              if contains (lower U keyword) query then score + 1 else score)
           keywords acc.
Proof.
  induction keywords as [ | kw kws IH]; intros acc Hacc; simpl; [exact Hacc | ].
  apply IH. destruct (contains (lower U kw) query); lra.
Qed.

Lemma _calculate_score_nonneg (query : str) (keywords : list str) :
  0 <= _calculate_score U query keywords.
Proof. apply score_step_nonneg. lra. Qed.

Lemma score_step_none (query : str) (keywords : list str) :
  any_in (map (lower U) keywords) query = false ->
  forall acc,
    fold_left
      (fun score keyword =>
         if contains (lower U keyword) query then score + 1 else score)
      keywords acc = acc.
Proof.
  unfold any_in.
  induction keywords as [ | kw kws IH]; intros H acc; simpl in *; [reflexivity | ].
  apply orb_false_elim in H as [H1 H2]. rewrite H1. apply IH. exact H2.
Qed.

Lemma _calculate_score_none (query : str) (keywords : list str) :
  any_in (map (lower U) keywords) query = false ->
  _calculate_score U query keywords = 0.
Proof. intros H. apply score_step_none. exact H. Qed.

(** What the adjustment rules keep true of the three scores. *)
Lemma scores_inv (query : str) (c l g : Q) :
  scores U query = (c, l, g) ->
  0 <= c /\ 0 <= g /\ (l < 0 -> 3 <= g).
Proof.
  unfold scores.
  pose proof (_calculate_score_nonneg (lower U query) CALC_KEYWORDS) as Hc.
  pose proof (_calculate_score_nonneg (lower U query) LOOKUP_KEYWORDS) as Hl.
  pose proof (_calculate_score_nonneg (lower U query) RAG_KEYWORDS) as Hg.
  generalize dependent (_calculate_score U (lower U query) CALC_KEYWORDS).
  generalize dependent (_calculate_score U (lower U query) LOOKUP_KEYWORDS).
  generalize dependent (_calculate_score U (lower U query) RAG_KEYWORDS).
  intros g0 Hg l0 Hl c0 Hc.
  destruct (re_found (top_n_re U) (lower U query));
    destruct (re_found (group_by_re U) query);
    destruct (any_in COMPARE_WORDS query);
    destruct (re_found ending_re query);
    destruct (_contains_specific_name query);
    destruct (re_found (date_re U) query);
    cbv zeta beta iota;
    repeat match goal with
           | |- context [Qlt_le_dec ?a ?b] => destruct (Qlt_le_dec a b)
           end;
    intros E; inversion E; subst; clear E;
    repeat split; intros; lra.
Qed.
End WithUnicode.
End RouterFacts.

(** C1, amended. A query that contains no keyword of the three sets and
    to which none of the six adjustment rules applies is routed to
    LOOKUP with confidence exactly 0.3. *)
Theorem route_default (U : Unicode) (query : str) :
  Router.no_keywords U query = true ->
  Router.no_bonus U query = true ->
  Router.route U query = {| Router.mode := Router.LOOKUP; Router.confidence := 3 # 10 |}.
Proof.
  unfold Router.no_keywords, Router.no_bonus. intros Hk Hb.
  repeat match goal with
         | H : _ && _ = true |- _ => apply andb_prop in H as [? ?]
         | H : negb _ = true |- _ => apply negb_true_iff in H
         end.
  unfold Router.route, Router.scores.
  rewrite !(RouterFacts._calculate_score_none U) by assumption.
  repeat match goal with
         | H : ?b = false |- _ => rewrite H; clear H
         end.
  reflexivity.
Qed.

Lemma route_default_witness :
  Router.no_keywords plain (u "hello") = true /\
  Router.no_bonus plain (u "hello") = true /\
  Router.route plain (u "hello")
    = {| Router.mode := Router.LOOKUP; Router.confidence := 3 # 10 |}.
Proof.
  split; [reflexivity | ]. split; [reflexivity | ].
  apply (route_default plain (u "hello")); reflexivity.
Defined.

(** C1 as stated fails: a query without any keyword still collects rule
    scores.  A bare company name gets LOOKUP with confidence 2/3, and a
    bare comparison word is routed to CALC. *)
Lemma route_no_keywords_not_default :
  Router.no_keywords plain (u "삼성전자") = true /\
  Router.route plain (u "삼성전자")
    = {| Router.mode := Router.LOOKUP; Router.confidence := 2 # 3 |} /\
  ~ (2 # 3 == 3 # 10) /\
  Router.no_keywords plain (u "비교") = true /\
  Router.route plain (u "비교")
    = {| Router.mode := Router.CALC; Router.confidence := 2 # 3 |}.
Proof.
  repeat split; try (vm_compute; reflexivity).
  intros H. vm_compute in H. discriminate.
Qed.

(** C9. The confidence returned by [route] lies between 0 and 1, and as
    soon as one of the three adjusted scores is not zero it is
    [min(max_score / 3.0, 1.0)] for the largest adjusted score. *)
Theorem route_confidence (U : Unicode) (query : str) :
  0 <= Router.confidence (Router.route U query) <= 1 /\
  forall c l g,
    Router.scores U query = (c, l, g) ->
    ~ (c == 0 /\ l == 0 /\ g == 0) ->
    Router.confidence (Router.route U query)
      = pymin (pymax (pymax c l) g / 3) 1.
Proof.
  unfold Router.route.
  destruct (Router.scores U query) as [[c l] g] eqn:E.
  destruct (RouterFacts.scores_inv U query c l g E) as (Hc & Hg & Hl).
  assert (pymax (pymax c l) g == 0 -> c == 0 /\ l == 0 /\ g == 0) as Hz.
  { destruct (pymax_cases c l) as [[H1 ->] | [H1 ->]];
      [destruct (pymax_cases l g) as [[H2 ->] | [H2 ->]]
      | destruct (pymax_cases c g) as [[H2 ->] | [H2 ->]]];
      intros Hm;
      (destruct (Qlt_le_dec l 0) as [Hneg | Hpos];
       [ specialize (Hl Hneg); exfalso; lra | split; [ | split]; lra ]). }
  assert (0 <= pymax (pymax c l) g) as Hmax.
  { destruct (pymax_cases c l) as [[H1 ->] | [H1 ->]];
      [destruct (pymax_cases l g) as [[H2 ->] | [H2 ->]]
      | destruct (pymax_cases c g) as [[H2 ->] | [H2 ->]]]; lra. }
  split.
  - destruct (Qeq_dec (pymax (pymax c l) g) 0) as [Hm | Hm]; simpl.
    + split; [discriminate | discriminate].
    + unfold pymin. set (m := pymax (pymax c l) g) in *.
      destruct (Qlt_le_dec 1 (m / 3)) as [H1 | H1]; [lra | ].
      split; [ | exact H1].
      apply Qle_shift_div_l; lra.
  - intros c' l' g' E' Hnz. inversion E'; subst c' l' g'.
    destruct (Qeq_dec (pymax (pymax c l) g) 0) as [Hm | Hm]; simpl; [ | reflexivity].
    exfalso. apply Hnz. apply Hz. exact Hm.
Qed.

Lemma route_confidence_witness :
  Router.scores plain (u "2024년 1월 매출 추이") = (3, 0, 0) /\
  ~ (3 == 0 /\ 0 == 0 /\ 0 == 0) /\
  Router.confidence (Router.route plain (u "2024년 1월 매출 추이"))
    = pymin (pymax (pymax 3 0) 0 / 3) 1.
Proof.
  split; [vm_compute; reflexivity | ].
  split; [intros [H _]; vm_compute in H; discriminate | ].
  apply (route_confidence plain (u "2024년 1월 매출 추이")).
  - vm_compute. reflexivity.
  - intros [H _]. vm_compute in H. discriminate.
Defined.

(* ================================================================= *)
(** ** utils.py: loading a file with an encoding fallback *)

Module Loader.

(** The entries of [ENCODINGS] of config.py. *)
Inductive encoding : Type := Utf8Sig | Utf8 | Cp949 | EucKr.

Definition ENCODINGS : list encoding := [Utf8Sig; Utf8; Cp949; EucKr].

(** What one call [pd.read_csv(file_path, encoding=e)] does: it returns
    a frame or raises.  The handlers of [load_csv_with_fallback] tell
    apart decoding errors, a missing file and every other exception. *)
Inductive outcome (DF : Type) : Type :=
| Parsed (df : DF)
| UnicodeError
| FileNotFoundError
| OtherError.

Arguments Parsed {DF} df.
Arguments UnicodeError {DF}.
Arguments FileNotFoundError {DF}.
Arguments OtherError {DF}.

Section WithFrames.
Context {DF : Type}.

(** The file and the file system are seen through [read_csv]: the call
    made for each encoding, each made at most once. *)
Variable read_csv : encoding -> outcome DF.

(** The [for] loop of [load_csv_with_fallback] over the encodings left. *)
Fixpoint try_encodings (encodings : list encoding) : option DF :=
  match encodings with
  | [] => None
  | e :: rest =>
    match read_csv e with
    | Parsed df => Some df
    | UnicodeError => try_encodings rest
    | FileNotFoundError => None
    | OtherError => None
    end
  end.

Definition load_csv_with_fallback : option DF := try_encodings ENCODINGS.

(** The first encoding of the list whose call parses the file. *)
Fixpoint first_parsed (encodings : list encoding) : option DF :=
  match encodings with
  | [] => None
  | e :: rest =>
    match read_csv e with
    | Parsed df => Some df
    | _ => first_parsed rest
    end
  end.

Definition decode_failed (e : encoding) : Prop := read_csv e = UnicodeError.

Definition gave_up (e : encoding) : Prop :=
  read_csv e = FileNotFoundError \/ read_csv e = OtherError.

Lemma try_encodings_spec (encodings : list encoding) :
  match try_encodings encodings with
  | Some df =>
    exists pre e post,
      encodings = pre ++ e :: post /\ Forall decode_failed pre /\
      read_csv e = Parsed df
  | None =>
    Forall decode_failed encodings \/
    exists pre e post,
      encodings = pre ++ e :: post /\ Forall decode_failed pre /\ gave_up e
  end.
Proof.
  induction encodings as [ | e rest IH]; simpl.
  - left. constructor.
  - destruct (read_csv e) as [df | | | ] eqn:E.
    + exists [], e, rest. auto.
    + destruct (try_encodings rest) as [df | ].
      * destruct IH as (pre & e' & post & -> & Hpre & He').
        exists (e :: pre), e', post. split; [reflexivity | ].
        split; [constructor; assumption | assumption].
      * destruct IH as [Hall | (pre & e' & post & -> & Hpre & He')].
        -- left. constructor; assumption.
        -- right. exists (e :: pre), e', post. split; [reflexivity | ].
           split; [constructor; assumption | assumption].
    + right. exists [], e, rest. unfold gave_up. auto.
    + right. exists [], e, rest. unfold gave_up. auto.
Qed.
End WithFrames.
End Loader.

(** C8, amended. The loader calls the encodings in their fixed order as
    long as the calls fail with a decoding error.  The first call that
    parses gives the result.  The file is rejected when every encoding
    fails with a decoding error, and also as soon as one call fails in
    any other way: the encodings after it are not tried. *)
Theorem load_csv_with_fallback_spec {DF : Type}
    (read_csv : Loader.encoding -> Loader.outcome DF) :
  match Loader.load_csv_with_fallback read_csv with
  | Some df =>
    exists pre e post,
      Loader.ENCODINGS = pre ++ e :: post /\
      Forall (Loader.decode_failed read_csv) pre /\
      read_csv e = Loader.Parsed df
  | None =>
    Forall (Loader.decode_failed read_csv) Loader.ENCODINGS \/
    exists pre e post,
      Loader.ENCODINGS = pre ++ e :: post /\
      Forall (Loader.decode_failed read_csv) pre /\
      Loader.gave_up read_csv e
  end.
Proof. apply Loader.try_encodings_spec. Qed.

(** C8 as stated fails: when the first call raises something other than
    a decoding error the file is rejected although the next encoding
    parses it. *)
Lemma load_rejects_before_all_tried :
  let read_csv := fun e =>
    match e with
    | Loader.Utf8Sig => Loader.OtherError
    | _ => Loader.Parsed 1%nat
    end in
  Loader.load_csv_with_fallback read_csv = None /\
  Loader.first_parsed read_csv Loader.ENCODINGS = Some 1%nat /\
  ~ Forall (fun e => forall df, read_csv e <> Loader.Parsed df) Loader.ENCODINGS.
Proof.
  simpl. split; [reflexivity | ]. split; [reflexivity | ].
  intros H. inversion H as [ | ? ? _ H']; subst.
  inversion H' as [ | ? ? H1 _]; subst.
  apply (H1 1%nat). reflexivity.
Qed.

(* ================================================================= *)
(** ** pandas frames *)

Module Pandas.

(** A column holds text ([object] dtype) or numbers; [None] is NaN.
    Numbers are exact rationals. *)
Inductive column : Type :=
| ObjCol (cells : list (option str))
| NumCol (cells : list (option Q)).

(** A frame as read from a file: its columns in order, each with
    [nrows] cells.  Its row labels are the positions 0, 1, ... *)
Record DataFrame : Type := {
  nrows : nat;
  columns : list (str * column)
}.

(** A frame obtained from [frame] by selecting, reordering or cutting
    rows: the labels of the rows it keeps, in order. *)
Definition rows_of : Type := list nat.

Definition all_rows (df : DataFrame) : rows_of := seq 0 (nrows df).

(** [name in df.columns] and [df[name]] *)
Fixpoint get_col (cols : list (str * column)) (name : str) : option column :=
  match cols with
  | [] => None
  | (n, c) :: rest => if str_eqb n name then Some c else get_col rest name
  end.

Definition has_col (df : DataFrame) (name : str) : bool :=
  match get_col (columns df) name with Some _ => true | None => false end.

(** One cell, as a tagged value. *)
Inductive cell : Type :=
| NaN
| Text (s : str)
| Number (q : Q).

Definition cell_at (c : column) (i : nat) : cell :=
  match c with
  | ObjCol cells =>
    match cells !! i with Some (Some s) => Text s | _ => NaN end
  | NumCol cells =>
    match cells !! i with Some (Some q) => Number q | _ => NaN end
  end.

Definition is_numeric (c : column) : bool :=
  match c with NumCol _ => true | ObjCol _ => false end.

Definition NAN_TEXT : str := Eval vm_compute in u "nan".

Section Repr.
(** [str(x)] for a number, Python's formatting of ints and floats. *)
Variable num_repr : Q -> str.

(** [str(value)] *)
Definition cell_text (v : cell) : str :=
  match v with
  | NaN => NAN_TEXT
  | Text s => s
  | Number q => num_repr q
  end.

(** [df[col].astype(str).str.contains(pat, na=False)] for a pattern
    without regex metacharacters, at row [i]. *)
Definition col_contains (c : column) (pat : str) (i : nat) : bool :=
  contains pat (cell_text (cell_at c i)).
End Repr.

(** Lexicographic order of code points: [a <= b] on [str]. *)
Fixpoint str_leb (a b : str) : bool :=
  match a, b with
  | [], _ => true
  | _ :: _, [] => false
  | x :: a', y :: b' =>
    if (x <? y)%N then true else if (x =? y)%N then str_leb a' b' else false
  end.

(** [x <= y] on the values of one column. *)
Definition value_leb (x y : cell) : bool :=
  match x, y with
  | Text a, Text b => str_leb a b
  | Number a, Number b => Qle_bool a b
  | _, _ => true
  end.

(** The order [sort_values] puts rows in: by value, ascending or
    descending, with the NaN rows last either way. *)
Definition before (ascending : bool) (x y : cell) : bool :=
  match x, y with
  | _, NaN => true
  | NaN, _ => false
  | _, _ => if ascending then value_leb x y else value_leb y x
  end.

Definition row_before (c : column) (ascending : bool) (i j : nat) : Prop :=
  before ascending (cell_at c i) (cell_at c j) = true.

#[export] Instance row_before_dec c ascending i j :
  Decision (row_before c ascending i j).
Proof. unfold row_before. apply _. Defined.

(** [df.sort_values(by, ascending)].  pandas sorts with an unstable
    quicksort; rows with equal values may come out in another order
    than here.  The results below use only that the outcome is a
    permutation ordered by [before]. *)
Definition sort_values (c : column) (ascending : bool) (rows : rows_of) : rows_of :=
  merge_sort (row_before c ascending) rows.

(** [df.head(n)] *)
Definition head (n : nat) (rows : rows_of) : rows_of := take n rows.

(** [df[mask]] *)
Definition select (mask : nat -> bool) (rows : rows_of) : rows_of :=
  List.filter mask rows.

End Pandas.

Module PandasFacts.
Import Pandas.

Lemma str_leb_total : forall a b, str_leb a b = true \/ str_leb b a = true.
Proof.
  induction a as [ | x a IH]; intros [ | y b]; simpl; auto.
  destruct (N.ltb_spec x y); [auto | ].
  destruct (N.eqb_spec x y) as [-> | Hne].
  - rewrite N.ltb_irrefl, N.eqb_refl. apply IH.
  - right. destruct (N.ltb_spec y x); [reflexivity | lia].
Qed.

Lemma str_leb_trans :
  forall a b c, str_leb a b = true -> str_leb b c = true -> str_leb a c = true.
Proof.
  induction a as [ | x a IH]; intros [ | y b] [ | z c]; simpl; auto; try discriminate.
  destruct (N.ltb_spec x y) as [Hxy | Hxy].
  - intros _.
    destruct (N.ltb_spec y z) as [Hyz | Hyz].
    + intros _. destruct (N.ltb_spec x z); [reflexivity | lia].
    + destruct (N.eqb_spec y z) as [-> | ]; [ | discriminate].
      intros _. destruct (N.ltb_spec x z); [reflexivity | lia].
  - destruct (N.eqb_spec x y) as [-> | ]; [ | discriminate].
    intros Hab.
    destruct (N.ltb_spec y z) as [Hyz | Hyz]; [reflexivity | ].
    destruct (N.eqb_spec y z) as [-> | ]; [ | discriminate].
    apply IH. exact Hab.
Qed.

(** The cells of one column are of one kind. *)
Inductive kind : Type := KText | KNumber.

Definition of_kind (k : kind) (v : cell) : Prop :=
  match k, v with
  | _, NaN => True
  | KText, Text _ => True
  | KNumber, Number _ => True
  | _, _ => False
  end.

Definition column_kind (c : column) : kind :=
  match c with ObjCol _ => KText | NumCol _ => KNumber end.

Lemma cell_at_kind (c : column) (i : nat) : of_kind (column_kind c) (cell_at c i).
Proof.
  destruct c as [cells | cells]; simpl;
    destruct (cells !! i) as [[v | ] | ]; simpl; exact I.
Qed.

Lemma Qle_bool_total a b : Qle_bool a b = true \/ Qle_bool b a = true.
Proof.
  rewrite !Qle_bool_iff. destruct (Qlt_le_dec a b); [left | right]; lra.
Qed.

Lemma Qle_bool_trans a b c :
  Qle_bool a b = true -> Qle_bool b c = true -> Qle_bool a c = true.
Proof. rewrite !Qle_bool_iff. lra. Qed.

Lemma before_total k asc x y :
  of_kind k x -> of_kind k y -> before asc x y = true \/ before asc y x = true.
Proof.
  intros Hx Hy.
  destruct k, x, y; simpl in *; try contradiction; auto; destruct asc;
    first [ apply str_leb_total | apply Qle_bool_total ].
Qed.

Lemma before_trans k asc x y z :
  of_kind k x -> of_kind k y -> of_kind k z ->
  before asc x y = true -> before asc y z = true -> before asc x z = true.
Proof.
  intros Hx Hy Hz.
  destruct k, x, y, z; simpl in *; try contradiction;
    try reflexivity; try discriminate;
    destruct asc; intros H1 H2;
    first [ exact (str_leb_trans _ _ _ H1 H2)
          | exact (str_leb_trans _ _ _ H2 H1)
          | exact (Qle_bool_trans _ _ _ H1 H2)
          | exact (Qle_bool_trans _ _ _ H2 H1) ].
Qed.

#[export] Instance row_before_total c asc : Total (row_before c asc).
Proof.
  intros i j. unfold row_before.
  apply (before_total (column_kind c)); apply cell_at_kind.
Qed.

#[export] Instance row_before_trans c asc : Transitive (row_before c asc).
Proof.
  intros i j k. unfold row_before.
  apply (before_trans (column_kind c)); apply cell_at_kind.
Qed.

Lemma sort_values_perm c asc rows : sort_values c asc rows ≡ₚ rows.
Proof. apply merge_sort_Permutation. Qed.

Lemma sort_values_sorted c asc rows :
  StronglySorted (row_before c asc) (sort_values c asc rows).
Proof. apply StronglySorted_merge_sort; apply _. Qed.

Lemma head_length n rows : (length (head n rows) <= n)%nat.
Proof. unfold head. rewrite length_take. lia. Qed.

Lemma head_sorted {A} (R : relation A) n (l : list A) :
  StronglySorted R l -> StronglySorted R (take n l).
Proof.
  intros H. rewrite <- (take_drop n l) in H.
  apply StronglySorted_app_1_l in H. exact H.
Qed.
End PandasFacts.

(* ================================================================= *)
(** ** old_files/lookup_engine.py: record lookup *)

Module Lookup.
Import Pandas.

Definition ALL : str := Eval vm_compute in u "전체".
Definition CLIENTS : str := Eval vm_compute in u "거래처".
Definition SALES : str := Eval vm_compute in u "매출".
Definition JOURNAL : str := Eval vm_compute in u "영업일지".

Definition CLIENT_WORDS : list str :=
  Eval vm_compute in map u ["거래처"; "고객"; "업체"; "상호"; "사업자"]%string.
Definition SALES_WORDS : list str :=
  Eval vm_compute in map u ["매출"; "판매"; "주문"; "제품"; "거래"; "내역"]%string.
Definition JOURNAL_WORDS : list str :=
  Eval vm_compute in map u ["영업일지"; "일지"; "방문"; "메모"; "활동"]%string.

Definition NAME_ENDINGS : list str := Eval vm_compute in map u
  ["상사"; "케미칼"; "이엠"; "기공"; "신문"; "코리아"; "산업"; "전자"]%string.
Definition QUESTION_WORDS : list str := Eval vm_compute in map u
  ["무엇"; "어디"; "언제"; "누구"; "왜"; "어떻게"; "합계"; "평균"; "알려"; "보여";
   "최근"; "방문"]%string.
Definition RECENT : str := Eval vm_compute in u "최근".
Definition PAST : str := Eval vm_compute in u "지난".

Definition A_2 : str := Eval vm_compute in u "A-2".
Definition B_1 : str := Eval vm_compute in u "B-1".
Definition B_2 : str := Eval vm_compute in u "B-2".
Definition C_2 : str := Eval vm_compute in u "C-2".

Definition CLIENT_FILE : str := Eval vm_compute in u "거래처 데이터".
Definition SALES_FILE : str := Eval vm_compute in u "sales data".

Definition SENSITIVE_KEYWORDS : list str := Eval vm_compute in map u
  ["사업자"; "주민"; "등록번호"; "전화"; "핸드폰"; "이메일"]%string.

(** The dict [conditions] of [_extract_search_conditions]. *)
Record conditions : Type := {
  c_name : option str;
  c_year : option str;
  c_month : option str;
  c_recent : bool;
  c_past : bool;
  c_code : option str
}.

(** One found record: the dict with ["dataset"], ["row_id"] and one
    entry for each value of the row that is not NaN. *)
Record record : Type := {
  r_dataset : str;
  r_row_id : nat;
  r_fields : list (str * str)
}.

(** [_select_datasets] *)
Definition _select_datasets (query dataset_filter : str) : list str :=
  if negb (str_eqb dataset_filter ALL) then [dataset_filter]
  else
    let datasets :=
      (if any_in CLIENT_WORDS query then [CLIENTS] else []) ++
      (if any_in SALES_WORDS query then [SALES] else []) ++
      (if any_in JOURNAL_WORDS query then [JOURNAL] else []) in
    match datasets with
    | [] => [CLIENTS; SALES; JOURNAL]
    | _ => datasets
    end.

Section Engine.
Variable U : Unicode.
(** [str(x)] for a number *)
Variable num_repr : Q -> str.
(** [data_loader.raw_dataframes] *)
Variable raw_dataframes : gmap str DataFrame.
(** [codebook_loader.get_column_mapping] *)
Variable get_column_mapping : str -> gmap str str.

Definition digit : regex := Cls (is_digit U).
Definition hangul : regex := Cls is_hangul.

(** [r'[가-힣]{2,}(?:상사|케미칼|이엠|기공|신문|코리아|산업|전자)?'] *)
Definition name_re : regex :=
  Seq (times 2 hangul) (Seq (Star hangul) (opt (alts (map lit NAME_ENDINGS)))).
(** [r'(\d{4})년'] *)
Definition year_re : regex := Seq (Grp 1 (times 4 digit)) (Chr Router.NYEON).
(** [r'(\d+)월'] *)
Definition month_re : regex := Seq (Grp 1 (plus digit)) (Chr Router.WOL).
(** [r'[A-Z0-9]{3,}'] *)
Definition code_re : regex :=
  let c := Cls (fun x => ascii_upper x || ascii_digit x) in
  Seq (times 3 c) (Star c).

Definition group1 (m : option rmatch) : option str :=
  match m with
  | Some m => group 1 (m_groups m)
  | None => None
  end.

(** [_extract_search_conditions] *)
Definition _extract_search_conditions (query : str) : conditions :=
  let korean_names := re_findall name_re query in
  let year := group1 (re_search year_re query) in
  {| c_name :=
       List.find (fun name => negb (existsb (str_eqb name) QUESTION_WORDS))
                 korean_names;
     c_year := year;
     c_month :=
       match year with
       | Some _ => option_map zfill2 (group1 (re_search month_re query))
       | None => None
       end;
     c_recent := contains RECENT query;
     c_past := negb (contains RECENT query) && contains PAST query;
     c_code := option_map m_text (re_search code_re query) |}.

(** The filters of [_search_in_dataset], each skipped when its
    condition or its column is missing. *)
Definition keep_where (cond : option str) (col : option column)
    (decorate : str -> str) (rows : rows_of) : rows_of :=
  match cond, col with
  | Some pat, Some c => select (col_contains num_repr c (decorate pat)) rows
  | _, _ => rows
  end.

Definition matching (df : DataFrame) (cond : conditions) : rows_of :=
  let col := get_col (columns df) in
  let rows := all_rows df in
  let rows :=
    match c_name cond with
    | Some name =>
      match omap col [B_1; C_2] with
      | [] => rows
      | name_cols =>
        select (fun i => existsb (fun c => col_contains num_repr c name i) name_cols)
               rows
      end
    | None => rows
    end in
  let rows := keep_where (c_code cond) (col B_2) id rows in
  let rows := keep_where (c_year cond) (col A_2) id rows in
  keep_where (c_month cond) (col A_2) (fun month => hyphen :: month) rows.

(** The frame after the optional sort and [head(10)]. *)
Definition found_rows (df : DataFrame) (cond : conditions) : rows_of :=
  let rows := matching df cond in
  let rows :=
    match c_recent cond, get_col (columns df) A_2 with
    | true, Some dates => sort_values dates false rows
    | _, _ => rows
    end in
  head 10 rows.

(** [_translate_columns], on one column name *)
Definition translate (dataset_name col : str) : str :=
  let file_type :=
    if str_eqb dataset_name CLIENTS then CLIENT_FILE
    else if str_eqb dataset_name SALES then SALES_FILE
    else if str_eqb dataset_name JOURNAL then JOURNAL
    else dataset_name in
  default col (get_column_mapping file_type !! col).

(** [_is_sensitive] *)
Definition _is_sensitive (column_name : str) : bool :=
  any_in SENSITIVE_KEYWORDS column_name.

Definition to_record (dataset_name : str) (df : DataFrame) (i : nat) : record :=
  {| r_dataset := dataset_name;
     r_row_id := i;
     r_fields :=
       omap (fun '(name, c) =>
               match cell_at c i with
               | NaN => None
               | value =>
                 let col := translate dataset_name name in
                 let value_str := cell_text num_repr value in
                 Some (col,
                       if _is_sensitive col
                       then Utils.mask_sensitive_info U value_str
                       else value_str)
               end)
            (columns df) |}.

(** [_search_in_dataset] *)
Definition _search_in_dataset (dataset_name : str) (cond : conditions) : list record :=
  match raw_dataframes !! dataset_name with
  | None => []
  | Some df => map (to_record dataset_name df) (found_rows df cond)
  end.

(** [lookup], its [found_records] *)
Definition lookup (query dataset_filter : str) : list record :=
  flat_map (fun dataset_name =>
              _search_in_dataset dataset_name (_extract_search_conditions query))
           (_select_datasets query dataset_filter).
End Engine.
End Lookup.

Module LookupFacts.
Import Pandas PandasFacts Lookup.
Section Engine.
Variable U : Unicode.
Variable num_repr : Q -> str.
Variable raw_dataframes : gmap str DataFrame.
Variable get_column_mapping : str -> gmap str str.

Lemma row_ids (dataset_name : str) (df : DataFrame) (rows : rows_of) :
  map r_row_id (map (to_record U num_repr get_column_mapping dataset_name df) rows)
  = rows.
Proof.
  induction rows as [ | i rows IH]; [reflexivity | ].
  cbn [map]. rewrite IH. reflexivity.
Qed.

Lemma found_rows_length (df : DataFrame) (cond : conditions) :
  (length (found_rows num_repr df cond) <= 10)%nat.
Proof. apply head_length. Qed.

Lemma _search_in_dataset_length (dataset_name : str) (cond : conditions) :
  (length (_search_in_dataset U num_repr raw_dataframes get_column_mapping
             dataset_name cond) <= 10)%nat.
Proof.
  unfold _search_in_dataset.
  destruct (raw_dataframes !! dataset_name) as [df | ]; [ | simpl; lia].
  rewrite length_map. apply found_rows_length.
Qed.

Lemma found_rows_recent (df : DataFrame) (cond : conditions) (dates : column) :
  c_recent cond = true ->
  get_col (columns df) A_2 = Some dates ->
  found_rows num_repr df cond
  = head 10 (sort_values dates false (matching num_repr df cond)).
Proof. intros Hr Hd. unfold found_rows. rewrite Hr, Hd. reflexivity. Qed.

Lemma lookup_length (query dataset_filter : str) :
  (length (lookup U num_repr raw_dataframes get_column_mapping query dataset_filter)
   <= 10 * length (_select_datasets query dataset_filter))%nat.
Proof.
  unfold lookup.
  induction (_select_datasets query dataset_filter) as [ | name names IH];
    [simpl; lia | ].
  cbn [flat_map]. rewrite length_app.
  pose proof (_search_in_dataset_length name (_extract_search_conditions U query)).
  simpl length. lia.
Qed.
End Engine.
End LookupFacts.

(** C7, amended. For a query that mentions 최근, the records found in
    each table that has the date column A-2 are the first ten at most of
    the matching rows put in descending order of that column (rows
    without a date last).  [lookup] returns these lists one after the
    other, one for each table it searches, so at most ten records for
    each table. *)
Theorem lookup_recent (U : Unicode) (num_repr : Q -> str)
    (raw_dataframes : gmap str Pandas.DataFrame)
    (get_column_mapping : str -> gmap str str) (query dataset_filter : str) :
  contains Lookup.RECENT query = true ->
  let cond := Lookup._extract_search_conditions U query in
  let search := Lookup._search_in_dataset U num_repr raw_dataframes get_column_mapping in
  (forall dataset_name df dates,
      raw_dataframes !! dataset_name = Some df ->
      Pandas.get_col (Pandas.columns df) Lookup.A_2 = Some dates ->
      let ids := map Lookup.r_row_id (search dataset_name cond) in
      ids = Pandas.head 10
              (Pandas.sort_values dates false (Lookup.matching num_repr df cond)) /\
      (length ids <= 10)%nat /\
      StronglySorted (Pandas.row_before dates false) ids /\
      ids ⊆ Lookup.matching num_repr df cond) /\
  Lookup.lookup U num_repr raw_dataframes get_column_mapping query dataset_filter
  = flat_map (fun dataset_name => search dataset_name cond)
             (Lookup._select_datasets query dataset_filter) /\
  (length (Lookup.lookup U num_repr raw_dataframes get_column_mapping
             query dataset_filter)
   <= 10 * length (Lookup._select_datasets query dataset_filter))%nat.
Proof.
  intros Hrecent cond search. split; [ | split].
  - intros dataset_name df dates Hdf Hdates ids.
    assert (ids = Pandas.head 10
              (Pandas.sort_values dates false (Lookup.matching num_repr df cond)))
      as Hids.
    { subst ids search. unfold Lookup._search_in_dataset. rewrite Hdf.
      rewrite LookupFacts.row_ids.
      apply LookupFacts.found_rows_recent; [exact Hrecent | exact Hdates]. }
    split; [exact Hids | ]. rewrite Hids. split; [apply PandasFacts.head_length | ].
    split.
    + apply PandasFacts.head_sorted. apply PandasFacts.sort_values_sorted.
    + intros i Hi. unfold Pandas.head in Hi.
      apply (subseteq_take 10) in Hi.
      rewrite PandasFacts.sort_values_perm in Hi. exact Hi.
  - reflexivity.
  - apply LookupFacts.lookup_length.
Qed.

(** Sample frames and queries for the lookup engine. *)
Module LookupSamples.
Import Pandas Lookup.

Definition no_numbers : Q -> str := fun _ => [].
Definition no_mapping : str -> gmap str str := fun _ => ∅.

(** A visit log: dates (A-2) and client names (B-1). *)
Definition visits : DataFrame :=
  {| nrows := 4;
     columns :=
       [(A_2, ObjCol (map (fun s => Some (u s))
                          ["2024-01-05"; "2024-03-01"; "2024-02-10"; "2024-03-09"]%string));
        (B_1, ObjCol (map (fun s => Some (u s))
                          ["한국상사"; "대한전자"; "한국상사"; "한국상사"]%string))] |}.

Definition journal_only : gmap str DataFrame := {[ JOURNAL := visits ]}.

Definition three_tables : gmap str DataFrame :=
  {[ CLIENTS := visits; SALES := visits; JOURNAL := visits ]}.

Definition recent_visit : str := Eval vm_compute in u "한국상사 최근 방문".
Definition recent_only : str := Eval vm_compute in u "최근".
End LookupSamples.

Example lookup_recent_visit :
  map Lookup.r_row_id
      (Lookup.lookup plain LookupSamples.no_numbers LookupSamples.journal_only
         LookupSamples.no_mapping LookupSamples.recent_visit Lookup.ALL)
  = [3; 2; 0]%nat.
Proof. vm_compute. reflexivity. Qed.

Lemma lookup_recent_witness :
  contains Lookup.RECENT LookupSamples.recent_visit = true /\
  map Lookup.r_row_id
      (Lookup._search_in_dataset plain LookupSamples.no_numbers
         LookupSamples.journal_only LookupSamples.no_mapping Lookup.JOURNAL
         (Lookup._extract_search_conditions plain LookupSamples.recent_visit))
  = [3; 2; 0]%nat.
Proof.
  split; [reflexivity | ].
  pose proof (lookup_recent plain LookupSamples.no_numbers LookupSamples.journal_only
                LookupSamples.no_mapping LookupSamples.recent_visit Lookup.ALL
                eq_refl) as [H _].
  destruct (H Lookup.JOURNAL LookupSamples.visits
              (Pandas.ObjCol (map (fun s => Some (u s))
                 ["2024-01-05"; "2024-03-01"; "2024-02-10"; "2024-03-09"]%string))
              eq_refl eq_refl) as [Hids _].
  rewrite Hids. vm_compute. reflexivity.
Defined.

(** C7 as stated fails for [lookup]: a query that names no table is run
    on all three tables, each gives up to ten records, and the lists are
    put one after the other without a common order. *)
Lemma lookup_recent_more_than_ten :
  contains Lookup.RECENT LookupSamples.recent_only = true /\
  Pandas.has_col LookupSamples.visits Lookup.A_2 = true /\
  map Lookup.r_row_id
      (Lookup.lookup plain LookupSamples.no_numbers LookupSamples.three_tables
         LookupSamples.no_mapping LookupSamples.recent_only Lookup.ALL)
  = [3; 1; 2; 0; 3; 1; 2; 0; 3; 1; 2; 0]%nat /\
  ~ (length (Lookup.lookup plain LookupSamples.no_numbers LookupSamples.three_tables
               LookupSamples.no_mapping LookupSamples.recent_only Lookup.ALL)
     <= 10)%nat.
Proof.
  split; [reflexivity | ]. split; [reflexivity | ].
  split; [vm_compute; reflexivity | ].
  vm_compute. lia.
Qed.

(* ================================================================= *)
(** ** smart_analyst.py: joining the uploaded tables *)


(** [s.replace(old, new)] for a non-empty [old]; [skip] counts the
    characters of the current occurrence still to pass. *)
Fixpoint replace_from (old new : str) (skip : nat) (s : str) : str :=
  match s with
  | [] => []
  | c :: t =>
    match skip with
    | S n => replace_from old new n t
    | O =>
      if starts_with old s
      then new ++ replace_from old new (length old - 1) t
      else c :: replace_from old new 0 t
    end
  end.

Definition replace (old new s : str) : str := replace_from old new 0 s.

(** [str(i)] for a natural number *)
Definition nat_repr (n : nat) : str :=
  map N_of_ascii (list_ascii_of_string (NilZero.string_of_uint (Nat.to_uint n))).

(** [s.strip()] *)
Definition strip (U : Unicode) (s : str) : str :=
  let lstrip := fix lstrip (s : str) : str :=
    match s with
    | c :: t => if is_space U c then lstrip t else s
    | [] => []
    end in
  rev (lstrip (rev (lstrip s))).

(** Code that may raise: a value or an exception. *)
Inductive result (A : Type) : Type :=
| Ok (a : A)
| Raise.

Arguments Ok {A} a.
Arguments Raise {A}.

Module Join.
Import Pandas.

Definition COMPANY : str := Eval vm_compute in u "거래처".
Definition COMPANY_NAME : str := Eval vm_compute in u "거래처명".
Definition COMPANY_CODE : str := Eval vm_compute in u "거래처 코드".

Definition important_cols : list str := Eval vm_compute in map u
  ["거래처"; "거래처명"; "거래처 코드"; "매출일"; "거래일"; "합계"; "총 판매금액";
   "공급가액"; "마진율"; "제품명"; "제품군"]%string.

Definition CSV : str := Eval vm_compute in u ".csv".
Definition VER1 : str := Eval vm_compute in u "ver1".
Definition UNDERSCORE_1 : str := Eval vm_compute in u "_1".

Definition is_important (col : str) : bool := existsb (str_eqb col) important_cols.

(** The chain of [replace] calls that makes [file_prefix]. *)
Definition file_prefix (filename : str) : str :=
  replace UNDERSCORE_1 []
    (replace VER1 []
       (replace [41%N] []
          (replace [40%N] []
             (replace [32%N] [95%N] (replace CSV [] filename))))).

(** [df.rename(columns=rename_dict)]: every column that is not on the
    list of important names gets the file prefix. *)
Definition rename_columns (filename : str) (df : DataFrame) : DataFrame :=
  {| nrows := nrows df;
     columns :=
       map (fun '(col, c) =>
              (if is_important col then col
               else file_prefix filename ++ [95%N] ++ col, c))
           (columns df) |}.

(** Rows picked from a column by position; [None] gives NaN. *)
Definition gather (c : column) (picks : list (option nat)) : column :=
  match c with
  | ObjCol cells => ObjCol (map (fun p => p ≫= fun i => mjoin (cells !! i)) picks)
  | NumCol cells => NumCol (map (fun p => p ≫= fun i => mjoin (cells !! i)) picks)
  end.

(** Key values are equal; NaN keys match each other, as in pandas. *)
Definition key_eqb (x y : cell) : bool :=
  match x, y with
  | NaN, NaN => true
  | Text a, Text b => str_eqb a b
  | Number a, Number b => Qeq_bool a b
  | _, _ => false
  end.

Section Merge.
Variable left right : DataFrame.
Variable lkey rkey : column.

Definition matches_of (i : nat) : list nat :=
  List.filter (fun j => key_eqb (cell_at lkey i) (cell_at rkey j)) (all_rows right).

Definition has_match (j : nat) : bool :=
  existsb (fun i => key_eqb (cell_at lkey i) (cell_at rkey j)) (all_rows left).

(** The row pairs of an outer join: every left row with each of its
    matches or alone, then the right rows without a match.  pandas
    orders the result by the key; the order is not used below. *)
Definition outer_pairs : list (option nat * option nat) :=
  flat_map (fun i =>
              match matches_of i with
              | [] => [(Some i, None)]
              | js => map (fun j => (Some i, Some j)) js
              end) (all_rows left)
  ++ map (fun j => (None, Some j))
         (List.filter (fun j => negb (has_match j)) (all_rows right)).

(** The key column of the result: the left key, or the right key on the
    rows that come from the right table only. *)
Definition coalesce {A : Type} (l r : list (option A))
    (pairs : list (option nat * option nat)) : list (option A) :=
  map (fun '(p, q) =>
         match p with
         | Some i => mjoin (l !! i)
         | None => q ≫= fun j => mjoin (r !! j)
         end) pairs.

(** pandas refuses to merge a text key with a numeric key. *)
Definition merged_key (pairs : list (option nat * option nat)) : option column :=
  match lkey, rkey with
  | ObjCol l, ObjCol r => Some (ObjCol (coalesce l r pairs))
  | NumCol l, NumCol r => Some (NumCol (coalesce l r pairs))
  | _, _ => None
  end.
End Merge.

(** The columns of the right frame that are not the key. *)
Definition other_columns (key : str) (df : DataFrame) : list (str * column) :=
  List.filter (fun '(col, _) => negb (str_eqb col key)) (columns df).

(** [pd.merge(left, right, on=key, how='outer', suffixes=('', suffix))];
    [None] stands for the [KeyError] or [ValueError] pandas raises. *)
Definition outer_merge (key suffix : str) (left right : DataFrame) : option DataFrame :=
  match get_col (columns left) key, get_col (columns right) key with
  | Some lkey, Some rkey =>
    let pairs := outer_pairs left right lkey rkey in
    let lnames := map fst (columns left) in
    match merged_key lkey rkey pairs with
    | Some keycol =>
      Some
        {| nrows := length pairs;
           columns :=
             map (fun '(col, c) =>
                    (col, if str_eqb col key then keycol
                          else gather c (map fst pairs)))
                 (columns left)
             ++ map (fun '(col, c) =>
                       (if existsb (str_eqb col) lnames then col ++ suffix else col,
                        gather c (map snd pairs)))
                    (other_columns key right) |}
    | None => None
    end
  | _, _ => None
  end.

Section Heuristic.
Variable U : Unicode.
Variable num_repr : Q -> str.
(** The pairs of frames for which [pd.merge] raises for a reason that
    the frames of this model do not show (such as names that collide
    after the suffixes are added). *)
Variable merge_refuses : DataFrame -> DataFrame -> bool.

Definition pd_merge (i : nat) (left right : DataFrame) : result DataFrame :=
  if merge_refuses left right then Raise
  else match outer_merge COMPANY (95%N :: nat_repr i) left right with
       | Some df => Ok df
       | None => Raise
       end.

(** The rows of [df[[code, name]].dropna()], as (code, name) texts. *)
Definition code_name_rows (df : DataFrame) (code name : column) : list (str * str) :=
  omap (fun i =>
          match cell_at code i, cell_at name i with
          | NaN, _ | _, NaN => None
          | x, y => Some (strip U (cell_text num_repr x), strip U (cell_text num_repr y))
          end) (all_rows df).

(** Step 1: the map from company code to company name.  The reverse
    map [name_to_code_map] is filled next to it and only printed. *)
Definition add_codes (m : gmap str str) (df : DataFrame) : gmap str str :=
  let col := get_col (columns df) in
  match col COMPANY_CODE, col COMPANY, col COMPANY_NAME with
  | Some code, Some name, _
  | Some code, None, Some name =>
    fold_left (fun m '(k, v) => <[k := v]> m) (code_name_rows df code name) m
  | _, _, _ => m
  end.

Definition code_to_name_map (dataframes : list (str * DataFrame)) : gmap str str :=
  fold_left (fun m '(_, df) => add_codes m df) dataframes ∅.

Definition joinable (df : DataFrame) : bool :=
  has_col df COMPANY || has_col df COMPANY_NAME || has_col df COMPANY_CODE.

(** The column of names derived from a column of codes. *)
Definition names_of_codes (m : gmap str str) (df : DataFrame) (code : column) : column :=
  ObjCol (map (fun i =>
                 match cell_at code i with
                 | NaN => None
                 | x => let s := cell_text num_repr x in
                        Some (default s (m !! strip U s))
                 end) (all_rows df)).

(** Step 2 on one frame: the company column is made when it is
    missing. *)
Definition with_company (m : gmap str str) (df : DataFrame) : DataFrame :=
  let col := get_col (columns df) in
  match col COMPANY, col COMPANY_NAME, col COMPANY_CODE with
  | Some _, _, _ => df
  | None, Some name, _ =>
    {| nrows := nrows df; columns := columns df ++ [(COMPANY, name)] |}
  | None, None, Some code =>
    {| nrows := nrows df;
       columns := columns df ++ [(COMPANY, names_of_codes m df code)] |}
  | None, None, None => df
  end.

Definition prepare (m : gmap str str) (filename : str) (df : DataFrame) : DataFrame :=
  rename_columns filename (with_company m df).

Definition joinable_dfs (dataframes : list (str * DataFrame)) : list (str * DataFrame) :=
  let m := code_to_name_map dataframes in
  omap (fun '(filename, df) =>
          if joinable df then Some (filename, prepare m filename df) else None)
       dataframes.

(** Step 3: the loop [for i in range(1, len(joinable_dfs))]. *)
Fixpoint merge_all (i : nat) (result_df : DataFrame) (rest : list (str * DataFrame))
  : result DataFrame :=
  match rest with
  | [] => Ok result_df
  | (_, df) :: rest' =>
    match pd_merge i result_df df with
    | Ok merged => merge_all (S i) merged rest'
    | Raise => Raise
    end
  end.

(** The body of the [try] block. *)
Definition join_body (dataframes : list (str * DataFrame)) : result (option DataFrame) :=
  match joinable_dfs dataframes with
  | [] | [_] => Ok None
  | (_, first) :: rest =>
    match merge_all 1 first rest with
    | Ok df => Ok (Some df)
    | Raise => Raise
    end
  end.

(** [_join_dataframes]: [except Exception] turns a raise into [None]. *)
Definition _join_dataframes (dataframes : list (str * DataFrame)) : option DataFrame :=
  match join_body dataframes with
  | Ok r => r
  | Raise => None
  end.
End Heuristic.
End Join.

Module JoinFacts.
Import Pandas Join.

Lemma length_omap_le {A B : Type} (f : A -> option B) (l : list A) :
  (length (omap f l) <= length l)%nat.
Proof.
  induction l as [ | x l IH]; [simpl; lia | ].
  cbn. fold (omap f l). destruct (f x); cbn; lia.
Qed.

(** A list without repetitions whose elements all show in the image of
    another list is not longer than that list. *)
Lemma covered_length {A B : Type} (f : B -> option A) (l : list A) (k : list B) :
  NoDup l ->
  (forall x, x ∈ l -> exists y, y ∈ k /\ f y = Some x) ->
  (length l <= length k)%nat.
Proof.
  intros Hnd Hcov.
  assert (l ⊆+ omap f k) as Hsub.
  { apply NoDup_submseteq; [exact Hnd | ].
    intros x Hx. destruct (Hcov x Hx) as (y & Hy & Hfy).
    apply list_elem_of_omap. exists y. auto. }
  apply submseteq_length in Hsub.
  pose proof (length_omap_le f k). lia.
Qed.

Lemma all_rows_NoDup (df : DataFrame) : NoDup (all_rows df).
Proof. apply NoDup_seq. Qed.

Lemma all_rows_length (df : DataFrame) : length (all_rows df) = nrows df.
Proof. apply length_seq. Qed.

Lemma elem_of_all_rows (df : DataFrame) (i : nat) :
  i ∈ all_rows df <-> (i < nrows df)%nat.
Proof. unfold all_rows. rewrite elem_of_seq. lia. Qed.

Section Pairs.
Variable left right : DataFrame.
Variable lkey rkey : column.

Lemma left_covered (i : nat) :
  i ∈ all_rows left ->
  exists q, (Some i, q) ∈ outer_pairs left right lkey rkey.
Proof.
  intros Hi. unfold outer_pairs.
  destruct (matches_of right lkey rkey i) as [ | j js] eqn:E.
  - exists None. apply elem_of_app. left.
    apply list_elem_of_In, in_flat_map. exists i.
    split; [apply list_elem_of_In; exact Hi | ]. rewrite E. left. reflexivity.
  - exists (Some j). apply elem_of_app. left.
    apply list_elem_of_In, in_flat_map. exists i.
    split; [apply list_elem_of_In; exact Hi | ]. rewrite E. left. reflexivity.
Qed.

Lemma right_covered (j : nat) :
  j ∈ all_rows right ->
  exists p,
    (p, Some j) ∈ outer_pairs left right lkey rkey /\
    match p with
    | Some i => key_eqb (cell_at lkey i) (cell_at rkey j) = true
    | None => True
    end.
Proof.
  intros Hj. unfold outer_pairs.
  destruct (has_match left lkey rkey j) eqn:E.
  - unfold has_match in E. apply existsb_exists in E as (i & Hi & Hm).
    exists (Some i). split; [ | exact Hm].
    apply elem_of_app. left.
    apply list_elem_of_In, in_flat_map. exists i. split; [exact Hi | ].
    assert (j ∈ matches_of right lkey rkey i) as Hin.
    { unfold matches_of. apply list_elem_of_In, filter_In.
      split; [apply list_elem_of_In; exact Hj | exact Hm]. }
    destruct (matches_of right lkey rkey i) as [ | j0 js] eqn:Em.
    + inversion Hin.
    + apply in_map_iff. exists j. split; [reflexivity | ].
      apply list_elem_of_In. exact Hin.
  - exists None. split; [ | exact I].
    apply elem_of_app. right.
    apply list_elem_of_In, in_map_iff. exists j. split; [reflexivity | ].
    apply filter_In. split; [apply list_elem_of_In; exact Hj | ].
    rewrite E. reflexivity.
Qed.

Lemma outer_pairs_length :
  (Nat.max (nrows left) (nrows right)
   <= length (outer_pairs left right lkey rkey))%nat.
Proof.
  apply Nat.max_lub.
  - rewrite <- (all_rows_length left).
    apply (covered_length fst); [apply all_rows_NoDup | ].
    intros i Hi. destruct (left_covered i Hi) as [q Hq].
    exists (Some i, q). auto.
  - rewrite <- (all_rows_length right).
    apply (covered_length snd); [apply all_rows_NoDup | ].
    intros j Hj. destruct (right_covered j Hj) as (p & Hp & _).
    exists (p, Some j). auto.
Qed.
End Pairs.
End JoinFacts.

Module MergeFacts.
Import Pandas Join JoinFacts.

Lemma str_eqb_refl (s : str) : str_eqb s s = true.
Proof. induction s as [ | c s IH]; simpl; [reflexivity | ]. rewrite N.eqb_refl. exact IH. Qed.

Lemma str_eqb_eq (a b : str) : str_eqb a b = true -> a = b.
Proof.
  revert b. induction a as [ | x a IH]; intros [ | y b] H; simpl in H;
    try discriminate; [reflexivity | ].
  apply andb_prop in H as [Hxy H]. apply N.eqb_eq in Hxy as ->.
  f_equal. apply IH. exact H.
Qed.

Lemma key_eqb_refl (x : cell) : key_eqb x x = true.
Proof.
  destruct x as [ | s | q]; simpl; [reflexivity | apply str_eqb_refl | ].
  apply Qeq_bool_iff. reflexivity.
Qed.

Lemma cell_at_gather (c : column) (picks : list (option nat)) (r : nat) :
  cell_at (gather c picks) r
  = match picks !! r with
    | Some (Some i) => cell_at c i
    | _ => NaN
    end.
Proof.
  destruct c as [cells | cells]; simpl; rewrite list_lookup_fmap;
    destruct (picks !! r) as [[i | ] | ]; simpl; try reflexivity;
    destruct (cells !! i) as [[v | ] | ]; reflexivity.
Qed.

Lemma lookup_coalesce {A : Type} (l rr : list (option A))
    (pairs : list (option nat * option nat)) (r : nat) p q :
  pairs !! r = Some (p, q) ->
  coalesce l rr pairs !! r
  = Some match p with
         | Some i => mjoin (l !! i)
         | None => q ≫= fun j => mjoin (rr !! j)
         end.
Proof. intros H. unfold coalesce. rewrite list_lookup_fmap, H. reflexivity. Qed.

Lemma merged_key_left lkey rkey pairs kc r i q :
  merged_key lkey rkey pairs = Some kc ->
  pairs !! r = Some (Some i, q) ->
  cell_at kc r = cell_at lkey i.
Proof.
  intros Hk Hr. destruct lkey as [l | l], rkey as [rr | rr]; simpl in Hk;
    try discriminate; inversion Hk; subst kc; simpl;
    rewrite (lookup_coalesce _ _ _ _ _ _ Hr);
    destruct (l !! i) as [[v | ] | ]; reflexivity.
Qed.

Lemma merged_key_right lkey rkey pairs kc r j :
  merged_key lkey rkey pairs = Some kc ->
  pairs !! r = Some (None, Some j) ->
  cell_at kc r = cell_at rkey j.
Proof.
  intros Hk Hr. destruct lkey as [l | l], rkey as [rr | rr]; simpl in Hk;
    try discriminate; inversion Hk; subst kc; simpl;
    rewrite (lookup_coalesce _ _ _ _ _ _ Hr); simpl;
    destruct (rr !! j) as [[v | ] | ]; reflexivity.
Qed.

(** Looking a name up after the columns were rebuilt name by name. *)
Lemma get_col_map_app (g : str -> column -> column) (cols rest : list (str * column))
    (key : str) (c : column) :
  get_col cols key = Some c ->
  exists col, str_eqb col key = true /\
    get_col (map (fun '(col, c) => (col, g col c)) cols ++ rest) key = Some (g col c).
Proof.
  induction cols as [ | [n c0] cols IH]; simpl; [discriminate | ].
  destruct (str_eqb n key) eqn:E.
  - intros H. inversion H; subst. exists n. auto.
  - exact IH.
Qed.

(** Row [i] of [left] is row [r] of [joined]. *)
Definition row_kept_left (key : str) (left joined : DataFrame) (i r : nat) : Prop :=
  (forall k col c,
      columns left !! k = Some (col, c) -> str_eqb col key = false ->
      exists col' c', columns joined !! k = Some (col', c') /\
                      cell_at c' r = cell_at c i) /\
  (forall lkey,
      get_col (columns left) key = Some lkey ->
      exists kc, get_col (columns joined) key = Some kc /\
                 cell_at kc r = cell_at lkey i).

(** Row [j] of [right] is row [r] of [joined]: its fields other than the
    key stand after the columns of [left], and the key agrees. *)
Definition row_kept_right (key : str) (left right joined : DataFrame) (j r : nat) : Prop :=
  (forall k col c,
      other_columns key right !! k = Some (col, c) ->
      exists col' c',
        columns joined !! (length (columns left) + k)%nat = Some (col', c') /\
        cell_at c' r = cell_at c j) /\
  (forall rkey,
      get_col (columns right) key = Some rkey ->
      exists kc, get_col (columns joined) key = Some kc /\
                 key_eqb (cell_at kc r) (cell_at rkey j) = true).

Lemma outer_merge_rows (key suffix : str) (left right joined : DataFrame) :
  outer_merge key suffix left right = Some joined ->
  (Nat.max (nrows left) (nrows right) <= nrows joined)%nat /\
  (forall i, (i < nrows left)%nat ->
     exists r, (r < nrows joined)%nat /\ row_kept_left key left joined i r) /\
  (forall j, (j < nrows right)%nat ->
     exists r, (r < nrows joined)%nat /\ row_kept_right key left right joined j r).
Proof.
  unfold outer_merge.
  destruct (get_col (columns left) key) as [lkey | ] eqn:El; [ | discriminate].
  destruct (get_col (columns right) key) as [rkey | ] eqn:Er; [ | discriminate].
  set (pairs := outer_pairs left right lkey rkey).
  destruct (merged_key lkey rkey pairs) as [kc | ] eqn:Ek; [ | discriminate].
  intros H. inversion H; subst joined; clear H. cbn [nrows columns].
  split; [apply outer_pairs_length | ]. split.
  - intros i Hi.
    destruct (left_covered left right lkey rkey i) as [q Hq];
      [apply elem_of_all_rows; exact Hi | ].
    apply list_elem_of_lookup in Hq as [r Hr]. fold pairs in Hr.
    exists r. split; [apply lookup_lt_Some in Hr; exact Hr | ]. split.
    + intros k col c Hk Hne. cbn [columns].
      rewrite lookup_app_l by (rewrite length_map; apply lookup_lt_Some in Hk; exact Hk).
      rewrite list_lookup_fmap, Hk. cbn. rewrite Hne.
      eexists _, _. split; [reflexivity | ].
      rewrite cell_at_gather, list_lookup_fmap, Hr. reflexivity.
    + intros lkey' Hl'. rewrite El in Hl'. inversion Hl'; subst lkey'.
      destruct (get_col_map_app
                  (fun col c => if str_eqb col key then kc
                                else gather c (map fst pairs))
                  (columns left)
                  (map (fun '(col, c) =>
                          (if existsb (str_eqb col) (map fst (columns left))
                           then col ++ suffix else col,
                           gather c (map snd pairs)))
                       (other_columns key right))
                  key lkey El) as (col & Hcol & Hget).
      rewrite Hcol in Hget. exists kc. split; [exact Hget | ].
      apply (merged_key_left lkey rkey pairs kc r i q Ek Hr).
  - intros j Hj.
    destruct (right_covered left right lkey rkey j) as (p & Hp & Hm);
      [apply elem_of_all_rows; exact Hj | ].
    apply list_elem_of_lookup in Hp as [r Hr]. fold pairs in Hr.
    exists r. split; [apply lookup_lt_Some in Hr; exact Hr | ]. split.
    + intros k col c Hk. cbn [columns].
      rewrite lookup_app_r by (rewrite length_map; lia).
      rewrite length_map.
      replace (length (columns left) + k - length (columns left))%nat with k by lia.
      rewrite list_lookup_fmap, Hk. cbn.
      eexists _, _. split; [reflexivity | ].
      rewrite cell_at_gather, list_lookup_fmap, Hr. reflexivity.
    + intros rkey' Hr'. rewrite Er in Hr'. inversion Hr'; subst rkey'.
      destruct (get_col_map_app
                  (fun col c => if str_eqb col key then kc
                                else gather c (map fst pairs))
                  (columns left)
                  (map (fun '(col, c) =>
                          (if existsb (str_eqb col) (map fst (columns left))
                           then col ++ suffix else col,
                           gather c (map snd pairs)))
                       (other_columns key right))
                  key lkey El) as (col & Hcol & Hget).
      rewrite Hcol in Hget. exists kc. split; [exact Hget | ].
      destruct p as [i | ].
      * rewrite (merged_key_left lkey rkey pairs kc r i (Some j) Ek Hr). exact Hm.
      * rewrite (merged_key_right lkey rkey pairs kc r j Ek Hr). apply key_eqb_refl.
Qed.
End MergeFacts.

Module HeuristicFacts.
Import Pandas Join JoinFacts MergeFacts.

Lemma get_col_app_miss (cols : list (str * column)) (name : str) (c : column) :
  get_col cols name = None -> get_col (cols ++ [(name, c)]) name = Some c.
Proof.
  induction cols as [ | [n c0] cols IH]; simpl.
  - intros _. rewrite str_eqb_refl. reflexivity.
  - destruct (str_eqb n name); [discriminate | exact IH].
Qed.

Lemma renamed_is_not_company (prefix col : str) :
  str_eqb (prefix ++ [95%N] ++ col) COMPANY = false.
Proof.
  destruct (str_eqb (prefix ++ [95%N] ++ col) COMPANY) eqn:E; [ | reflexivity].
  apply str_eqb_eq in E.
  assert (95%N ∈ COMPANY) as H.
  { rewrite <- E. apply elem_of_app. right. apply elem_of_app. left.
    apply list_elem_of_singleton. reflexivity. }
  vm_compute in H. repeat (apply elem_of_cons in H as [H | H]; [discriminate | ]).
  inversion H.
Qed.

Lemma get_col_rename (filename : str) (df : DataFrame) :
  get_col (columns (rename_columns filename df)) COMPANY
  = get_col (columns df) COMPANY.
Proof.
  unfold rename_columns. cbn [columns].
  induction (columns df) as [ | [col c] cols IH]; [reflexivity | ].
  cbn [map get_col]. rewrite IH.
  destruct (str_eqb col COMPANY) eqn:E.
  - apply str_eqb_eq in E as ->. reflexivity.
  - destruct (is_important col); [rewrite E; reflexivity | ].
    rewrite renamed_is_not_company. reflexivity.
Qed.

Lemma rename_columns_cells (filename : str) (df : DataFrame) :
  nrows (rename_columns filename df) = nrows df /\
  map snd (columns (rename_columns filename df)) = map snd (columns df).
Proof.
  split; [reflexivity | ].
  unfold rename_columns. cbn [columns].
  induction (columns df) as [ | [col c] cols IH]; [reflexivity | ].
  cbn [map snd]. rewrite IH. reflexivity.
Qed.

Section Heuristic.
Variable U : Unicode.
Variable num_repr : Q -> str.
Variable merge_refuses : DataFrame -> DataFrame -> bool.

Lemma with_company_has_key (m : gmap str str) (df : DataFrame) :
  joinable df = true ->
  is_Some (get_col (columns (with_company U num_repr m df)) COMPANY).
Proof.
  unfold joinable, has_col, with_company. intros H.
  destruct (get_col (columns df) COMPANY) as [c | ] eqn:E1; [rewrite E1; eauto | ].
  destruct (get_col (columns df) COMPANY_NAME) as [c | ] eqn:E2.
  - cbn [columns]. rewrite (get_col_app_miss _ _ _ E1). eauto.
  - destruct (get_col (columns df) COMPANY_CODE) as [c | ] eqn:E3; [ | discriminate].
    cbn [columns]. rewrite (get_col_app_miss _ _ _ E1). eauto.
Qed.

Lemma prepare_has_key (m : gmap str str) (filename : str) (df : DataFrame) :
  joinable df = true ->
  is_Some (get_col (columns (prepare U num_repr m filename df)) COMPANY).
Proof.
  intros H. unfold prepare. rewrite get_col_rename.
  apply with_company_has_key. exact H.
Qed.

(** Preparing a frame keeps its rows and its columns, cell for cell, and
    at most adds the company column at the end. *)
Lemma prepare_cells (m : gmap str str) (filename : str) (df : DataFrame) :
  nrows (prepare U num_repr m filename df) = nrows df /\
  map snd (columns df)
    `prefix_of` map snd (columns (prepare U num_repr m filename df)).
Proof.
  unfold prepare.
  destruct (rename_columns_cells filename (with_company U num_repr m df)) as [Hn Hc].
  rewrite Hn, Hc. unfold with_company.
  destruct (get_col (columns df) COMPANY);
    [split; reflexivity | ].
  destruct (get_col (columns df) COMPANY_NAME);
    [cbn [nrows columns]; split; [reflexivity | ];
     rewrite map_app; apply prefix_app_r; reflexivity | ].
  destruct (get_col (columns df) COMPANY_CODE);
    [cbn [nrows columns]; split; [reflexivity | ];
     rewrite map_app; apply prefix_app_r; reflexivity | ].
  split; reflexivity.
Qed.

Lemma joinable_dfs_length (dataframes : list (str * DataFrame)) :
  length (joinable_dfs U num_repr dataframes)
  = length (List.filter (fun '(_, df) => joinable df) dataframes).
Proof.
  unfold joinable_dfs.
  generalize (code_to_name_map U num_repr dataframes). intros m.
  induction dataframes as [ | [f df] rest IH]; [reflexivity | ].
  cbn. fold (omap (fun '(filename, df0) =>
                     if joinable df0
                     then Some (filename, prepare U num_repr m filename df0)
                     else None) rest).
  destruct (joinable df); cbn; rewrite IH; reflexivity.
Qed.

Lemma join_none (dataframes : list (str * DataFrame)) :
  (length (List.filter (fun '(_, df) => joinable df) dataframes) < 2)%nat \/
  join_body U num_repr merge_refuses dataframes = Raise ->
  _join_dataframes U num_repr merge_refuses dataframes = None.
Proof.
  unfold _join_dataframes. intros [H | H].
  - rewrite <- joinable_dfs_length in H. unfold join_body.
    destruct (joinable_dfs U num_repr dataframes) as [ | [fa a] [ | [fb b] l]];
      [reflexivity | reflexivity | simpl in H; lia].
  - rewrite H. reflexivity.
Qed.
End Heuristic.
End HeuristicFacts.

(** C6. [_join_dataframes] returns [None] when fewer than two of the
    tables have a company column, and an exception raised inside the
    [try] block is turned into the same [None]. *)
Theorem join_unavailable (U : Unicode) (num_repr : Q -> str)
    (merge_refuses : Pandas.DataFrame -> Pandas.DataFrame -> bool)
    (dataframes : list (str * Pandas.DataFrame)) :
  (length (List.filter (fun '(_, df) => Join.joinable df) dataframes) < 2)%nat \/
  Join.join_body U num_repr merge_refuses dataframes = Raise ->
  Join._join_dataframes U num_repr merge_refuses dataframes = None.
Proof. apply HeuristicFacts.join_none. Qed.

Module JoinTwo.
Import Pandas Join JoinFacts MergeFacts HeuristicFacts.

Definition key_kinds_agree (left right : DataFrame) : bool :=
  match get_col (columns left) COMPANY, get_col (columns right) COMPANY with
  | Some (ObjCol _), Some (ObjCol _) | Some (NumCol _), Some (NumCol _) => true
  | _, _ => false
  end.

Section Heuristic.
Variable U : Unicode.
Variable num_repr : Q -> str.
Variable merge_refuses : DataFrame -> DataFrame -> bool.
Variable f1 f2 : str.
Variable t1 t2 : DataFrame.

Definition codes : gmap str str := code_to_name_map U num_repr [(f1, t1); (f2, t2)].
Definition p1 : DataFrame := prepare U num_repr codes f1 t1.
Definition p2 : DataFrame := prepare U num_repr codes f2 t2.

Lemma join_two :
  joinable t1 = true -> joinable t2 = true ->
  _join_dataframes U num_repr merge_refuses [(f1, t1); (f2, t2)]
  = if merge_refuses p1 p2 then None
    else outer_merge COMPANY (95%N :: nat_repr 1) p1 p2.
Proof.
  intros H1 H2. unfold _join_dataframes, join_body, joinable_dfs.
  cbn [omap list_omap]. rewrite H1, H2. cbn [merge_all].
  unfold pd_merge. fold codes. fold p1. fold p2.
  destruct (merge_refuses p1 p2); [reflexivity | ].
  destruct (outer_merge COMPANY (95%N :: nat_repr 1) p1 p2); reflexivity.
Qed.

Lemma outer_merge_accepts (suffix : str) :
  joinable t1 = true -> joinable t2 = true ->
  key_kinds_agree p1 p2 = true ->
  is_Some (outer_merge COMPANY suffix p1 p2).
Proof.
  intros H1 H2. unfold key_kinds_agree, outer_merge.
  destruct (prepare_has_key U num_repr codes f1 t1 H1) as [k1 E1].
  destruct (prepare_has_key U num_repr codes f2 t2 H2) as [k2 E2].
  fold p1 in E1. fold p2 in E2. rewrite E1, E2.
  destruct k1, k2; simpl; intros H; try discriminate; eauto.
Qed.
End Heuristic.
End JoinTwo.

(** C5. For two tables that both have a company column: the renaming
    pass keeps the rows and every cell of a frame; the prepared frames
    hold the columns of the inputs cell for cell; when pandas accepts
    the merge a joined table is returned; and every joined table that is
    returned has at least as many rows as the longer input, with every
    row of either input standing in it. *)
Theorem join_preserves_rows (U : Unicode) (num_repr : Q -> str)
    (merge_refuses : Pandas.DataFrame -> Pandas.DataFrame -> bool)
    (f1 f2 : str) (t1 t2 : Pandas.DataFrame) :
  Join.joinable t1 = true ->
  Join.joinable t2 = true ->
  let p1 := JoinTwo.p1 U num_repr f1 f2 t1 t2 in
  let p2 := JoinTwo.p2 U num_repr f1 f2 t1 t2 in
  let result := Join._join_dataframes U num_repr merge_refuses [(f1, t1); (f2, t2)] in
  (forall filename df,
      Pandas.nrows (Join.rename_columns filename df) = Pandas.nrows df /\
      map snd (Pandas.columns (Join.rename_columns filename df))
      = map snd (Pandas.columns df)) /\
  (Pandas.nrows p1 = Pandas.nrows t1 /\
   map snd (Pandas.columns t1) `prefix_of` map snd (Pandas.columns p1)) /\
  (Pandas.nrows p2 = Pandas.nrows t2 /\
   map snd (Pandas.columns t2) `prefix_of` map snd (Pandas.columns p2)) /\
  (merge_refuses p1 p2 = false -> JoinTwo.key_kinds_agree p1 p2 = true ->
   is_Some result) /\
  (forall joined,
      result = Some joined ->
      (Nat.max (Pandas.nrows t1) (Pandas.nrows t2) <= Pandas.nrows joined)%nat /\
      (forall i, (i < Pandas.nrows t1)%nat ->
         exists r, (r < Pandas.nrows joined)%nat /\
                   MergeFacts.row_kept_left Join.COMPANY p1 joined i r) /\
      (forall j, (j < Pandas.nrows t2)%nat ->
         exists r, (r < Pandas.nrows joined)%nat /\
                   MergeFacts.row_kept_right Join.COMPANY p1 p2 joined j r)).
Proof.
  intros H1 H2 p1 p2 result.
  pose proof (HeuristicFacts.prepare_cells U num_repr
                (JoinTwo.codes U num_repr f1 f2 t1 t2) f1 t1) as Hp1.
  pose proof (HeuristicFacts.prepare_cells U num_repr
                (JoinTwo.codes U num_repr f1 f2 t1 t2) f2 t2) as Hp2.
  fold (JoinTwo.p1 U num_repr f1 f2 t1 t2) in Hp1.
  fold (JoinTwo.p2 U num_repr f1 f2 t1 t2) in Hp2.
  fold p1 in Hp1. fold p2 in Hp2.
  assert (result = if merge_refuses p1 p2 then None
                   else Join.outer_merge Join.COMPANY (95%N :: nat_repr 1) p1 p2)
    as Hres by (apply JoinTwo.join_two; assumption).
  split; [apply HeuristicFacts.rename_columns_cells | ].
  split; [exact Hp1 | ]. split; [exact Hp2 | ]. split.
  - intros Hacc Hkinds. rewrite Hres, Hacc.
    apply JoinTwo.outer_merge_accepts; assumption.
  - intros joined Hj. rewrite Hres in Hj.
    destruct (merge_refuses p1 p2); [discriminate | ].
    apply MergeFacts.outer_merge_rows in Hj.
    destruct Hp1 as [Hn1 _], Hp2 as [Hn2 _].
    rewrite Hn1, Hn2 in Hj. exact Hj.
Qed.

(** Sample uploads for the join. *)
Module JoinSamples.
Import Pandas Join.

Definition texts (l : list string) : column := ObjCol (map (fun s => Some (u s)) l).

Definition sales_file : str := Eval vm_compute in u "sales.csv".
Definition clients_file : str := Eval vm_compute in u "clients ver1.csv".
Definition notes_file : str := Eval vm_compute in u "notes.csv".

Definition sales : DataFrame :=
  {| nrows := 3;
     columns := [(COMPANY, texts ["가나상사"; "다라전자"; "가나상사"]%string);
                 (u "합계", NumCol [Some 100; Some 300; Some 50])] |}.

Definition clients : DataFrame :=
  {| nrows := 2;
     columns := [(COMPANY_NAME, texts ["가나상사"; "마바산업"]%string);
                 (u "지역", texts ["서울"; "부산"]%string)] |}.

(** A table without any company column. *)
Definition notes : DataFrame :=
  {| nrows := 1; columns := [(u "메모", texts ["확인"]%string)] |}.

Definition no_numbers : Q -> str := fun _ => [].
Definition accepts : DataFrame -> DataFrame -> bool := fun _ _ => false.
Definition refuses : DataFrame -> DataFrame -> bool := fun _ _ => true.
End JoinSamples.

Example join_sales_clients :
  option_map
    (fun df => (Pandas.nrows df, map fst (Pandas.columns df)))
    (Join._join_dataframes plain JoinSamples.no_numbers JoinSamples.accepts
       [(JoinSamples.sales_file, JoinSamples.sales);
        (JoinSamples.clients_file, JoinSamples.clients)])
  = Some (4%nat, [u "거래처"; u "합계"; u "거래처명"; u "clients__지역"]).
Proof. vm_compute. reflexivity. Qed.

Lemma join_preserves_rows_witness :
  Join.joinable JoinSamples.sales = true /\
  Join.joinable JoinSamples.clients = true /\
  exists joined,
    Join._join_dataframes plain JoinSamples.no_numbers JoinSamples.accepts
      [(JoinSamples.sales_file, JoinSamples.sales);
       (JoinSamples.clients_file, JoinSamples.clients)] = Some joined /\
    (Nat.max 3 2 <= Pandas.nrows joined)%nat.
Proof.
  split; [reflexivity | ]. split; [reflexivity | ].
  destruct (join_preserves_rows plain JoinSamples.no_numbers JoinSamples.accepts
              JoinSamples.sales_file JoinSamples.clients_file
              JoinSamples.sales JoinSamples.clients eq_refl eq_refl)
    as (_ & _ & _ & Hsome & Hrows).
  destruct (Hsome eq_refl eq_refl) as [joined Hjoined].
  exists joined. split; [exact Hjoined | ].
  destruct (Hrows joined Hjoined) as [Hmax _]. exact Hmax.
Defined.

Example join_refused :
  Join.join_body plain JoinSamples.no_numbers JoinSamples.refuses
    [(JoinSamples.sales_file, JoinSamples.sales);
     (JoinSamples.clients_file, JoinSamples.clients)] = Raise.
Proof. vm_compute. reflexivity. Qed.

Lemma join_unavailable_witness :
  (length (List.filter (fun '(_, df) => Join.joinable df)
             [(JoinSamples.sales_file, JoinSamples.sales);
              (JoinSamples.notes_file, JoinSamples.notes)]) < 2)%nat /\
  Join._join_dataframes plain JoinSamples.no_numbers JoinSamples.accepts
    [(JoinSamples.sales_file, JoinSamples.sales);
     (JoinSamples.notes_file, JoinSamples.notes)] = None.
Proof.
  assert (length (List.filter (fun '(_, df) => Join.joinable df)
             [(JoinSamples.sales_file, JoinSamples.sales);
              (JoinSamples.notes_file, JoinSamples.notes)]) < 2)%nat as H
    by (vm_compute; lia).
  split; [exact H | ].
  apply (join_unavailable plain JoinSamples.no_numbers JoinSamples.accepts).
  left. exact H.
Defined.

(* ================================================================= *)
(** ** old_files/calc_engine.py: aggregation *)

Module Calc.
Import Pandas.

Inductive agg_fn : Type := Sum | Mean | Count | Max | Min.
Inductive group_key : Type := ByCompany | ByProduct | ByMonth | ByQuarter.
Inductive direction : Type := Desc | Asc.

(** The dict [analysis] of [_analyze_query]; [time_range] holds the year
    and, when there is one, the month. *)
Record analysis : Type := {
  aggregation : option agg_fn;
  groupby : option group_key;
  sort : option direction;
  limit : option N;
  time_range : option (str * option str)
}.

Definition SUM_WORDS : list str := Eval vm_compute in map u ["합계"; "총"; "전체"]%string.
Definition MEAN_WORDS : list str := Eval vm_compute in map u ["평균"]%string.
Definition COUNT_WORDS : list str :=
  Eval vm_compute in map u ["개수"; "건수"; "몇"; "카운트"]%string.
Definition MAX_WORDS : list str := Eval vm_compute in map u ["최대"; "최댓값"; "최고"]%string.
Definition MIN_WORDS : list str := Eval vm_compute in map u ["최소"; "최솟값"; "최저"]%string.

Definition BY_COMPANY : str := Eval vm_compute in u "거래처별".
Definition BY_PRODUCT : str := Eval vm_compute in u "제품별".
Definition BY_ITEM : str := Eval vm_compute in u "품목별".
Definition BY_MONTH : str := Eval vm_compute in u "월별".
Definition BY_QUARTER : str := Eval vm_compute in u "분기별".

Definition TOP_KO : str := Eval vm_compute in u "상위".
Definition BOTTOM_KO : str := Eval vm_compute in u "하위".
Definition TOP_EN : str := Eval vm_compute in u "top".

Definition CLIENT_WORDS : list str :=
  Eval vm_compute in map u ["거래처"; "고객"; "업체"; "상호"]%string.
Definition SALES_WORDS : list str :=
  Eval vm_compute in map u ["매출"; "판매"; "주문"; "제품"; "단가"; "금액"]%string.
Definition JOURNAL_WORDS : list str :=
  Eval vm_compute in map u ["영업일지"; "일지"; "방문"; "메모"; "활동"]%string.

Definition MONTH_COL : str := Eval vm_compute in u "월".
Definition COUNT_COL : str := Eval vm_compute in u "건수".

(** [_select_datasets] *)
Definition _select_datasets (query dataset_filter : str) : list str :=
  if negb (str_eqb dataset_filter Lookup.ALL) then [dataset_filter]
  else
    let datasets :=
      (if any_in CLIENT_WORDS query then [Lookup.CLIENTS] else []) ++
      (if any_in SALES_WORDS query then [Lookup.SALES] else []) ++
      (if any_in JOURNAL_WORDS query then [Lookup.JOURNAL] else []) in
    match datasets with
    | [] => [Lookup.SALES]
    | _ => datasets
    end.

Section Engine.
Variable U : Unicode.
Variable num_repr : Q -> str.
(** [str(pd.to_datetime(x, errors='coerce').to_period('M'))] *)
Variable period_text : cell -> str.
Variable raw_dataframes : gmap str DataFrame.
Variable get_column_mapping : str -> gmap str str.
(** The results for which [_generate_calc_answer] or
    [_extract_sample_rows] raises (formatting a value, or [to_markdown]
    without the package it needs). *)
Variable answer_raises : DataFrame -> rows_of -> bool.

Definition digit : regex := Cls (is_digit U).

(** [r'(top|상위|하위)\s*(\d+)'] *)
Definition top_n_re : regex :=
  Seq (Grp 1 (alts (map lit Router.TOP_WORDS)))
      (Seq (Star (Cls (is_space U))) (Grp 2 (plus digit))).

(** [r'하위\s*(\d+)'] *)
Definition bottom_n_re : regex :=
  Seq (lit BOTTOM_KO) (Seq (Star (Cls (is_space U))) (Grp 1 (plus digit))).

(** [int(match.group(i))]: [IndexError] for a group the pattern does
    not have, [ValueError] for a text that is no number or has more
    than 4300 digits. *)
Definition int_group (i : nat) (m : rmatch) : result N :=
  match group i (m_groups m) with
  | Some text =>
    match int U text with
    | Some n => Ok n
    | None => Raise
    end
  | None => Raise
  end.

(** The sort direction and the limit read from the query. *)
Definition sort_and_limit (query : str) : result (option direction * option N) :=
  if contains TOP_KO query || contains TOP_EN (lower U query) then
    match re_search top_n_re (lower U query) with
    | Some m =>
      match int_group 2 m with
      | Ok n => Ok (Some Desc, Some n)
      | Raise => Raise
      end
    | None => Ok (Some Desc, Some 5%N)
    end
  else if contains BOTTOM_KO query then
    match re_search bottom_n_re query with
    | Some m =>
      match int_group 2 m with
      | Ok n => Ok (Some Asc, Some n)
      | Raise => Raise
      end
    | None => Ok (Some Asc, Some 5%N)
    end
  else Ok (None, None).

(** [_analyze_query] *)
Definition _analyze_query (query : str) : result analysis :=
  let aggregation :=
    if any_in SUM_WORDS query then Some Sum
    else if any_in MEAN_WORDS query then Some Mean
    else if any_in COUNT_WORDS query then Some Count
    else if any_in MAX_WORDS query then Some Max
    else if any_in MIN_WORDS query then Some Min
    else None in
  let groupby :=
    if contains BY_COMPANY query then Some ByCompany
    else if contains BY_PRODUCT query || contains BY_ITEM query then Some ByProduct
    else if contains BY_MONTH query then Some ByMonth
    else if contains BY_QUARTER query then Some ByQuarter
    else None in
  match sort_and_limit query with
  | Raise => Raise
  | Ok (sort, limit) =>
    Ok {| aggregation := aggregation;
          groupby := groupby;
          sort := sort;
          limit := limit;
          time_range :=
            match Lookup.group1 (re_search (Lookup.year_re U) query) with
            | Some year =>
              Some (year, Lookup.group1 (re_search (Lookup.month_re U) query))
            | None => None
            end |}
  end.

(** The date filter of [_calculate_single_dataset]. *)
Definition date_filter (df : DataFrame) (a : analysis) : rows_of :=
  match time_range a, get_col (columns df) Lookup.A_2 with
  | Some (year, month), Some dates =>
    let rows := select (col_contains num_repr dates year) (all_rows df) in
    match month with
    | Some m => select (col_contains num_repr dates (hyphen :: zfill2 m)) rows
    | None => rows
    end
  | _, _ => all_rows df
  end.

(** The values of a numeric column on the given rows, NaN left out. *)
Definition values (c : column) (rows : rows_of) : list Q :=
  match c with
  | NumCol cells => omap (fun i => mjoin (cells !! i)) rows
  | ObjCol _ => []
  end.

Definition total (l : list Q) : Q := fold_left Qplus l 0.

Definition extreme (pick : Q -> Q -> Q) (l : list Q) : option Q :=
  match l with
  | [] => None
  | x :: t => Some (fold_left pick t x)
  end.

(** One aggregate of one column over one group: [sum] of nothing is 0,
    [mean], [max] and [min] of nothing are NaN. *)
Definition aggregate (f : agg_fn) (c : column) (rows : rows_of) : option Q :=
  let l := values c rows in
  match f with
  | Sum => Some (total l)
  | Mean => match l with [] => None | _ => Some (total l / inject_Z (Z.of_nat (length l))) end
  | Count => Some (inject_Z (Z.of_nat (length l)))
  | Max => extreme pymax l
  | Min => extreme pymin l
  end.

Definition numeric_columns (cols : list (str * column)) : list (str * column) :=
  List.filter (fun '(_, c) => is_numeric c) cols.

(** The keys of the groups: the values of the key column on the rows,
    NaN dropped, each once, in ascending order. *)
Fixpoint distinct (l : list cell) : list cell :=
  match l with
  | [] => []
  | x :: t => x :: List.filter (fun y => negb (Join.key_eqb x y)) (distinct t)
  end.

Definition cell_before (x y : cell) : Prop := before true x y = true.

#[export] Instance cell_before_dec x y : Decision (cell_before x y).
Proof. unfold cell_before. apply _. Defined.

Definition group_keys (key : column) (rows : rows_of) : list cell :=
  merge_sort cell_before
    (distinct (List.filter (fun v => match v with NaN => false | _ => true end)
                           (map (cell_at key) rows))).

Definition group_rows (key : column) (rows : rows_of) (k : cell) : rows_of :=
  List.filter (fun i => Join.key_eqb k (cell_at key i)) rows.

Definition key_column (key : column) (keys : list cell) : column :=
  match key with
  | ObjCol _ => ObjCol (map (fun v => match v with Text s => Some s | _ => None end) keys)
  | NumCol _ => NumCol (map (fun v => match v with Number q => Some q | _ => None end) keys)
  end.

Definition size_column (key : column) (rows : rows_of) (keys : list cell) : column :=
  NumCol (map (fun k => Some (inject_Z (Z.of_nat (length (group_rows key rows k))))) keys).

(** [_translate_columns] *)
Definition _translate_columns (dataset_name : str) (df : DataFrame) : DataFrame :=
  {| nrows := nrows df;
     columns :=
       map (fun '(col, c) =>
              (Lookup.translate get_column_mapping dataset_name col, c))
           (columns df) |}.

(** [df[name] = c]: the column is replaced where it stands, or added
    at the end. *)
Fixpoint set_col (cols : list (str * column)) (name : str) (c : column)
  : list (str * column) :=
  match cols with
  | [] => [(name, c)]
  | (n, c0) :: rest =>
    if str_eqb n name then (n, c) :: rest else (n, c0) :: set_col rest name c
  end.

(** The name of the column to group by, the column, and the columns of
    the frame after the month column was added. *)
Definition groupby_col (df : DataFrame) (g : group_key)
  : option (str * column * list (str * column)) :=
  match g with
  | ByCompany =>
    option_map (fun key => (Lookup.B_1, key, columns df))
               (get_col (columns df) Lookup.B_1)
  | ByProduct =>
    option_map (fun key => (Lookup.C_2, key, columns df))
               (get_col (columns df) Lookup.C_2)
  | ByMonth =>
    option_map
      (fun dates =>
         let key :=
           ObjCol (map (fun i => Some (period_text (cell_at dates i))) (all_rows df)) in
         (MONTH_COL, key, set_col (columns df) MONTH_COL key))
      (get_col (columns df) Lookup.A_2)
  | ByQuarter => None
  end.

(** The aggregation a grouped query asks for, and whether it only
    counts the rows of each group ([size()]). *)
Definition counts_only (numeric_cols : list (str * column)) (a : analysis) : bool :=
  match numeric_cols, default Sum (aggregation a) with
  | [], _ => true
  | _, Count => true
  | _, _ => false
  end.

(** [_perform_groupby] on the rows left by the date filter.
    [groupby(col)[numeric_cols].sum().reset_index()] raises a
    ValueError when the column grouped by is itself numeric: it is then
    both the index and a column of the aggregate. *)
Definition _perform_groupby (df : DataFrame) (rows : rows_of) (a : analysis)
    (dataset_name : str) : result (option DataFrame) :=
  match groupby a ≫= groupby_col df with
  | None => Ok None
  | Some (name, key, cols) =>
    let keys := group_keys key rows in
    let numeric_cols := numeric_columns cols in
    let frame aggregates :=
      Ok (Some (_translate_columns dataset_name
                  {| nrows := length keys;
                     columns := (name, key_column key keys) :: aggregates |})) in
    if counts_only numeric_cols a
    then frame [(COUNT_COL, size_column key rows keys)]
    else if is_numeric key then Raise
    else
      frame
        (map (fun '(col, c) =>
                (col, NumCol (map (fun k => aggregate (default Sum (aggregation a)) c
                                                     (group_rows key rows k)) keys)))
             numeric_cols)
  end.

(** [_perform_simple_aggregation] *)
Definition _perform_simple_aggregation (df : DataFrame) (rows : rows_of) (a : analysis)
    (dataset_name : str) : option DataFrame :=
  match numeric_columns (columns df) with
  | [] =>
    Some {| nrows := 1;
            columns := [(COUNT_COL, NumCol [Some (inject_Z (Z.of_nat (length rows)))])] |}
  | numeric_cols =>
    Some (_translate_columns dataset_name
      {| nrows := 1;
         columns :=
           map (fun '(col, c) =>
                  (col, NumCol [aggregate (default Sum (aggregation a)) c rows]))
               (take 5 numeric_cols) |})
  end.

(** The block "그룹화 및 집계" of [_calculate_single_dataset]. *)
Definition aggregated (df : DataFrame) (rows : rows_of) (a : analysis)
    (dataset_name : str) : result (option DataFrame) :=
  match groupby a with
  | Some _ => _perform_groupby df rows a dataset_name
  | None => Ok (_perform_simple_aggregation df rows a dataset_name)
  end.

(** The first numeric column of a frame and its label. *)
Definition first_numeric (df : DataFrame) : option (str * column) :=
  List.head (numeric_columns (columns df)).

(** The label names one column of the frame. *)
Definition label_unique (label : str) (df : DataFrame) : bool :=
  (length (List.filter (str_eqb label) (map fst (columns df))) =? 1)%nat.

(** Sorting is asked for and [sort_values(by=sort_col)] raises its
    ValueError: the label of the first numeric column is the label of
    another column too, as happens when the codebook gives two columns
    one name. *)
Definition sort_raises (a : analysis) (result_df : DataFrame) : bool :=
  match sort a, first_numeric result_df with
  | Some _, Some (sort_col, _) => negb (label_unique sort_col result_df)
  | _, _ => false
  end.

(** The rows after the block "정렬 및 제한", when sorting does not
    raise. *)
Definition sorted_and_cut (a : analysis) (result_df : DataFrame) : rows_of :=
  match sort a, first_numeric result_df with
  | Some dir, Some (_, c) =>
    let sorted :=
      sort_values c (match dir with Asc => true | Desc => false end)
                  (all_rows result_df) in
    match limit a with
    | Some n => if (n =? 0)%N then sorted else head (N.to_nat n) sorted
    | None => sorted
    end
  | _, _ => all_rows result_df
  end.

(** Sorting and cutting: [result_df] after the block "정렬 및 제한". *)
Definition sort_and_cut (a : analysis) (result_df : DataFrame) : result rows_of :=
  if sort_raises a result_df then Raise else Ok (sorted_and_cut a result_df).

(** [_calculate_single_dataset], its [result_df]: the aggregated frame
    and its rows in their final order, or [None]. *)
Definition _calculate_single_dataset (dataset_name : str) (a : analysis)
  : result (option (DataFrame * rows_of)) :=
  match raw_dataframes !! dataset_name with
  | None => Ok None
  | Some df =>
    match aggregated df (date_filter df a) a dataset_name with
    | Raise => Raise
    | Ok None => Ok None
    | Ok (Some result_df) =>
      match sort_and_cut a result_df with
      | Raise => Raise
      | Ok rows =>
        if answer_raises result_df rows then Raise else Ok (Some (result_df, rows))
      end
    end
  end.

(** [calculate]: with several target tables only the first is used. *)
Definition calculate (query dataset_filter : str) : result (option (DataFrame * rows_of)) :=
  match _select_datasets query dataset_filter with
  | [] => Raise
  | dataset_name :: _ =>
    match _analyze_query query with
    | Ok a => _calculate_single_dataset dataset_name a
    | Raise => Raise
    end
  end.
End Engine.
End Calc.

Module CalcFacts.
Import Pandas PandasFacts Calc.

Lemma search_from_match (r : regex) :
  forall s pre m,
    search_from r pre s = Some m ->
    exists s', match_at r s' = Some (m_text m, m_post m, m_groups m).
Proof.
  induction s as [ | c t IH]; intros pre m H; simpl in H.
  - destruct (match_at r []) as [[[mt rest] g] | ] eqn:E; [ | discriminate].
    inversion H; subst. exists []. exact E.
  - destruct (match_at r (c :: t)) as [[[mt rest] g] | ] eqn:E.
    + inversion H; subst. exists (c :: t). exact E.
    + eapply IH. exact H.
Qed.

(** The last group of a pattern [r1 r2 (r3)] holds a word of [r3]. *)
Lemma last_group (r1 r2 r3 : regex) (i : nat) (s mt rest : str) (g : caps) :
  match_at (Seq r1 (Seq r2 (Grp i r3))) s = Some (mt, rest, g) ->
  exists d, group i g = Some d /\ derives r3 d.
Proof.
  unfold match_at. cbn [re_m]. intros H.
  apply re_m_sound in H as (s1 & s2 & g1 & -> & _ & H).
  apply re_m_sound in H as (s3 & s4 & g2 & -> & _ & H).
  apply re_m_sound in H as (d & s5 & g3 & -> & D & H).
  inversion H; subst. exists d. split; [ | exact D].
  cbn [group]. rewrite Nat.eqb_refl, consumed_app. reflexivity.
Qed.

Lemma derives_star_cls (p : N -> bool) (s : str) :
  derives (Star (Cls p)) s -> Forall (fun c => p c = true) s.
Proof.
  intros H. remember (Star (Cls p)) as r eqn:Er.
  induction H as [ | | | | | | r' | r' s1 s2 H1 _ H2 IH2 | | ];
    try discriminate; [constructor | ].
  inversion Er; subst r'. inversion H1; subst.
  constructor; [assumption | ]. apply IH2. reflexivity.
Qed.

Lemma derives_plus_cls (p : N -> bool) (s : str) :
  derives (plus (Cls p)) s -> s <> [] /\ Forall (fun c => p c = true) s.
Proof.
  unfold plus. intros H.
  inversion H as [ | | | r1 r2 s1 s2 D1 D2 | | | | | | ]; subst.
  inversion D1; subst. apply derives_star_cls in D2.
  split; [discriminate | constructor; assumption].
Qed.

Section Engine.
Variable U : Unicode.

Lemma digit_value_Some (c : N) : is_digit U c = true -> is_Some (digit_value U c).
Proof.
  unfold is_digit, digit_value. destruct (is_fixed c).
  - intros ->. eauto.
  - intros H. apply bool_decide_eq_true in H. exact H.
Qed.

Lemma int_acc_Some (s : str) :
  Forall (fun c => is_digit U c = true) s ->
  forall acc, is_Some (int_acc U acc s).
Proof.
  induction 1 as [ | c s Hc _ IH]; intros acc; simpl; [eauto | ].
  destruct (digit_value_Some c Hc) as [v ->]. apply IH.
Qed.

(** [int] reads every run of at most 4300 digits and refuses a longer
    one. *)
Lemma int_Some (s : str) :
  s <> [] -> Forall (fun c => is_digit U c = true) s ->
  (N.of_nat (length s) <= MAX_STR_DIGITS)%N ->
  is_Some (int U s).
Proof.
  intros Hne H Hlen. destruct s as [ | c t]; [contradiction | ].
  unfold int. apply N.ltb_ge in Hlen. rewrite Hlen. apply int_acc_Some. exact H.
Qed.

Lemma int_long (s : str) :
  (MAX_STR_DIGITS < N.of_nat (length s))%N -> int U s = None.
Proof.
  intros Hlen. destruct s as [ | c t]; [reflexivity | ].
  unfold int. apply N.ltb_lt in Hlen. rewrite Hlen. reflexivity.
Qed.

(** The number after top, 상위 or 하위 is a run of digits in group 2. *)
Lemma top_n_digits (s : str) (m : rmatch) :
  re_search (top_n_re U) s = Some m ->
  exists d, group 2 (m_groups m) = Some d /\ d <> [] /\
            Forall (fun c => is_digit U c = true) d.
Proof.
  intros H. apply search_from_match in H as [s' H].
  apply last_group in H as (d & Hg & D).
  apply derives_plus_cls in D as [Hne Hd]. exists d. auto.
Qed.

Lemma sort_and_limit_top (query : str) :
  contains TOP_KO query || contains TOP_EN (lower U query) = true ->
  match re_search (top_n_re U) (lower U query) with
  | None => sort_and_limit U query = Ok (Some Desc, Some 5%N)
  | Some m =>
    exists d,
      group 2 (m_groups m) = Some d /\ d <> [] /\
      Forall (fun c => is_digit U c = true) d /\
      sort_and_limit U query
      = match int U d with
        | Some n => Ok (Some Desc, Some n)
        | None => Raise
        end
  end.
Proof.
  intros H. unfold sort_and_limit. rewrite H.
  destruct (re_search (top_n_re U) (lower U query)) as [m | ] eqn:E; [ | reflexivity].
  destruct (top_n_digits _ m E) as (d & Hg & Hne & Hd).
  exists d. split; [exact Hg | ]. split; [exact Hne | ]. split; [exact Hd | ].
  unfold int_group. rewrite Hg. destruct (int U d); reflexivity.
Qed.

Lemma sort_and_limit_bottom (query : str) :
  contains TOP_KO query || contains TOP_EN (lower U query) = false ->
  contains BOTTOM_KO query = true ->
  re_found (bottom_n_re U) query = false ->
  sort_and_limit U query = Ok (Some Asc, Some 5%N).
Proof.
  intros Ht Hb Hf. unfold sort_and_limit. rewrite Ht, Hb.
  unfold re_found in Hf.
  destruct (re_search (bottom_n_re U) query); [discriminate | reflexivity].
Qed.

Lemma _analyze_query_of (query : str) (s : option direction) (l : option N) :
  sort_and_limit U query = Ok (s, l) ->
  exists a, _analyze_query U query = Ok a /\ sort a = s /\ limit a = l.
Proof.
  intros H. unfold _analyze_query. rewrite H.
  eexists. split; [reflexivity | ]. split; reflexivity.
Qed.
End Engine.

Lemma length_head (n : nat) (rows : rows_of) :
  length (head n rows) = Nat.min n (length rows).
Proof. unfold head. apply length_take. Qed.

(** The rows after sorting and cutting. *)
Lemma sorted_and_cut_spec (a : analysis) (result_df : DataFrame) (label : str)
    (c : column) (dir : direction) (n : N) :
  sort a = Some dir -> limit a = Some n ->
  first_numeric result_df = Some (label, c) ->
  let asc := match dir with Asc => true | Desc => false end in
  let sorted := sort_values c asc (all_rows result_df) in
  sorted_and_cut a result_df
  = (if (n =? 0)%N then sorted else head (N.to_nat n) sorted) /\
  length (sorted_and_cut a result_df)
  = (if (n =? 0)%N then nrows result_df
     else Nat.min (N.to_nat n) (nrows result_df)) /\
  StronglySorted (row_before c asc) (sorted_and_cut a result_df).
Proof.
  intros Hs Hl Hc asc sorted. unfold sorted_and_cut. rewrite Hs, Hl, Hc.
  fold asc. fold sorted.
  assert (length sorted = nrows result_df) as Hlen.
  { unfold sorted. rewrite (Permutation_length (sort_values_perm c asc _)).
    apply JoinFacts.all_rows_length. }
  split; [reflexivity | ].
  destruct (n =? 0)%N.
  - split; [exact Hlen | apply sort_values_sorted].
  - split; [rewrite length_head, Hlen; reflexivity | ].
    apply head_sorted. apply sort_values_sorted.
Qed.
End CalcFacts.

Module SingleFacts.
Import Pandas PandasFacts Calc CalcFacts.

(** What the calculation [calc] gives for the frame [r] of the
    aggregation: [r] with its rows sorted on its first numeric column,
    equal values side by side and NaN last, and cut to the limit; a
    limit of 0 cuts nothing.  Sorting raises when the label of that
    column is not unique. *)
Definition ranked (calc : result (option (DataFrame * rows_of)))
    (answer_raises : DataFrame -> rows_of -> bool)
    (r : DataFrame) (dir : direction) (n : N) : Prop :=
  exists label c,
    first_numeric r = Some (label, c) /\
    let asc := match dir with Asc => true | Desc => false end in
    let sorted := sort_values c asc (all_rows r) in
    let rows := if (n =? 0)%N then sorted else head (N.to_nat n) sorted in
    length rows
    = (if (n =? 0)%N then nrows r else Nat.min (N.to_nat n) (nrows r)) /\
    StronglySorted (row_before c asc) rows /\
    calc = if label_unique label r
           then if answer_raises r rows then Raise else Ok (Some (r, rows))
           else Raise.

Section Engine.
Variable U : Unicode.
Variable num_repr : Q -> str.
Variable period_text : cell -> str.
Variable raw_dataframes : gmap str DataFrame.
Variable get_column_mapping : str -> gmap str str.
Variable answer_raises : DataFrame -> rows_of -> bool.

Lemma numeric_columns_translate (dataset_name : str) (df : DataFrame) :
  numeric_columns (columns (_translate_columns get_column_mapping dataset_name df))
  = map (fun '(col, c) =>
           (Lookup.translate get_column_mapping dataset_name col, c))
        (numeric_columns (columns df)).
Proof.
  unfold _translate_columns, numeric_columns. cbn [columns].
  induction (columns df) as [ | [n c] l IH]; [reflexivity | ].
  simpl. destruct (is_numeric c); simpl; rewrite IH; reflexivity.
Qed.

(** The frame of a grouped aggregation has a numeric column. *)
Lemma grouped_numeric (df : DataFrame) (rows : rows_of) (a : analysis)
    (dataset_name : str) (r : DataFrame) :
  _perform_groupby period_text get_column_mapping df rows a dataset_name
  = Ok (Some r) ->
  is_Some (first_numeric r).
Proof.
  unfold _perform_groupby.
  destruct (groupby a ≫= groupby_col period_text df) as [[[name key] cols] | ];
    [ | discriminate].
  unfold first_numeric.
  destruct (counts_only (numeric_columns cols) a) eqn:Ec.
  - intros H. inversion H; subst r. rewrite numeric_columns_translate.
    cbn [columns numeric_columns List.filter].
    destruct (is_numeric (key_column key _)); cbn; eauto.
  - destruct (is_numeric key) eqn:Ek; [discriminate | ].
    intros H. inversion H; subst r. rewrite numeric_columns_translate.
    cbn [columns numeric_columns List.filter].
    assert (is_numeric (key_column key (group_keys key rows)) = false) as ->
      by (destruct key; [reflexivity | discriminate]).
    destruct (numeric_columns cols) as [ | [col c] l] eqn:En; [discriminate | ].
    cbn. eauto.
Qed.

(** The frame of an aggregation without groups: one row, between one
    and five columns, all numeric. *)
Lemma simple_one_row (df : DataFrame) (rows : rows_of) (a : analysis)
    (dataset_name : str) :
  exists r,
    _perform_simple_aggregation get_column_mapping df rows a dataset_name = Some r /\
    nrows r = 1%nat /\
    (1 <= length (columns r) <= 5)%nat /\
    Forall (fun '(_, c) => is_numeric c = true) (columns r).
Proof.
  unfold _perform_simple_aggregation.
  destruct (numeric_columns (columns df)) as [ | p l] eqn:E.
  - eexists. split; [reflexivity | ]. cbn. split; [reflexivity | ].
    split; [lia | ]. repeat constructor.
  - eexists. split; [reflexivity | ]. cbn [nrows _translate_columns columns].
    split; [reflexivity | ]. rewrite !length_map, length_take. split.
    + cbn [length]. lia.
    + rewrite !Forall_map. apply Forall_forall. intros [n c] _. reflexivity.
Qed.

Lemma simple_numeric (df : DataFrame) (rows : rows_of) (a : analysis)
    (dataset_name : str) (r : DataFrame) :
  _perform_simple_aggregation get_column_mapping df rows a dataset_name = Some r ->
  is_Some (first_numeric r).
Proof.
  intros H.
  destruct (simple_one_row df rows a dataset_name) as (r' & H' & _ & [Hc _] & Hn).
  rewrite H in H'. inversion H'; subst r'. unfold first_numeric, numeric_columns.
  destruct (columns r) as [ | [col c] l]; [simpl in Hc; lia | ].
  apply Forall_inv in Hn. cbn. rewrite Hn. cbn. eauto.
Qed.

(** The result of one table, once the aggregation gave a frame. *)
Lemma single_of_frame (a : analysis) (dataset_name : str) (df r : DataFrame) :
  raw_dataframes !! dataset_name = Some df ->
  aggregated period_text get_column_mapping df (date_filter num_repr df a)
             a dataset_name = Ok (Some r) ->
  _calculate_single_dataset num_repr period_text raw_dataframes get_column_mapping
    answer_raises dataset_name a
  = if sort_raises a r then Raise
    else if answer_raises r (sorted_and_cut a r) then Raise
         else Ok (Some (r, sorted_and_cut a r)).
Proof.
  intros Hdf Hagg. unfold _calculate_single_dataset, sort_and_cut.
  rewrite Hdf, Hagg. destruct (sort_raises a r); reflexivity.
Qed.

Lemma single_ranked (a : analysis) (dataset_name : str) (df r : DataFrame)
    (dir : direction) (n : N) :
  raw_dataframes !! dataset_name = Some df ->
  aggregated period_text get_column_mapping df (date_filter num_repr df a)
             a dataset_name = Ok (Some r) ->
  is_Some (first_numeric r) ->
  sort a = Some dir -> limit a = Some n ->
  ranked (_calculate_single_dataset num_repr period_text raw_dataframes
            get_column_mapping answer_raises dataset_name a)
         answer_raises r dir n.
Proof.
  intros Hdf Hagg [[label c] Hc] Hs Hl.
  exists label, c. split; [exact Hc | ].
  destruct (sorted_and_cut_spec a r label c dir n Hs Hl Hc) as (Hrows & Hlen & Hsorted).
  cbv zeta. rewrite <- Hrows. split; [exact Hlen | ]. split; [exact Hsorted | ].
  rewrite (single_of_frame a dataset_name df r Hdf Hagg).
  unfold sort_raises. rewrite Hs, Hc.
  destruct (label_unique label r); reflexivity.
Qed.

Lemma calculate_single (query dataset_filter dataset_name : str) (others : list str)
    (a : analysis) :
  _select_datasets query dataset_filter = dataset_name :: others ->
  _analyze_query U query = Ok a ->
  calculate U num_repr period_text raw_dataframes get_column_mapping answer_raises
    query dataset_filter
  = _calculate_single_dataset num_repr period_text raw_dataframes get_column_mapping
      answer_raises dataset_name a.
Proof. intros Hsel Ha. unfold calculate. rewrite Hsel, Ha. reflexivity. Qed.
End Engine.
End SingleFacts.

(** Sample tables and queries for the aggregation engine. *)
Module CalcSamples.
Import Pandas Calc.

Definition no_numbers : Q -> str := fun _ => [].
Definition no_period : cell -> str := fun _ => [].
Definition no_mapping : str -> gmap str str := fun _ => ∅.
Definition answers : DataFrame -> rows_of -> bool := fun _ _ => false.

(** The table of the example scenario: company (B-1) and amount. *)
Definition amounts : DataFrame :=
  {| nrows := 3;
     columns :=
       [(Lookup.B_1, JoinSamples.texts ["A"; "B"; "A"]%string);
        (u "amount", NumCol [Some 100; Some 300; Some 50])] |}.

(** Two companies with the same total. *)
Definition ties : DataFrame :=
  {| nrows := 3;
     columns :=
       [(Lookup.B_1, JoinSamples.texts ["A"; "B"; "A"]%string);
        (u "amount", NumCol [Some 100; Some 150; Some 50])] |}.

Definition top_1 : str := Eval vm_compute in u "거래처별 매출 top 1".
Definition top_2 : str := Eval vm_compute in u "거래처별 매출 상위 2".
Definition top_0 : str := Eval vm_compute in u "거래처별 매출 top 0".
Definition bottom_1 : str := Eval vm_compute in u "거래처별 매출 하위 1".
Definition bottom : str := Eval vm_compute in u "거래처별 매출 하위".

(** The analysis of [top_1]. *)
Definition top_1_analysis : analysis :=
  {| aggregation := None; groupby := Some ByCompany; sort := Some Desc;
     limit := Some 1%N; time_range := None |}.

(** The analysis of [bottom]. *)
Definition bottom_analysis : analysis :=
  {| aggregation := None; groupby := Some ByCompany; sort := Some Asc;
     limit := Some 5%N; time_range := None |}.

(** The values of the first numeric column of a result, row by row. *)
Definition sorted_values (r : result (option (DataFrame * rows_of))) : list cell :=
  match r with
  | Ok (Some (df, rows)) =>
    match first_numeric df with
    | Some (_, c) => map (cell_at c) rows
    | None => []
    end
  | _ => []
  end.

Definition run (table : DataFrame) (query : str) : result (option (DataFrame * rows_of)) :=
  calculate plain no_numbers no_period {[ Lookup.SALES := table ]} no_mapping answers
            query Lookup.SALES.
End CalcSamples.

Example calc_top_1 :
  CalcSamples.sorted_values (CalcSamples.run CalcSamples.amounts CalcSamples.top_1)
  = [Pandas.Number 300].
Proof. vm_compute. reflexivity. Qed.

(** A bottom-N query without a number gives the five smallest. *)
Example calc_bottom :
  CalcSamples.sorted_values (CalcSamples.run CalcSamples.amounts CalcSamples.bottom)
  = [Pandas.Number 150; Pandas.Number 300].
Proof. vm_compute. reflexivity. Qed.

(** A bottom-N query with its number raises instead of answering:
    [match.group(2)] on a pattern with one group. *)
Example calc_bottom_n_raises :
  CalcSamples.run CalcSamples.ties CalcSamples.bottom_1 = Raise.
Proof. vm_compute. reflexivity. Qed.

(** A limit of 0 is not applied: [if analysis["limit"]] is false for 0. *)
Example calc_top_0_keeps_all :
  CalcSamples.sorted_values (CalcSamples.run CalcSamples.ties CalcSamples.top_0)
  = [Pandas.Number 150; Pandas.Number 150].
Proof. vm_compute. reflexivity. Qed.

(** C2, amended. The analysis: a query that contains 상위 or top asks
    for descending order and the limit N, the number written after the
    first top, 상위 or 하위, which [int] reads when it has at most 4300
    digits, or 5 when no number follows; with a longer number [int], and
    with it the calculation, raises; a query that contains 하위,
    neither 상위 nor top, and no number after 하위 asks for ascending
    order and the limit 5.  The calculation, for such an analysis and
    the first target table, loaded and with distinct column names:
    without grouping the aggregation gives a frame of one row; with a
    grouping whose column the table has it gives a frame with one row
    for each group, unless the column grouped by is numeric and the
    aggregation is not a count, which raises; without the column there
    is no result.  For the frame [r] of the aggregation the result is
    [r] with its rows sorted on its first numeric column in the order
    asked for, equal values side by side and NaN last, and cut to
    min(N, rows of [r]) rows for N of at least 1, to all rows for N = 0;
    when the label of that column is the label of another column too,
    sorting raises. *)
Theorem calculate_ranked (U : Unicode) (num_repr : Q -> str)
    (period_text : Pandas.cell -> str)
    (raw_dataframes : gmap str Pandas.DataFrame)
    (get_column_mapping : str -> gmap str str)
    (answer_raises : Pandas.DataFrame -> Pandas.rows_of -> bool)
    (query dataset_filter : str) :
  let top := contains Calc.TOP_KO query || contains Calc.TOP_EN (lower U query) in
  let calc :=
    Calc.calculate U num_repr period_text raw_dataframes get_column_mapping
      answer_raises query dataset_filter in
  (top = true ->
   match re_search (Calc.top_n_re U) (lower U query) with
   | None =>
     exists a,
       Calc._analyze_query U query = Ok a /\
       Calc.sort a = Some Calc.Desc /\ Calc.limit a = Some 5%N
   | Some m =>
     exists d,
       group 2 (m_groups m) = Some d /\ d <> [] /\
       Forall (fun c => is_digit U c = true) d /\
       ((N.of_nat (length d) <= MAX_STR_DIGITS)%N ->
        exists a n,
          int U d = Some n /\
          Calc._analyze_query U query = Ok a /\
          Calc.sort a = Some Calc.Desc /\ Calc.limit a = Some n) /\
       ((MAX_STR_DIGITS < N.of_nat (length d))%N -> calc = Raise)
   end) /\
  (top = false ->
   contains Calc.BOTTOM_KO query = true ->
   re_found (Calc.bottom_n_re U) query = false ->
   exists a,
     Calc._analyze_query U query = Ok a /\
     Calc.sort a = Some Calc.Asc /\ Calc.limit a = Some 5%N) /\
  forall a dir n dataset_name others df,
    Calc._analyze_query U query = Ok a ->
    Calc.sort a = Some dir ->
    Calc.limit a = Some n ->
    Calc._select_datasets query dataset_filter = dataset_name :: others ->
    raw_dataframes !! dataset_name = Some df ->
    NoDup (map fst (Pandas.columns df)) ->
    let rows := Calc.date_filter num_repr df a in
    (Calc.groupby a = None ->
     exists r,
       Calc._perform_simple_aggregation get_column_mapping df rows a dataset_name
       = Some r /\
       Pandas.nrows r = 1%nat /\
       SingleFacts.ranked calc answer_raises r dir n) /\
    (forall g,
        Calc.groupby a = Some g ->
        match Calc.groupby_col period_text df g with
        | None => calc = Ok None
        | Some (name, key, cols) =>
          if negb (Calc.counts_only (Calc.numeric_columns cols) a)
             && Pandas.is_numeric key
          then calc = Raise
          else
            exists r,
              Calc._perform_groupby period_text get_column_mapping df rows a
                dataset_name = Ok (Some r) /\
              Pandas.nrows r = length (Calc.group_keys key rows) /\
              SingleFacts.ranked calc answer_raises r dir n
        end).
Proof.
  intros top calc. split; [ | split].
  - intros Htop. pose proof (CalcFacts.sort_and_limit_top U query Htop) as H.
    destruct (re_search (Calc.top_n_re U) (lower U query)) as [m | ].
    + destruct H as (d & Hg & Hne & Hd & H).
      exists d. split; [exact Hg | ]. split; [exact Hne | ]. split; [exact Hd | ].
      split.
      * intros Hlen. destruct (CalcFacts.int_Some U d Hne Hd Hlen) as [n Hn].
        rewrite Hn in H.
        destruct (CalcFacts._analyze_query_of U query _ _ H) as (a & Ha & Hs & Hl).
        exists a, n. auto.
      * intros Hlen. rewrite (CalcFacts.int_long U d Hlen) in H.
        unfold calc, Calc.calculate, Calc._analyze_query. rewrite H.
        destruct (Calc._select_datasets query dataset_filter); reflexivity.
    + apply (CalcFacts._analyze_query_of U query _ _ H).
  - intros Htop Hb Hf.
    apply (CalcFacts._analyze_query_of U query).
    apply CalcFacts.sort_and_limit_bottom; assumption.
  - intros a dir n dataset_name others df Ha Hs Hl Hsel Hdf _ rows.
    assert (calc = Calc._calculate_single_dataset num_repr period_text raw_dataframes
                     get_column_mapping answer_raises dataset_name a) as Hcalc
      by (apply (SingleFacts.calculate_single U num_repr period_text raw_dataframes
                   get_column_mapping answer_raises query dataset_filter
                   dataset_name others a Hsel Ha)).
    split.
    + intros Hg.
      destruct (SingleFacts.simple_one_row get_column_mapping df rows a dataset_name)
        as (r & Hr & Hn & _).
      exists r. split; [exact Hr | ]. split; [exact Hn | ]. rewrite Hcalc.
      apply (SingleFacts.single_ranked num_repr period_text raw_dataframes
               get_column_mapping answer_raises a dataset_name df r dir n Hdf);
        [ | apply (SingleFacts.simple_numeric get_column_mapping df rows a
                     dataset_name r Hr) | exact Hs | exact Hl].
      unfold Calc.aggregated. rewrite Hg. fold rows. rewrite Hr. reflexivity.
    + intros g Hg.
      assert (Calc.aggregated period_text get_column_mapping df rows a
                dataset_name
              = Calc._perform_groupby period_text get_column_mapping df rows a
                  dataset_name) as Hagg
        by (unfold Calc.aggregated; rewrite Hg; reflexivity).
      destruct (Calc.groupby_col period_text df g) as [[[name key] cols] | ] eqn:Ecol.
      * destruct (negb (Calc.counts_only (Calc.numeric_columns cols) a)
                  && Pandas.is_numeric key) eqn:Eraise.
        -- rewrite Hcalc. unfold Calc._calculate_single_dataset. rewrite Hdf.
           fold rows. rewrite Hagg. unfold Calc._perform_groupby.
           rewrite Hg. cbn [mbind option_bind]. rewrite Ecol.
           apply andb_prop in Eraise as [E1 E2]. apply negb_true_iff in E1.
           rewrite E1, E2. reflexivity.
        -- assert (exists r,
                     Calc._perform_groupby period_text get_column_mapping df rows a
                       dataset_name = Ok (Some r) /\
                     Pandas.nrows r = length (Calc.group_keys key rows))
             as (r & Hr & Hn).
           { unfold Calc._perform_groupby. rewrite Hg. cbn [mbind option_bind].
             rewrite Ecol.
             destruct (Calc.counts_only (Calc.numeric_columns cols) a);
               [eexists; split; reflexivity | ].
             cbn [negb andb] in Eraise. rewrite Eraise.
             eexists; split; reflexivity. }
           exists r. split; [exact Hr | ]. split; [exact Hn | ]. rewrite Hcalc.
           apply (SingleFacts.single_ranked num_repr period_text raw_dataframes
                    get_column_mapping answer_raises a dataset_name df r dir n Hdf);
             [ | apply (SingleFacts.grouped_numeric period_text get_column_mapping
                          df rows a dataset_name r Hr) | exact Hs | exact Hl].
           fold rows. rewrite Hagg. exact Hr.
      * rewrite Hcalc. unfold Calc._calculate_single_dataset. rewrite Hdf.
        fold rows. rewrite Hagg. unfold Calc._perform_groupby.
        rewrite Hg. cbn [mbind option_bind]. rewrite Ecol. reflexivity.
Qed.

Lemma calculate_ranked_witness :
  Calc._analyze_query plain CalcSamples.top_1 = Ok CalcSamples.top_1_analysis /\
  Calc._analyze_query plain CalcSamples.bottom = Ok CalcSamples.bottom_analysis /\
  (exists r,
      CalcSamples.run CalcSamples.amounts CalcSamples.top_1 = Ok (Some (r, [1%nat])) /\
      Pandas.nrows r = 2%nat) /\
  (exists r,
      CalcSamples.run CalcSamples.amounts CalcSamples.bottom
      = Ok (Some (r, [0%nat; 1%nat])) /\
      Pandas.nrows r = 2%nat).
Proof.
  assert (({[ Lookup.SALES := CalcSamples.amounts ]} : gmap str Pandas.DataFrame)
            !! Lookup.SALES = Some CalcSamples.amounts) as Hdf
    by (vm_compute; reflexivity).
  assert (NoDup (map fst (Pandas.columns CalcSamples.amounts))) as Hnames.
  { vm_compute. repeat constructor; intros H;
      repeat (apply elem_of_cons in H as [H | H]; [discriminate | ]); inversion H. }
  split; [vm_compute; reflexivity | ]. split; [vm_compute; reflexivity | ]. split.
  - destruct (calculate_ranked plain CalcSamples.no_numbers CalcSamples.no_period
                {[ Lookup.SALES := CalcSamples.amounts ]} CalcSamples.no_mapping
                CalcSamples.answers CalcSamples.top_1 Lookup.SALES) as (_ & _ & H).
    destruct (H CalcSamples.top_1_analysis Calc.Desc 1%N Lookup.SALES []
                CalcSamples.amounts eq_refl eq_refl eq_refl eq_refl Hdf Hnames)
      as [_ Hg].
    specialize (Hg Calc.ByCompany eq_refl).
    vm_compute in Hg. destruct Hg as (r & Hr & Hn & label & c & Hc & _ & _ & Hcalc).
    exists r. inversion Hr; subst r. inversion Hc; subst label c.
    split; [ | reflexivity]. vm_compute in Hcalc. vm_compute. exact Hcalc.
  - destruct (calculate_ranked plain CalcSamples.no_numbers CalcSamples.no_period
                {[ Lookup.SALES := CalcSamples.amounts ]} CalcSamples.no_mapping
                CalcSamples.answers CalcSamples.bottom Lookup.SALES) as (_ & _ & H).
    destruct (H CalcSamples.bottom_analysis Calc.Asc 5%N Lookup.SALES []
                CalcSamples.amounts eq_refl eq_refl eq_refl eq_refl Hdf Hnames)
      as [_ Hg].
    specialize (Hg Calc.ByCompany eq_refl).
    vm_compute in Hg. destruct Hg as (r & Hr & Hn & label & c & Hc & _ & _ & Hcalc).
    exists r. inversion Hr; subst r. inversion Hc; subst label c.
    split; [ | reflexivity]. vm_compute in Hcalc. vm_compute. exact Hcalc.
Defined.

(** C2 as stated fails: two groups with equal totals stand side by side,
    so the order is not strict. *)
Lemma calculate_ties_not_strict :
  contains Calc.TOP_KO CalcSamples.top_2 = true /\
  CalcSamples.sorted_values (CalcSamples.run CalcSamples.ties CalcSamples.top_2)
  = [Pandas.Number 150; Pandas.Number 150] /\
  ~ StronglySorted
      (fun x y => Pandas.before false x y = true /\ Pandas.before false y x = false)
      (CalcSamples.sorted_values (CalcSamples.run CalcSamples.ties CalcSamples.top_2)).
Proof.
  split; [reflexivity | ]. split; [vm_compute; reflexivity | ].
  intros H. vm_compute in H.
  apply StronglySorted_inv in H as [_ H].
  apply Forall_inv in H as [_ H]. vm_compute in H. discriminate.
Qed.

(* ================================================================= *)
(** ** More of utils.py *)

Module MoreUtils.

Definition ELLIPSIS : str := Eval vm_compute in u "...".

(** [truncate_text(text, max_length)] for a length that is not
    negative. *)
Definition truncate_text (text : str) (max_length : nat) : str :=
  if (length text <=? max_length)%nat then text
  else take max_length text ++ ELLIPSIS.

(** [clean_column_name] for a name that is not NaN. *)
Definition clean_column_name (U : Unicode) (col_name : str) : str := strip U col_name.

(** What masking may do to one character: keep it, or put an asterisk
    in the place of a digit. *)
Definition masked_char (U : Unicode) (o c : N) : Prop :=
  o = c \/ (o = 42%N /\ is_digit U c = true).
End MoreUtils.

Module MoreMaskFacts.
Import Utils MaskFacts ValueFacts MoreUtils.

(** Substitution acts character by character when every replacement
    does. *)
Lemma sub_from_pointwise (R : N -> N -> Prop) (r : regex) (repl : str -> str) :
  (forall c, R c c) ->
  (forall mt, derives r mt -> Forall2 R (repl mt) mt) ->
  forall (s : str) (skip : nat),
    (skip <= length s)%nat ->
    Forall2 R (sub_from r repl skip s) (drop skip s).
Proof.
  intros Hrefl Hrepl. induction s as [ | c t IH]; intros skip Hskip.
  - simpl in Hskip. assert (skip = O) as -> by lia. simpl.
    destruct (match_at r []) as [[[mt rest] g] | ] eqn:E; [ | constructor].
    apply match_at_sound in E as [E D].
    symmetry in E. apply app_eq_nil in E as [-> ->].
    exact (Hrepl [] D).
  - destruct skip as [ | n]; [ | simpl; apply IH; simpl in Hskip; lia].
    cbn [sub_from drop].
    destruct (match_at r (c :: t)) as [[[mt rest] g] | ] eqn:E.
    + apply match_at_sound in E as [E D].
      destruct mt as [ | x mt'].
      * pose proof (Hrepl [] D) as H0. inversion H0; subst. simpl.
        constructor; [apply Hrefl | ]. apply (IH O). lia.
      * simpl in E. inversion E; subst c t.
        replace (length (x :: mt') - 1)%nat with (length mt') by (simpl; lia).
        change (x :: mt' ++ rest) with ((x :: mt') ++ rest).
        apply Forall2_app; [apply Hrepl; exact D | ].
        specialize (IH (length mt')).
        rewrite drop_app_length in IH. apply IH. rewrite length_app. lia.
    + constructor; [apply Hrefl | ]. apply (IH O). lia.
Qed.

Lemma re_sub_pointwise (R : N -> N -> Prop) (r : regex) (repl : str -> str) (s : str) :
  (forall c, R c c) ->
  (forall mt, derives r mt -> Forall2 R (repl mt) mt) ->
  Forall2 R (re_sub r repl s) s.
Proof.
  intros Hrefl Hrepl.
  apply (sub_from_pointwise R r repl Hrefl Hrepl s O). lia.
Qed.

Section WithUnicode.
Variable U : Unicode.

Lemma masked_char_refl (c : N) : masked_char U c c.
Proof. left. reflexivity. Qed.

Lemma masked_char_trans (a b c : N) :
  masked_char U a b -> masked_char U b c -> masked_char U a c.
Proof.
  intros [-> | [-> Hb]] H; [exact H | ].
  destruct H as [-> | [-> Hc]]; [right; auto | ].
  rewrite is_digit_star in Hb. discriminate.
Qed.

Lemma masked_chars_trans (a b c : str) :
  Forall2 (masked_char U) a b -> Forall2 (masked_char U) b c ->
  Forall2 (masked_char U) a c.
Proof.
  intros H. revert c. induction H as [ | x y a b Hxy _ IH]; intros c Hc;
    inversion Hc; subst; constructor.
  - eapply masked_char_trans; eassumption.
  - apply IH. assumption.
Qed.

Ltac pointwise :=
  repeat (constructor;
          [ first [ left; reflexivity
                  | right; split; [reflexivity | assumption] ] | ]);
  constructor.

Lemma mask_match_pointwise (entry : str * regex) (mt : str) :
  In entry (SENSITIVE_PATTERNS U) ->
  derives (snd entry) mt ->
  Forall2 (masked_char U) (mask_match (fst entry) mt) mt.
Proof.
  intros Hin D. simpl in Hin.
  destruct Hin as [<- | [<- | [<- | []]]]; cbn [fst snd] in *.
  - apply mask_match_business in D as (p0 & p1 & p2 & -> & H0 & H1 & H2 & ->).
    explode_digits. unfold last2, BUSINESS_MASK. cbn [app drop length Nat.sub].
    pointwise.
  - apply mask_match_resident in D as (p0 & p1 & -> & H0 & H1 & ->).
    explode_digits. unfold RESIDENT_MASK. cbn [app]. pointwise.
  - apply mask_match_phone in D as (p0 & p1 & p2 & -> & H0 & H1 & H2 & ->).
    explode_digits; unfold stars; cbn [app length replicate]; pointwise.
Qed.

Lemma mask_pointwise (text : str) :
  Forall2 (masked_char U) (mask_sensitive_info U text) text.
Proof.
  unfold mask_sensitive_info.
  assert (forall l s, (forall e, In e l -> In e (SENSITIVE_PATTERNS U)) ->
            Forall2 (masked_char U) (fold_left mask_with l s) s) as H.
  { induction l as [ | e l IH]; intros s Hl.
    - simpl. apply Forall2_same_length_lookup_2; [reflexivity | ].
      intros i x y Hx Hy. rewrite Hx in Hy. inversion Hy. left. reflexivity.
    - simpl. eapply masked_chars_trans.
      + apply IH. intros e' He'. apply Hl. right. exact He'.
      + unfold mask_with. apply re_sub_pointwise; [apply masked_char_refl | ].
        intros mt D. apply mask_match_pointwise; [ | exact D].
        apply Hl. left. reflexivity. }
  apply H. auto.
Qed.

(** Every recognised pattern needs a hyphen. *)
Lemma pattern_has_hyphen (entry : str * regex) (mt : str) :
  In entry (SENSITIVE_PATTERNS U) -> derives (snd entry) mt -> hyphen ∈ mt.
Proof.
  intros Hin D. simpl in Hin.
  destruct Hin as [<- | [<- | [<- | []]]]; cbn [snd] in D.
  - apply business_shape in D as (p0 & p1 & p2 & -> & _).
    apply elem_of_app. right. left.
  - apply resident_shape in D as (p0 & p1 & -> & _).
    apply elem_of_app. right. left.
  - apply phone_shape in D as (p0 & p1 & p2 & -> & _).
    apply elem_of_app. right. left.
Qed.

Lemma search_without_hyphen (entry : str * regex) :
  In entry (SENSITIVE_PATTERNS U) ->
  forall s pre, hyphen ∉ s -> search_from (snd entry) pre s = None.
Proof.
  intros Hin. induction s as [ | c t IH]; intros pre Hs; simpl.
  - destruct (match_at (snd entry) []) as [[[mt rest] g] | ] eqn:E; [ | reflexivity].
    apply match_at_sound in E as [E D].
    apply (pattern_has_hyphen entry mt Hin) in D.
    exfalso. apply Hs. rewrite E. apply elem_of_app. left. exact D.
  - destruct (match_at (snd entry) (c :: t)) as [[[mt rest] g] | ] eqn:E.
    + apply match_at_sound in E as [E D].
      apply (pattern_has_hyphen entry mt Hin) in D.
      exfalso. apply Hs. rewrite E. apply elem_of_app. left. exact D.
    + apply IH. intros H. apply Hs. right. exact H.
Qed.

Lemma mask_without_hyphen (text : str) :
  hyphen ∉ text -> mask_sensitive_info U text = text.
Proof.
  intros Hs. unfold mask_sensitive_info.
  assert (forall l, (forall e, In e l -> In e (SENSITIVE_PATTERNS U)) ->
            fold_left mask_with l text = text) as H.
  { induction l as [ | e l IH]; intros Hl; [reflexivity | ].
    simpl. unfold mask_with at 2.
    rewrite re_sub_none; [apply IH; intros e' He'; apply Hl; right; exact He' | ].
    apply search_without_hyphen; [apply Hl; left; reflexivity | exact Hs]. }
  apply H. auto.
Qed.
End WithUnicode.
End MoreMaskFacts.

(** X1. Masking only ever puts an asterisk in the place of a digit:
    character by character, the masked text is the text itself or has
    ['*'] where the text has a digit.  Letters, hyphens and spaces stay
    where they are. *)
Theorem mask_only_hides_digits (U : Unicode) (text : str) :
  Forall2 (MoreUtils.masked_char U) (Utils.mask_sensitive_info U text) text.
Proof. apply MoreMaskFacts.mask_pointwise. Qed.

(** X2. A text without a hyphen is never masked, whatever digits it
    holds: all three patterns need their hyphens. *)
Theorem mask_needs_hyphen (U : Unicode) (text : str) :
  hyphen ∉ text -> Utils.mask_sensitive_info U text = text.
Proof. apply MoreMaskFacts.mask_without_hyphen. Qed.

Lemma mask_needs_hyphen_witness :
  (hyphen ∉ u "tel 01012345678") /\
  Utils.mask_sensitive_info plain (u "tel 01012345678") = u "tel 01012345678".
Proof.
  assert (hyphen ∉ u "tel 01012345678") as H.
  { intros H. vm_compute in H.
    repeat (apply elem_of_cons in H as [H | H]; [discriminate | ]).
    inversion H. }
  split; [exact H | ].
  apply (mask_needs_hyphen plain (u "tel 01012345678") H).
Defined.

(** X11. [truncate_text] keeps a text of at most [max_length]
    characters as it is; a longer text is cut to its first [max_length]
    characters followed by three dots, so the result is [max_length + 3]
    characters long, longer than the limit and possibly longer than the
    text itself. *)
Theorem truncate_text_bounds (text : str) (max_length : nat) :
  take max_length (MoreUtils.truncate_text text max_length) = take max_length text /\
  ((length text <= max_length)%nat -> MoreUtils.truncate_text text max_length = text) /\
  ((max_length < length text)%nat ->
   length (MoreUtils.truncate_text text max_length) = (max_length + 3)%nat).
Proof.
  unfold MoreUtils.truncate_text.
  destruct (Nat.leb_spec (length text) max_length) as [H | H].
  - split; [reflexivity | ]. split; [reflexivity | lia].
  - split; [ | split; [lia | ]].
    + rewrite take_app_le by (rewrite length_take; lia).
      rewrite take_take. f_equal. lia.
    + intros _. rewrite length_app, length_take. simpl. lia.
Qed.

(* ================================================================= *)
(** ** More about the matcher *)

(** The numbers of the groups of a pattern. *)
Fixpoint group_ids (r : regex) : list nat :=
  match r with
  | Seq r1 r2 | Alt r1 r2 => group_ids r1 ++ group_ids r2
  | Star r' => group_ids r'
  | Grp i r' => i :: group_ids r'
  | _ => []
  end.

Module RegexFacts.

Lemma contains_unfold (needle hay : str) :
  contains needle hay
  = starts_with needle hay
    || match hay with [] => false | _ :: t => contains needle t end.
Proof. destruct hay; reflexivity. Qed.

Lemma starts_with_app (w post : str) : starts_with w (w ++ post) = true.
Proof.
  induction w as [ | c w IH]; [reflexivity | ].
  simpl. rewrite N.eqb_refl. exact IH.
Qed.

Lemma contains_app (w pre post : str) : contains w (pre ++ w ++ post) = true.
Proof.
  induction pre as [ | c pre IH].
  - simpl. rewrite contains_unfold, starts_with_app. reflexivity.
  - simpl. rewrite IH. apply orb_true_r.
Qed.

(** [re.search] returns a word of the pattern together with the text
    around it. *)
Lemma search_from_sound (r : regex) :
  forall s pre m,
    search_from r pre s = Some m ->
    pre ++ s = m_pre m ++ m_text m ++ m_post m /\ derives r (m_text m).
Proof.
  induction s as [ | c t IH]; intros pre m H; simpl in H.
  - destruct (match_at r []) as [[[mt rest] g] | ] eqn:E; [ | discriminate].
    apply match_at_sound in E as [E D]. inversion H; subst m. simpl.
    rewrite <- E. auto.
  - destruct (match_at r (c :: t)) as [[[mt rest] g] | ] eqn:E.
    + apply match_at_sound in E as [E D]. inversion H; subst m. simpl.
      rewrite <- E. auto.
    + apply IH in H as [H D]. rewrite <- app_assoc in H. auto.
Qed.

Lemma re_search_sound (r : regex) (s : str) (m : rmatch) :
  re_search r s = Some m ->
  s = m_pre m ++ m_text m ++ m_post m /\ derives r (m_text m).
Proof. intros H. apply (search_from_sound r s [] m H). Qed.

Lemma derives_lit (w s : str) : derives (lit w) s -> s = w.
Proof.
  revert s. induction w as [ | c w IH]; intros s H.
  - inversion H. reflexivity.
  - destruct w as [ | c' w'].
    + inversion H. reflexivity.
    + change (lit (c :: c' :: w')) with (Seq (Chr c) (lit (c' :: w'))) in H.
      inversion H as [ | | | r1 r2 s1 s2 D1 D2 | | | | | | ]; subst.
      inversion D1; subst. apply IH in D2. subst. reflexivity.
Qed.

Lemma derives_alts_lit (ws : list str) (s : str) :
  derives (alts (map lit ws)) s -> In s ws.
Proof.
  induction ws as [ | w ws IH]; intros H.
  - inversion H; discriminate.
  - destruct ws as [ | w' ws'].
    + apply derives_lit in H. left. auto.
    + change (alts (map lit (w :: w' :: ws')))
        with (Alt (lit w) (alts (map lit (w' :: ws')))) in H.
      inversion H as [ | | | | r1 r2 s' D | r1 r2 s' D | | | | ]; subst.
      * apply derives_lit in D. left. auto.
      * right. apply IH. exact D.
Qed.

(** A text found by a pattern that starts with one of several words
    contains that word. *)
Lemma search_word (ws : list str) (i : nat) (r : regex) (s : str) :
  re_found (Seq (Grp i (alts (map lit ws))) r) s = true ->
  exists w, In w ws /\ contains w s = true.
Proof.
  unfold re_found. destruct (re_search _ s) as [m | ] eqn:E; [intros _ | discriminate].
  apply re_search_sound in E as [E D].
  destruct m as [pre mt post g]. cbn [m_pre m_text m_post] in *. subst s.
  inversion D as [ | | | r1 r2 s1 s2 D1 D2 | | | | | | ]; subst.
  inversion D1 as [ | | | | | | | | j r' s' Hw | ]; subst.
  apply derives_alts_lit in Hw.
  exists s1. split; [exact Hw | ].
  rewrite <- (app_assoc s1). apply contains_app.
Qed.

Lemma search_lit (w : str) (r : regex) (s : str) :
  re_found (Seq (lit w) r) s = true -> contains w s = true.
Proof.
  unfold re_found. destruct (re_search _ s) as [m | ] eqn:E; [intros _ | discriminate].
  apply re_search_sound in E as [E D].
  destruct m as [pre mt post g]. cbn [m_pre m_text m_post] in *. subst s.
  inversion D as [ | | | r1 r2 s1 s2 D1 D2 | | | | | | ]; subst.
  apply derives_lit in D1. subst s1.
  rewrite <- (app_assoc w). apply contains_app.
Qed.

(** The matcher records groups of the pattern only. *)
Lemma re_m_groups {A : Type} (r : regex) :
  forall (s : str) (g : caps) (k : str -> caps -> option A) (a : A),
    re_m r s g k = Some a ->
    exists s2 g',
      k s2 g' = Some a /\
      forall i, ~ In i (group_ids r) -> group i g' = group i g.
Proof.
  induction r as [ | c | p | r1 IH1 r2 IH2 | r1 IH1 r2 IH2 | r IH | i r IH | ];
    intros s g k a H; simpl in H.
  - exists s, g. auto.
  - destruct s as [ | x t]; [discriminate | ].
    destruct (x =? c); [ | discriminate]. exists t, g. auto.
  - destruct s as [ | x t]; [discriminate | ].
    destruct (p x); [ | discriminate]. exists t, g. auto.
  - apply IH1 in H as (s1 & g1 & H & G1).
    apply IH2 in H as (s2 & g2 & H & G2).
    exists s2, g2. split; [exact H | ].
    intros i Hi. simpl in Hi. rewrite in_app_iff in Hi.
    rewrite G2, G1; tauto.
  - destruct (re_m r1 s g k) eqn:E1.
    + inversion H; subst. apply IH1 in E1 as (s1 & g1 & E1 & G1).
      exists s1, g1. split; [exact E1 | ].
      intros i Hi. simpl in Hi. rewrite in_app_iff in Hi. apply G1. tauto.
    + apply IH2 in H as (s1 & g1 & H & G1).
      exists s1, g1. split; [exact H | ].
      intros i Hi. simpl in Hi. rewrite in_app_iff in Hi. apply G1. tauto.
  - remember (length s) as n eqn:Hn. clear Hn.
    revert s g a H. induction n as [ | n IHn]; intros s g a H.
    + exists s, g. auto.
    + match type of H with
      | match ?e with _ => _ end = _ => destruct e eqn:E
      end.
      * inversion H; subst.
        apply IH in E as (s1 & g1 & E & G1).
        destruct (length s1 <? length s)%nat; [ | discriminate].
        apply IHn in E as (s2 & g2 & E & G2).
        exists s2, g2. split; [exact E | ].
        intros i Hi. rewrite G2, G1; auto.
      * exists s, g. auto.
  - apply IH in H as (s1 & g1 & H & G1).
    exists s1, ((i, consumed s s1) :: g1). split; [exact H | ].
    intros j Hj. simpl in Hj. cbn [group].
    destruct (Nat.eqb_spec j i) as [-> | Hne]; [tauto | ].
    apply G1. tauto.
  - exists s, g. split; [ | auto].
    repeat match type of H with
           | match ?x with _ => _ end = _ => destruct x
           end; try discriminate; exact H.
Qed.

Lemma re_search_groups (r : regex) (s : str) (m : rmatch) (i : nat) :
  re_search r s = Some m -> ~ In i (group_ids r) -> group i (m_groups m) = None.
Proof.
  intros H Hi. apply CalcFacts.search_from_match in H as [s' H].
  unfold match_at in H.
  apply re_m_groups in H as (s2 & g' & H & G).
  injection H as _ _ Hg. rewrite <- Hg, (G i Hi). reflexivity.
Qed.

Lemma group_ids_lit (w : str) : group_ids (lit w) = [].
Proof.
  induction w as [ | c w IH]; [reflexivity | ].
  destruct w; [reflexivity | ]. exact IH.
Qed.
End RegexFacts.

(* ================================================================= *)
(** ** Masking a text whose numbers stand apart *)

Module Apart.
Section WithUnicode.
Variable U : Unicode.

(** A character that no recognised pattern reads: neither a digit nor
    a hyphen. *)
Definition separator (c : N) : bool := negb (is_digit U c) && negb (c =? hyphen).

(** The parts of a text between its separators: its runs of digits and
    hyphens. *)
Fixpoint runs (s : str) : list str :=
  match s with
  | [] => [[]]
  | c :: t =>
    if separator c then [] :: runs t
    else match runs t with
         | [] => [[c]]
         | p :: ps => (c :: p) :: ps
         end
  end.

(** [re.search] finds none of the recognised patterns in the text. *)
Definition clean (s : str) : bool :=
  forallb (fun entry : str * regex => negb (re_found (snd entry) s))
          (Utils.SENSITIVE_PATTERNS U).

(** The text is as a whole one sensitive number. *)
Definition whole (s : str) : bool :=
  is_pii U Business s || is_pii U Resident s || is_pii U Phone s.

(** The sensitive numbers of the text stand apart: each run of digits
    and hyphens is as a whole one sensitive number, or holds none. *)
Definition apart (s : str) : bool :=
  forallb (fun p => whole p || clean p) (runs s).
End WithUnicode.
End Apart.

Module ApartFacts.
Import Utils MaskFacts ValueFacts MoreUtils Apart.

(** Patterns built from single characters of a class [P], sequence and
    choice. *)
Fixpoint simple (P : N -> bool) (r : regex) : Prop :=
  match r with
  | Eps => True
  | Chr c => P c = true
  | Cls p => forall x, p x = true -> P x = true
  | Seq r1 r2 | Alt r1 r2 => simple P r1 /\ simple P r2
  | Star _ | Grp _ _ | Eos => False
  end.

Lemma re_m_ext {A : Type} (P : N -> bool) (r : regex) :
  simple P r ->
  forall (s : str) (g : caps) (k1 k2 : str -> caps -> option A),
    (forall s' g', k1 s' g' = k2 s' g') ->
    re_m r s g k1 = re_m r s g k2.
Proof.
  induction r as [ | c | p | r1 IH1 r2 IH2 | r1 IH1 r2 IH2 | r IH | i r IH | ];
    cbn [simple]; intros Hs s g k1 k2 Hk; try contradiction; cbn [re_m].
  - apply Hk.
  - destruct s as [ | x t]; [reflexivity | ]. destruct (x =? c); [apply Hk | reflexivity].
  - destruct s as [ | x t]; [reflexivity | ]. destruct (p x); [apply Hk | reflexivity].
  - destruct Hs as [H1 H2]. apply (IH1 H1). intros s' g'. apply (IH2 H2). exact Hk.
  - destruct Hs as [H1 H2].
    rewrite (IH1 H1 s g k1 k2 Hk), (IH2 H2 s g k1 k2 Hk). reflexivity.
Qed.

Lemma re_m_map {A B : Type} (P : N -> bool) (f : A -> B) (r : regex) :
  simple P r ->
  forall (s : str) (g : caps) (k : str -> caps -> option A),
    re_m r s g (fun s' g' => option_map f (k s' g')) = option_map f (re_m r s g k).
Proof.
  induction r as [ | c | p | r1 IH1 r2 IH2 | r1 IH1 r2 IH2 | r IH | i r IH | ];
    cbn [simple]; intros Hs s g k; try contradiction; cbn [re_m].
  - reflexivity.
  - destruct s as [ | x t]; [reflexivity | ]. destruct (x =? c); reflexivity.
  - destruct s as [ | x t]; [reflexivity | ]. destruct (p x); reflexivity.
  - destruct Hs as [H1 H2]. rewrite <- (IH1 H1).
    apply (re_m_ext P r1 H1). intros s' g'. apply (IH2 H2).
  - destruct Hs as [H1 H2]. rewrite (IH1 H1), (IH2 H2).
    destruct (re_m r1 s g k); reflexivity.
Qed.

(** A simple pattern does not read past a character outside its
    class. *)
Lemma re_m_frame {A : Type} (P : N -> bool) (c : N) (T : str) (r : regex) :
  simple P r -> P c = false ->
  forall (x : str) (g : caps) (k : str -> caps -> option A),
    re_m r (x ++ c :: T) g k = re_m r x g (fun s0 g1 => k (s0 ++ c :: T) g1).
Proof.
  intros Hs Hc. revert Hs.
  induction r as [ | a | p | r1 IH1 r2 IH2 | r1 IH1 r2 IH2 | r IH | i r IH | ];
    cbn [simple]; intros Hs x g k; try contradiction; cbn [re_m].
  - reflexivity.
  - destruct x as [ | b t]; [ | reflexivity]. cbn [app].
    destruct (N.eqb_spec c a) as [-> | ]; [congruence | reflexivity].
  - destruct x as [ | b t]; [ | reflexivity]. cbn [app].
    destruct (p c) eqn:E; [ | reflexivity]. apply Hs in E. congruence.
  - destruct Hs as [H1 H2]. rewrite (IH1 H1).
    apply (re_m_ext P r1 H1). intros s' g'. apply (IH2 H2).
  - destruct Hs as [H1 H2]. rewrite (IH1 H1), (IH2 H2). reflexivity.
Qed.

Lemma consumed_frame (x s0 T : str) : consumed (x ++ T) (s0 ++ T) = consumed x s0.
Proof.
  unfold consumed. rewrite !length_app.
  replace (length x + length T - (length s0 + length T))%nat
    with (length x - length s0)%nat by lia.
  apply take_app_le. lia.
Qed.

(** A match with the text [T] put after what the match left. *)
Definition followed_by (T : str) (m : str * str * caps) : str * str * caps :=
  let '(mt, rest, g) := m in (mt, rest ++ T, g).

Lemma match_at_frame (P : N -> bool) (c : N) (T : str) (r : regex) (x : str) :
  simple P r -> P c = false ->
  match_at r (x ++ c :: T) = option_map (followed_by (c :: T)) (match_at r x).
Proof.
  intros Hs Hc. unfold match_at.
  rewrite (re_m_frame P c T r Hs Hc), <- (re_m_map P (followed_by (c :: T)) r Hs).
  apply (re_m_ext P r Hs). intros s' g'. cbn. rewrite consumed_frame. reflexivity.
Qed.

(** The words of a simple pattern are made of its class. *)
Lemma derives_simple (P : N -> bool) (r : regex) (y : str) :
  derives r y -> simple P r -> Forall (fun c => P c = true) y.
Proof.
  induction 1 as [ | c | p c Hp | r1 r2 s1 s2 _ IH1 _ IH2 | r1 r2 s _ IH
                 | r1 r2 s _ IH | r | r s1 s2 _ _ _ _ | i r s _ _ | ];
    cbn [simple]; intros Hs; try contradiction.
  - constructor.
  - repeat constructor. exact Hs.
  - repeat constructor. apply Hs. exact Hp.
  - destruct Hs as [H1 H2]. apply Forall_app. auto.
  - destruct Hs as [H1 H2]. auto.
  - destruct Hs as [H1 H2]. auto.
Qed.

(** The matcher finds every word of a simple pattern. *)
Lemma re_m_complete {A : Type} (P : N -> bool) (r : regex) :
  simple P r ->
  forall (y : str), derives r y ->
  forall (post : str) (g : caps) (k : str -> caps -> option A),
    (forall g', is_Some (k post g')) ->
    is_Some (re_m r (y ++ post) g k).
Proof.
  induction r as [ | c | p | r1 IH1 r2 IH2 | r1 IH1 r2 IH2 | r IH | i r IH | ];
    cbn [simple]; intros Hs y D post g k Hk; try contradiction.
  - inversion D; subst. apply Hk.
  - inversion D; subst. cbn. rewrite N.eqb_refl. apply Hk.
  - inversion D as [ | | p' c Hp | | | | | | | ]; subst. cbn. rewrite Hp. apply Hk.
  - destruct Hs as [H1 H2].
    inversion D as [ | | | ? ? s1 s2 D1 D2 | | | | | | ]; subst.
    rewrite <- app_assoc. cbn [re_m]. apply (IH1 H1 s1 D1).
    intros g'. apply (IH2 H2 s2 D2). exact Hk.
  - destruct Hs as [H1 H2]. cbn [re_m].
    inversion D as [ | | | | ? ? s D1 | ? ? s D2 | | | | ]; subst.
    + destruct (IH1 H1 y D1 post g k Hk) as [a ->]. eauto.
    + destruct (re_m r1 (y ++ post) g k); [eauto | ]. apply (IH2 H2 y D2). exact Hk.
Qed.

Lemma match_at_complete (P : N -> bool) (r : regex) (y post : str) :
  simple P r -> derives r y -> is_Some (match_at r (y ++ post)).
Proof.
  intros Hs D. unfold match_at. apply (re_m_complete P r Hs y D). eauto.
Qed.

Lemma fullmatch_complete (P : N -> bool) (r : regex) (y : str) :
  simple P r -> derives r y -> re_fullmatch r y = true.
Proof.
  intros Hs D. unfold re_fullmatch.
  pose proof (re_m_complete P r Hs y D [] []
                (fun s' g => match s' with [] => Some g | _ => None end)) as H.
  rewrite app_nil_r in H. destruct H as [g ->]; [eauto | reflexivity].
Qed.

Lemma starts_with_split (y h : str) :
  starts_with y h = true -> exists post, h = y ++ post.
Proof.
  revert h. induction y as [ | a y IH]; intros h H; [exists h; reflexivity | ].
  destruct h as [ | b h]; [discriminate | ]. simpl in H.
  apply andb_prop in H as [E H]. apply N.eqb_eq in E as ->.
  destruct (IH h H) as [post ->]. exists post. reflexivity.
Qed.

Lemma search_complete (P : N -> bool) (r : regex) (y : str) :
  simple P r -> derives r y ->
  forall h pre, contains y h = true -> search_from r pre h <> None.
Proof.
  intros Hs D.
  assert (forall h pre, starts_with y h = true -> search_from r pre h <> None) as Hhead.
  { intros h pre H. apply starts_with_split in H as [post ->].
    destruct (match_at_complete P r y post Hs D) as [[[mt rest] g] E].
    destruct (y ++ post); simpl; rewrite E; discriminate. }
  induction h as [ | c t IH]; intros pre H; rewrite RegexFacts.contains_unfold in H.
  - rewrite orb_false_r in H. apply Hhead. exact H.
  - apply orb_prop in H as [H | H]; [apply Hhead; exact H | ].
    simpl. destruct (match_at r (c :: t)) as [[[mt rest] g] | ]; [discriminate | ].
    apply IH. exact H.
Qed.

(** Substitution goes through a character outside the class of a
    simple pattern without empty words. *)
Section Sub.
Variable r : regex.
Variable repl : str -> str.
Variable P : N -> bool.
Hypothesis r_simple : simple P r.
Hypothesis r_nonempty : forall mt, derives r mt -> mt <> [].

Lemma match_at_nonempty (s mt rest : str) (g : caps) :
  match_at r s = Some (mt, rest, g) -> mt <> [].
Proof. intros H. apply match_at_sound in H as [_ D]. apply r_nonempty. exact D. Qed.

Lemma match_at_nil : match_at r [] = None.
Proof.
  destruct (match_at r []) as [[[mt rest] g] | ] eqn:E; [ | reflexivity].
  pose proof (match_at_nonempty _ _ _ _ E) as Hne.
  apply match_at_sound in E as [E _].
  symmetry in E. apply app_eq_nil in E as [-> _]. contradiction.
Qed.

Lemma sub_from_sep (c : N) (T : str) :
  P c = false ->
  forall (x : str) (skip : nat),
    (skip <= length x)%nat ->
    sub_from r repl skip (x ++ c :: T)
    = sub_from r repl skip x ++ c :: sub_from r repl 0 T.
Proof.
  intros Hc. induction x as [ | a t IH]; intros skip Hle.
  - simpl in Hle. assert (skip = O) as -> by lia. cbn [app sub_from].
    pose proof (match_at_frame P c T r [] r_simple Hc) as E. cbn [app] in E.
    rewrite E, match_at_nil. reflexivity.
  - destruct skip as [ | n].
    + cbn [sub_from]. change ((a :: t) ++ c :: T) with (a :: t ++ c :: T).
      cbn [sub_from].
      pose proof (match_at_frame P c T r (a :: t) r_simple Hc) as E.
      cbn [app] in E. rewrite E.
      destruct (match_at r (a :: t)) as [[[mt rest] g] | ] eqn:Em; cbn.
      * pose proof (match_at_nonempty _ _ _ _ Em) as Hne.
        apply match_at_sound in Em as [Em _].
        destruct mt as [ | m mt']; [contradiction | ].
        rewrite IH, <- app_assoc; [reflexivity | ].
        apply (f_equal length) in Em. rewrite length_app in Em. simpl in *. lia.
      * rewrite IH by lia. reflexivity.
    + cbn [app sub_from]. apply IH. simpl in Hle. lia.
Qed.

Lemma re_sub_sep (c : N) (x T : str) :
  P c = false ->
  re_sub r repl (x ++ c :: T) = re_sub r repl x ++ c :: re_sub r repl T.
Proof. intros Hc. apply (sub_from_sep c T Hc x 0). lia. Qed.

(** A text that the substitution leaves as it is holds no match, when
    every replacement differs from what it replaces. *)
Lemma sub_from_fixed :
  (forall mt, derives r mt -> length (repl mt) = length mt /\ repl mt <> mt) ->
  forall t pre, sub_from r repl 0 t = t -> search_from r pre t = None.
Proof.
  intros Hrepl. induction t as [ | c t IH]; intros pre H.
  - simpl. rewrite match_at_nil. reflexivity.
  - cbn [sub_from] in H. cbn [search_from].
    destruct (match_at r (c :: t)) as [[[mt rest] g] | ] eqn:E.
    + exfalso. pose proof (match_at_nonempty _ _ _ _ E) as Hne.
      apply match_at_sound in E as [E D].
      destruct (Hrepl mt D) as [Hlen Hneq].
      destruct mt as [ | m mt']; [contradiction | ].
      rewrite E in H. apply app_inj_1 in H as [H _]; [contradiction | exact Hlen].
    + injection H as H. apply IH. exact H.
Qed.
End Sub.

Section WithUnicode.
Variable U : Unicode.

(** The characters that the recognised patterns read. *)
Definition numeric (c : N) : bool := is_digit U c || (c =? hyphen).

Lemma separator_numeric (c : N) : separator U c = true -> numeric c = false.
Proof.
  unfold separator, numeric. intros H. apply andb_prop in H as [H1 H2].
  apply negb_true_iff in H1, H2. rewrite H1, H2. reflexivity.
Qed.

Lemma patterns_simple (entry : str * regex) :
  In entry (SENSITIVE_PATTERNS U) -> simple numeric (snd entry).
Proof.
  assert (forall x, is_digit U x = true -> numeric x = true) as Hd
    by (intros x Hx; unfold numeric; rewrite Hx; reflexivity).
  assert (numeric hyphen = true) as Hh by reflexivity.
  intros Hin. simpl in Hin.
  destruct Hin as [<- | [<- | [<- | []]]]; cbn; repeat split; auto.
Qed.

Lemma patterns_nonempty (entry : str * regex) (mt : str) :
  In entry (SENSITIVE_PATTERNS U) -> derives (snd entry) mt -> mt <> [].
Proof.
  intros Hin D ->.
  pose proof (MoreMaskFacts.pattern_has_hyphen U entry [] Hin D) as H.
  inversion H.
Qed.

Lemma pattern_entry (k : pii) :
  exists name, In (name, pii_pattern U k) (SENSITIVE_PATTERNS U).
Proof.
  destruct k; eexists; cbn; [left | right; left | right; right; left]; reflexivity.
Qed.

Lemma entry_pattern (entry : str * regex) :
  In entry (SENSITIVE_PATTERNS U) -> exists k, snd entry = pii_pattern U k.
Proof.
  intros Hin. simpl in Hin. destruct Hin as [<- | [<- | [<- | []]]];
    [exists Business | exists Resident | exists Phone]; reflexivity.
Qed.

Lemma pii_simple (k : pii) : simple numeric (pii_pattern U k).
Proof. destruct (pattern_entry k) as [name H]. apply (patterns_simple _ H). Qed.

Lemma pii_numeric (k : pii) (y : str) :
  is_pii U k y = true -> y <> [] /\ Forall (fun c => numeric c = true) y.
Proof.
  intros H. apply re_fullmatch_sound in H. split.
  - destruct (pattern_entry k) as [name Hin].
    apply (patterns_nonempty _ y Hin). exact H.
  - apply (derives_simple numeric _ y H). apply pii_simple.
Qed.

Lemma derives_pii (k : pii) (y : str) :
  derives (pii_pattern U k) y -> is_pii U k y = true.
Proof. apply (fullmatch_complete numeric). apply pii_simple. Qed.

(** Masking goes through a separator. *)
Lemma mask_with_sep (entry : str * regex) (x : str) (c : N) (T : str) :
  In entry (SENSITIVE_PATTERNS U) -> separator U c = true ->
  mask_with (x ++ c :: T) entry = mask_with x entry ++ c :: mask_with T entry.
Proof.
  intros Hin Hc. unfold mask_with.
  apply (re_sub_sep (snd entry) _ numeric (patterns_simple entry Hin)
           (fun mt => patterns_nonempty entry mt Hin)).
  apply separator_numeric. exact Hc.
Qed.

Lemma mask_sep (x : str) (c : N) (T : str) :
  separator U c = true ->
  mask_sensitive_info U (x ++ c :: T)
  = mask_sensitive_info U x ++ c :: mask_sensitive_info U T.
Proof.
  intros Hc. unfold mask_sensitive_info.
  assert (forall l, (forall e, In e l -> In e (SENSITIVE_PATTERNS U)) ->
          forall a b,
            fold_left mask_with l (a ++ c :: b)
            = fold_left mask_with l a ++ c :: fold_left mask_with l b) as H.
  { induction l as [ | e l IH]; intros Hl a b; [reflexivity | ].
    cbn [fold_left]. rewrite mask_with_sep; [ | apply Hl; left; reflexivity | exact Hc].
    apply IH. intros e' He'. apply Hl. right. exact He'. }
  apply H. auto.
Qed.

(** Clean texts. *)
Lemma clean_search (x : str) :
  clean U x = true <->
  forall entry, In entry (SENSITIVE_PATTERNS U) -> re_search (snd entry) x = None.
Proof.
  unfold clean. rewrite forallb_forall. split; intros H entry Hin.
  - specialize (H entry Hin). apply negb_true_iff in H. unfold re_found in H.
    destruct (re_search (snd entry) x); [discriminate | reflexivity].
  - apply negb_true_iff. unfold re_found. rewrite (H entry Hin). reflexivity.
Qed.

Lemma mask_clean (x : str) : clean U x = true -> mask_sensitive_info U x = x.
Proof.
  intros H. unfold mask_sensitive_info.
  assert (forall l, (forall e, In e l -> In e (SENSITIVE_PATTERNS U)) ->
            fold_left mask_with l x = x) as Hl.
  { induction l as [ | e l IH]; intros Hl; [reflexivity | ].
    simpl. unfold mask_with at 2.
    rewrite re_sub_none; [apply IH; intros e' He'; apply Hl; right; exact He' | ].
    apply (proj1 (clean_search x) H). apply Hl. left. reflexivity. }
  apply Hl. auto.
Qed.

(** A clean text is one that contains no sensitive number. *)
Lemma clean_no_pii (t : str) :
  clean U t = true <-> forall k y, is_pii U k y = true -> contains y t = false.
Proof.
  rewrite clean_search. split.
  - intros H k y Hy. destruct (contains y t) eqn:C; [exfalso | reflexivity].
    destruct (pattern_entry k) as [name Hin].
    apply (search_complete numeric (pii_pattern U k) y (pii_simple k)
             (re_fullmatch_sound _ _ Hy) t [] C).
    apply (H _ Hin).
  - intros H entry Hin.
    destruct (re_search (snd entry) t) as [m | ] eqn:E; [exfalso | reflexivity].
    apply RegexFacts.re_search_sound in E as [E D].
    destruct (entry_pattern entry Hin) as [k Hk]. rewrite Hk in D.
    pose proof (H k (m_text m) (derives_pii k _ D)) as C.
    rewrite E, RegexFacts.contains_app in C. discriminate.
Qed.

(** The replacement of a match differs from the match. *)
Lemma mask_match_changes (entry : str * regex) (mt : str) :
  In entry (SENSITIVE_PATTERNS U) ->
  derives (snd entry) mt ->
  length (mask_match (fst entry) mt) = length mt /\ mask_match (fst entry) mt <> mt.
Proof.
  intros Hin D. split; [apply (mask_match_length U); assumption | ].
  assert (is_digit U 42 = false) as Hstar by reflexivity.
  simpl in Hin.
  destruct Hin as [<- | [<- | [<- | []]]]; cbn [fst snd] in *.
  - apply mask_match_business in D as (p0 & p1 & p2 & -> & H0 & H1 & H2 & ->).
    explode_digits. unfold BUSINESS_MASK. cbn [app].
    intros E. injection E as <- _. congruence.
  - apply mask_match_resident in D as (p0 & p1 & -> & H0 & H1 & ->).
    explode_digits. unfold RESIDENT_MASK. cbn [app].
    intros E. injection E as <- _. congruence.
  - apply mask_match_phone in D as (p0 & p1 & p2 & -> & H0 & H1 & H2 & ->).
    explode_digits; unfold stars; cbn [app length replicate];
      intros E; injection E as <- _; congruence.
Qed.

Lemma masked_char_cycle (a b c : N) :
  masked_char U b a -> masked_char U c b -> masked_char U a c -> b = a /\ c = a.
Proof.
  assert (is_digit U 42 = false) as Hstar by reflexivity.
  intros [E1 | [E1 Ha]] [E2 | [E2 Hb]] [E3 | [E3 Hc]]; subst;
    try (split; reflexivity); congruence.
Qed.

Lemma masked_chars_cycle (t t1 t2 : str) :
  Forall2 (masked_char U) t1 t -> Forall2 (masked_char U) t2 t1 ->
  Forall2 (masked_char U) t t2 -> t1 = t /\ t2 = t.
Proof.
  intros H1. revert t2.
  induction H1 as [ | b a t1 t Hba _ IH]; intros t2 H2 H3.
  - inversion H2; subst. split; reflexivity.
  - inversion H2 as [ | c b' t2' t1' Hcb H2']; subst.
    inversion H3 as [ | a' c' t' t2'' Hac H3']; subst.
    destruct (masked_char_cycle a b c Hba Hcb Hac) as [-> ->].
    destruct (IH t2' H2' H3') as [-> ->]. split; reflexivity.
Qed.

Lemma mask_with_pointwise (entry : str * regex) (s : str) :
  In entry (SENSITIVE_PATTERNS U) ->
  Forall2 (masked_char U) (mask_with s entry) s.
Proof.
  intros Hin. unfold mask_with.
  apply MoreMaskFacts.re_sub_pointwise; [apply MoreMaskFacts.masked_char_refl | ].
  intros mt D. apply MoreMaskFacts.mask_match_pointwise; assumption.
Qed.

Lemma mask_with_fixed (entry : str * regex) (t : str) :
  In entry (SENSITIVE_PATTERNS U) ->
  mask_with t entry = t -> re_search (snd entry) t = None.
Proof.
  intros Hin H. unfold re_search.
  apply (sub_from_fixed (snd entry) (mask_match (fst entry))
           (fun mt => patterns_nonempty entry mt Hin)); [ | exact H].
  intros mt D. apply mask_match_changes; assumption.
Qed.

(** Masking leaves exactly the clean texts as they are. *)
Lemma mask_fixed_clean (t : str) :
  mask_sensitive_info U t = t <-> clean U t = true.
Proof.
  split; [ | apply mask_clean].
  intros H. unfold mask_sensitive_info, SENSITIVE_PATTERNS in H. cbn [fold_left] in H.
  set (e1 := (BUSINESS_NO, business_re U)) in *.
  set (e2 := (RESIDENT_NO, resident_re U)) in *.
  set (e3 := (PHONE_NO, phone_re U)) in *.
  assert (In e1 (SENSITIVE_PATTERNS U)) as H1 by (left; reflexivity).
  assert (In e2 (SENSITIVE_PATTERNS U)) as H2 by (right; left; reflexivity).
  assert (In e3 (SENSITIVE_PATTERNS U)) as H3 by (right; right; left; reflexivity).
  pose proof (mask_with_pointwise e1 t H1) as P1.
  pose proof (mask_with_pointwise e2 (mask_with t e1) H2) as P2.
  pose proof (mask_with_pointwise e3 (mask_with (mask_with t e1) e2) H3) as P3.
  rewrite H in P3.
  destruct (masked_chars_cycle _ _ _ P1 P2 P3) as [E1 E2].
  rewrite E1 in E2. rewrite E1, E2 in H.
  apply clean_search. intros entry Hin. simpl in Hin.
  destruct Hin as [<- | [<- | [<- | []]]];
    [apply (mask_with_fixed e1) | apply (mask_with_fixed e2)
     | apply (mask_with_fixed e3)]; assumption.
Qed.

(** A digit, a hyphen and a digit in a row: each sensitive number has
    them, and no masked number. *)
Fixpoint dhd (s : str) : bool :=
  match s with
  | [] => false
  | a :: t =>
    match t with
    | h :: b :: _ => (is_digit U a && (h =? hyphen) && is_digit U b) || dhd t
    | _ => false
    end
  end.

Lemma dhd_short (t : str) : dhd t = true -> (3 <= length t)%nat.
Proof.
  destruct t as [ | a [ | h [ | b t]]]; simpl; try discriminate. intros _. lia.
Qed.

Lemma dhd_tail (c : N) (t : str) : dhd t = true -> dhd (c :: t) = true.
Proof.
  intros H. pose proof (dhd_short t H) as Hl.
  destruct t as [ | h [ | b t]]; simpl in Hl; try lia.
  cbn [dhd] in *. rewrite H. apply orb_true_r.
Qed.

Lemma dhd_starts (y : str) :
  forall h, starts_with y h = true -> dhd y = true -> dhd h = true.
Proof.
  induction y as [ | a y IH]; intros h Hs Hy; [discriminate | ].
  destruct h as [ | a' h]; [discriminate | ]. simpl in Hs.
  apply andb_prop in Hs as [E Hs]. apply N.eqb_eq in E as <-.
  destruct y as [ | x [ | b y]]; try discriminate.
  destruct h as [ | x' [ | b' h]];
    try (rewrite starts_with_short in Hs by (simpl; lia); discriminate).
  pose proof Hs as Hs'. simpl in Hs'.
  apply andb_prop in Hs' as [E1 Hs']. apply N.eqb_eq in E1 as <-.
  apply andb_prop in Hs' as [E2 _]. apply N.eqb_eq in E2 as <-.
  cbn [dhd] in Hy |- *. apply orb_prop in Hy as [Hy | Hy].
  - rewrite Hy. reflexivity.
  - apply orb_true_iff. right. apply (IH (x :: b :: h) Hs). exact Hy.
Qed.

Lemma dhd_contains (y : str) :
  forall h, contains y h = true -> dhd y = true -> dhd h = true.
Proof.
  induction h as [ | c t IH]; intros H Hy; rewrite RegexFacts.contains_unfold in H.
  - rewrite orb_false_r in H. apply (dhd_starts y [] H Hy).
  - apply orb_prop in H as [H | H]; [apply (dhd_starts y _ H Hy) | ].
    apply dhd_tail. apply IH; assumption.
Qed.

Lemma dhd_pii (k : pii) (y : str) : is_pii U k y = true -> dhd y = true.
Proof.
  intros H. apply re_fullmatch_sound in H. destruct k; cbn [pii_pattern] in H.
  - apply business_shape in H as (p0 & p1 & p2 & -> & H0 & H1 & H2).
    explode_digits. digit_facts U. run U. reflexivity.
  - apply resident_shape in H as (p0 & p1 & -> & H0 & H1).
    explode_digits. digit_facts U. run U. reflexivity.
  - apply phone_shape in H as (p0 & p1 & p2 & -> & H0 & H1 & H2).
    explode_digits; digit_facts U; run U; reflexivity.
Qed.

Lemma dhd_masked (k : pii) (x : str) :
  is_pii U k x = true -> dhd (masked_form k x) = false.
Proof.
  intros H. apply re_fullmatch_sound in H. destruct k; cbn [pii_pattern] in H.
  - apply business_shape in H as (p0 & p1 & p2 & -> & H0 & H1 & H2).
    explode_digits. digit_facts U. unfold masked_form, BUSINESS_MASK.
    run U. reflexivity.
  - apply resident_shape in H as (p0 & p1 & -> & H0 & H1).
    explode_digits. digit_facts U. unfold masked_form, RESIDENT_MASK.
    run U. reflexivity.
  - apply phone_shape in H as (p0 & p1 & p2 & -> & H0 & H1 & H2).
    explode_digits; digit_facts U; unfold masked_form; run U; reflexivity.
Qed.

(** A word of digits and hyphens lies on one side of a separator. *)
Lemma starts_with_sep (y : str) (c : N) (T : str) :
  Forall (fun a => numeric a = true) y -> numeric c = false ->
  forall x, starts_with y (x ++ c :: T) = true -> starts_with y x = true.
Proof.
  intros Hy Hc. induction Hy as [ | a y Ha _ IH]; intros x H; [reflexivity | ].
  destruct x as [ | b x]; simpl in H |- *.
  - apply andb_prop in H as [E _]. apply N.eqb_eq in E. congruence.
  - apply andb_prop in H as [E H]. rewrite E. apply IH. exact H.
Qed.

Lemma contains_sep (y : str) (c : N) (T : str) :
  y <> [] -> Forall (fun a => numeric a = true) y -> numeric c = false ->
  forall x, contains y (x ++ c :: T) = true ->
            contains y x = true \/ contains y T = true.
Proof.
  intros Hne Hy Hc. induction x as [ | b x IH]; intros H;
    rewrite RegexFacts.contains_unfold in H; cbn [app] in H.
  - apply orb_prop in H as [H | H]; [ | right; exact H].
    apply (starts_with_sep y c T Hy Hc []) in H.
    destruct y; [contradiction | discriminate].
  - apply orb_prop in H as [H | H].
    + left. rewrite RegexFacts.contains_unfold.
      change (b :: x ++ c :: T) with ((b :: x) ++ c :: T) in H.
      rewrite (starts_with_sep y c T Hy Hc _ H). reflexivity.
    + destruct (IH H) as [H' | H']; [left | right; exact H'].
      rewrite RegexFacts.contains_unfold, H'. apply orb_true_r.
Qed.

(** The texts whose numbers stand apart, part by part. *)
Inductive parts : str -> Prop :=
| parts_one x : whole U x || clean U x = true -> parts x
| parts_cons x c s :
    whole U x || clean U x = true -> separator U c = true -> parts s ->
    parts (x ++ c :: s).

Lemma runs_parts (s : str) :
  forall pre,
    forallb (fun p => whole U p || clean U p)
            (match runs U s with
             | [] => []
             | p :: ps => (pre ++ p) :: ps
             end) = true ->
    parts (pre ++ s).
Proof.
  induction s as [ | c t IH]; intros pre H.
  - cbn in H. rewrite andb_true_r in H. apply parts_one. exact H.
  - cbn [runs] in H. destruct (separator U c) eqn:Hc.
    + cbn [forallb] in H. apply andb_prop in H as [Hx H]. rewrite app_nil_r in Hx.
      apply parts_cons; [exact Hx | exact Hc | ].
      apply (IH []). destruct (runs U t); exact H.
    + replace (pre ++ c :: t) with ((pre ++ [c]) ++ t) by (rewrite <- app_assoc; reflexivity).
      apply IH. destruct (runs U t) as [ | p ps].
      * reflexivity.
      * rewrite <- app_assoc. exact H.
Qed.

Lemma apart_parts (s : str) : apart U s = true -> parts s.
Proof.
  intros H. apply (runs_parts s []). unfold apart in H.
  destruct (runs U s); exact H.
Qed.

Lemma whole_pii (x : str) : whole U x = true -> exists k, is_pii U k x = true.
Proof.
  unfold whole. intros H.
  apply orb_prop in H as [H | H]; [apply orb_prop in H as [H | H] | ]; eauto.
Qed.

(** The masked form of such a text shows no sensitive number. *)
Lemma parts_hidden (s : str) :
  parts s ->
  forall k y, is_pii U k y = true ->
              contains y (mask_sensitive_info U s) = false.
Proof.
  assert (forall x, whole U x || clean U x = true ->
          forall k y, is_pii U k y = true ->
                      contains y (mask_sensitive_info U x) = false) as Hpart.
  { intros x Hx k y Hy. apply orb_prop in Hx as [Hx | Hx].
    - apply whole_pii in Hx as [k' Hx].
      destruct (pii_value U k' x Hx) as (E & _ & _). rewrite E.
      destruct (contains y (masked_form k' x)) eqn:C; [ | reflexivity].
      pose proof (dhd_contains y _ C (dhd_pii k y Hy)) as D.
      rewrite (dhd_masked k' x Hx) in D. discriminate.
    - rewrite (mask_clean x Hx). apply (proj1 (clean_no_pii x) Hx k). exact Hy. }
  induction 1 as [x Hx | x c s Hx Hc _ IH]; intros k y Hy.
  - apply (Hpart x Hx k y Hy).
  - rewrite (mask_sep x c _ Hc).
    destruct (contains y (mask_sensitive_info U x ++ c :: mask_sensitive_info U s))
      eqn:C; [exfalso | reflexivity].
    destruct (pii_numeric k y Hy) as [Hne Hnum].
    apply (contains_sep y c _ Hne Hnum (separator_numeric c Hc)) in C as [C | C].
    + rewrite (Hpart x Hx k y Hy) in C. discriminate.
    + rewrite (IH k y Hy) in C. discriminate.
Qed.
End WithUnicode.
End ApartFacts.

(** C4, amended. For every string, masking the masked text once more
    changes nothing exactly when the masked text contains no string
    that matches a recognised pattern.  That is so for every text whose
    sensitive numbers stand apart, each run of digits and hyphens being
    as a whole one sensitive number or holding no match: for such a
    text masking twice gives the same as masking once, and the masked
    text contains no string that matches a recognised pattern, so none
    of the matching substrings of the text. *)
Theorem mask_idempotent_apart (U : Unicode) (s : str) :
  let out := Utils.mask_sensitive_info U s in
  let hidden := forall k y, is_pii U k y = true -> contains y out = false in
  (Utils.mask_sensitive_info U out = out <-> hidden) /\
  (Apart.apart U s = true -> Utils.mask_sensitive_info U out = out /\ hidden).
Proof.
  intros out hidden.
  assert (Utils.mask_sensitive_info U out = out <-> hidden) as Hiff.
  { etrans; [exact (ApartFacts.mask_fixed_clean U out) | ].
    exact (ApartFacts.clean_no_pii U out). }
  split; [exact Hiff | ].
  intros H.
  assert hidden as Hh
    by (exact (ApartFacts.parts_hidden U s (ApartFacts.apart_parts U s H))).
  split; [apply Hiff; exact Hh | exact Hh].
Qed.

Lemma mask_idempotent_apart_witness :
  let s := u "tel 010-1234-5678 / 214-86-59900, 2024-01-15." in
  Apart.apart plain s = true /\
  Utils.mask_sensitive_info plain s
  = u "tel 010-****-5678 / 214-**-***00, 2024-01-15." /\
  Utils.mask_sensitive_info plain (Utils.mask_sensitive_info plain s)
  = Utils.mask_sensitive_info plain s /\
  contains (u "010-1234-5678") (Utils.mask_sensitive_info plain s) = false.
Proof.
  intros s.
  assert (Apart.apart plain s = true) as H by (vm_compute; reflexivity).
  split; [exact H | ]. split; [vm_compute; reflexivity | ].
  destruct (mask_idempotent_apart plain s) as [_ Hs].
  destruct (Hs H) as [Hi Hh]. split; [exact Hi | ].
  apply (Hh Phone). reflexivity.
Defined.

(* ================================================================= *)
(** ** More of old_files/router.py *)

Module MoreRouterFacts.
Import Router RouterFacts RegexFacts.
Section WithUnicode.
Variable U : Unicode.

Lemma score_step_mono (query : str) (keywords : list str) :
  forall acc,
    acc <= fold_left
             (fun score keyword =>
                if contains (lower U keyword) query then score + 1 else score)
             keywords acc.
Proof.
  induction keywords as [ | kw kws IH]; intros acc; simpl; [lra | ].
  eapply Qle_trans; [ | apply IH].
  destruct (contains (lower U kw) query); lra.
Qed.

(** One keyword found gives a score of at least 1. *)
Lemma _calculate_score_found (query : str) (keywords : list str) (kw : str) :
  In kw keywords -> contains (lower U kw) query = true ->
  1 <= _calculate_score U query keywords.
Proof.
  unfold _calculate_score.
  assert (forall acc, 0 <= acc -> In kw keywords ->
            contains (lower U kw) query = true ->
            1 <= fold_left
                   (fun score keyword =>
                      if contains (lower U keyword) query then score + 1 else score)
                   keywords acc) as H.
  { induction keywords as [ | k ks IH]; intros acc Hacc Hin Hc; [destruct Hin | ].
    simpl. destruct Hin as [-> | Hin].
    - rewrite Hc. eapply Qle_trans; [ | apply score_step_mono]. lra.
    - apply IH; [ | exact Hin | exact Hc].
      destruct (contains (lower U k) query); lra. }
  intros Hin Hc. apply H; [lra | exact Hin | exact Hc].
Qed.

(** The words of the top-N pattern are keywords of CALC. *)
Lemma top_word_is_keyword (w : str) :
  In w TOP_WORDS -> exists kw, In kw CALC_KEYWORDS /\ lower U kw = w.
Proof.
  intros [<- | [<- | [<- | []]]].
  - exists (nth 10 CALC_KEYWORDS []). split; [ | reflexivity].
    unfold CALC_KEYWORDS. cbn [nth]. repeat (first [left; reflexivity | right]).
  - exists (nth 7 CALC_KEYWORDS []). split; [ | reflexivity].
    unfold CALC_KEYWORDS. cbn [nth]. repeat (first [left; reflexivity | right]).
  - exists (nth 8 CALC_KEYWORDS []). split; [ | reflexivity].
    unfold CALC_KEYWORDS. cbn [nth]. repeat (first [left; reflexivity | right]).
Qed.

Lemma top_n_keyword (query_lower : str) :
  re_found (top_n_re U) query_lower = true ->
  1 <= _calculate_score U query_lower CALC_KEYWORDS.
Proof.
  intros H. apply search_word in H as (w & Hw & Hc).
  apply top_word_is_keyword in Hw as (kw & Hkw & <-).
  apply (_calculate_score_found query_lower CALC_KEYWORDS kw Hkw Hc).
Qed.

(** What the first and the fourth rule give. *)
Lemma scores_rules (query : str) (c l g : Q) :
  scores U query = (c, l, g) ->
  (re_found (top_n_re U) (lower U query) = true -> 3 <= c) /\
  (re_found ending_re query = true -> 3 <= g).
Proof.
  unfold scores.
  pose proof (_calculate_score_nonneg U (lower U query) CALC_KEYWORDS) as Hc.
  pose proof (_calculate_score_nonneg U (lower U query) RAG_KEYWORDS) as Hg.
  pose proof (top_n_keyword (lower U query)) as Ht.
  generalize dependent (_calculate_score U (lower U query) CALC_KEYWORDS).
  generalize dependent (_calculate_score U (lower U query) LOOKUP_KEYWORDS).
  generalize dependent (_calculate_score U (lower U query) RAG_KEYWORDS).
  intros g0 Hg l0 c0 Hc Ht.
  destruct (re_found (top_n_re U) (lower U query));
    [specialize (Ht eq_refl) | clear Ht];
    destruct (re_found (group_by_re U) query);
    destruct (any_in COMPARE_WORDS query);
    destruct (re_found ending_re query);
    destruct (_contains_specific_name query);
    destruct (re_found (date_re U) query);
    cbv zeta beta iota;
    repeat match goal with
           | |- context [Qlt_le_dec ?a ?b] => destruct (Qlt_le_dec a b)
           end;
    intros E; inversion E; subst; clear E;
    split; intros; first [discriminate | lra].
Qed.

Lemma pymax3_ge (c l g : Q) :
  c <= pymax (pymax c l) g /\ l <= pymax (pymax c l) g /\ g <= pymax (pymax c l) g.
Proof.
  destruct (pymax_cases c l) as [[H1 ->] | [H1 ->]];
    [destruct (pymax_cases l g) as [[H2 ->] | [H2 ->]]
    | destruct (pymax_cases c g) as [[H2 ->] | [H2 ->]]];
    repeat split; lra.
Qed.

(** A score of 3 or more gives full confidence. *)
Lemma confidence_full (query : str) (c l g : Q) :
  scores U query = (c, l, g) ->
  3 <= pymax (pymax c l) g ->
  confidence (route U query) == 1.
Proof.
  intros E H. unfold route. rewrite E.
  set (m := pymax (pymax c l) g) in *.
  destruct (Qeq_dec m 0) as [Hm | Hm]; [lra | ].
  cbn [confidence]. unfold pymin.
  destruct (Qlt_le_dec 1 (m / 3)) as [H1 | H1]; [reflexivity | ].
  apply Qle_antisym; [exact H1 | ].
  apply Qle_shift_div_l; lra.
Qed.

Lemma select_maximum (c l g : Q) :
  match select c l g with
  | CALC => l <= c /\ g <= c
  | LOOKUP => c < l /\ g <= l
  | RAG => (c < g /\ l < g)
  end.
Proof.
  unfold select.
  destruct (Qlt_le_dec c l); [destruct (Qlt_le_dec l g) | destruct (Qlt_le_dec c g)];
    split; lra.
Qed.
End WithUnicode.
End MoreRouterFacts.

(** X3. A query with an explicit top-N token (top, 상위 or 하위 followed
    by a number) is always classified with confidence 1: the token is a
    CALC keyword by itself and the first rule adds 2, so the CALC score
    is at least 3. *)
Theorem route_top_n_confident (U : Unicode) (query : str) :
  re_found (Router.top_n_re U) (lower U query) = true ->
  exists c l g,
    Router.scores U query = (c, l, g) /\ 3 <= c /\
    Router.confidence (Router.route U query) == 1.
Proof.
  intros H. destruct (Router.scores U query) as [[c l] g] eqn:E.
  destruct (MoreRouterFacts.scores_rules U query c l g E) as [Hc _].
  specialize (Hc H). exists c, l, g.
  split; [reflexivity | ]. split; [exact Hc | ].
  apply (MoreRouterFacts.confidence_full U query c l g E).
  pose proof (MoreRouterFacts.pymax3_ge c l g). lra.
Qed.

Lemma route_top_n_confident_witness :
  re_found (Router.top_n_re plain) (lower plain (u "Top 3")) = true /\
  Router.confidence (Router.route plain (u "Top 3")) == 1.
Proof.
  split; [reflexivity | ].
  destruct (route_top_n_confident plain (u "Top 3") eq_refl) as (c & l & g & _ & _ & H).
  exact H.
Defined.

(** X4. A query that ends in one of the explanation endings (이란, 란,
    는, 은, 무엇, 뭐, 의미, 설명, 인가요, 인가, then question marks) gets a
    RAG score of at least 3 and so confidence 1, whichever mode wins. *)
Theorem route_ending_confident (U : Unicode) (query : str) :
  re_found Router.ending_re query = true ->
  exists c l g,
    Router.scores U query = (c, l, g) /\ 3 <= g /\
    Router.confidence (Router.route U query) == 1.
Proof.
  intros H. destruct (Router.scores U query) as [[c l] g] eqn:E.
  destruct (MoreRouterFacts.scores_rules U query c l g E) as [_ Hg].
  specialize (Hg H). exists c, l, g.
  split; [reflexivity | ]. split; [exact Hg | ].
  apply (MoreRouterFacts.confidence_full U query c l g E).
  pose proof (MoreRouterFacts.pymax3_ge c l g). lra.
Qed.

Lemma route_ending_confident_witness :
  re_found Router.ending_re (u "ABC란?") = true /\
  Router.confidence (Router.route plain (u "ABC란?")) == 1.
Proof.
  split; [reflexivity | ].
  destruct (route_ending_confident plain (u "ABC란?") eq_refl) as (c & l & g & _ & _ & H).
  exact H.
Defined.

(** X5. Unless all three adjusted scores are 0, [route] returns a mode
    whose score is the largest of the three; of equal scores CALC wins
    over LOOKUP and RAG, and LOOKUP over RAG. *)
Theorem route_selects_maximum (U : Unicode) (query : str) (c l g : Q) :
  Router.scores U query = (c, l, g) ->
  ~ pymax (pymax c l) g == 0 ->
  match Router.mode (Router.route U query) with
  | Router.CALC => l <= c /\ g <= c
  | Router.LOOKUP => c < l /\ g <= l
  | Router.RAG => c < g /\ l < g
  end.
Proof.
  intros E Hm. unfold Router.route. rewrite E.
  destruct (Qeq_dec (pymax (pymax c l) g) 0) as [H0 | H0]; [contradiction | ].
  cbn [Router.mode]. apply MoreRouterFacts.select_maximum.
Qed.

Lemma route_selects_maximum_witness :
  Router.scores plain (u "% 어디 A-") = (1, 1, 1) /\
  Router.mode (Router.route plain (u "% 어디 A-")) = Router.CALC.
Proof.
  assert (Router.scores plain (u "% 어디 A-") = (1, 1, 1)) as E
    by (vm_compute; reflexivity).
  split; [exact E | ].
  pose proof (route_selects_maximum plain (u "% 어디 A-") 1 1 1 E) as H.
  destruct (Router.mode (Router.route plain (u "% 어디 A-"))); [reflexivity | | ];
    exfalso; (assert (~ pymax (pymax 1 1) 1 == 0) as Hm by (vm_compute; discriminate));
    destruct (H Hm) as [H1 _]; vm_compute in H1; discriminate.
Defined.

(* ================================================================= *)
(** ** More of old_files/calc_engine.py *)

Module MoreCalcFacts.
Import Pandas PandasFacts Calc CalcFacts RegexFacts.

Lemma _select_datasets_nonempty (query dataset_filter : str) :
  _select_datasets query dataset_filter <> [].
Proof.
  unfold _select_datasets.
  destruct (negb (str_eqb dataset_filter Lookup.ALL)); [discriminate | ].
  destruct (any_in CLIENT_WORDS query), (any_in SALES_WORDS query),
    (any_in JOURNAL_WORDS query); discriminate.
Qed.

Lemma filter_sublist {A : Type} (f : A -> bool) (l : list A) :
  sublist (List.filter f l) l.
Proof.
  induction l as [ | x l IH]; simpl; [constructor | ].
  destruct (f x); [apply sublist_skip | apply sublist_cons]; exact IH.
Qed.

Section Engine.
Variable U : Unicode.
Variable num_repr : Q -> str.
Variable period_text : cell -> str.
Variable raw_dataframes : gmap str DataFrame.
Variable get_column_mapping : str -> gmap str str.
Variable answer_raises : DataFrame -> rows_of -> bool.

Lemma bottom_n_group_2 (query : str) (m : rmatch) :
  re_search (bottom_n_re U) query = Some m -> int_group U 2 m = Raise.
Proof.
  intros H. unfold int_group.
  rewrite (re_search_groups (bottom_n_re U) query m 2 H); [reflexivity | ].
  cbn. intros [E | []]. discriminate.
Qed.

(** The two ways in which reading the limit raises. *)
Definition bottom_n (query : str) : Prop :=
  contains TOP_KO query || contains TOP_EN (lower U query) = false /\
  re_found (bottom_n_re U) query = true.

Definition too_long (query : str) : Prop :=
  contains TOP_KO query || contains TOP_EN (lower U query) = true /\
  exists m d,
    re_search (top_n_re U) (lower U query) = Some m /\
    group 2 (m_groups m) = Some d /\
    (MAX_STR_DIGITS < N.of_nat (length d))%N.

Lemma sort_and_limit_raises (query : str) :
  sort_and_limit U query = Raise <-> bottom_n query \/ too_long query.
Proof.
  unfold bottom_n, too_long.
  destruct (contains TOP_KO query || contains TOP_EN (lower U query)) eqn:Ht.
  - pose proof (sort_and_limit_top U query Ht) as H.
    destruct (re_search (top_n_re U) (lower U query)) as [m | ] eqn:E.
    + destruct H as (d & Hg & Hne & Hd & ->).
      destruct (N.lt_ge_cases MAX_STR_DIGITS (N.of_nat (length d))) as [Hlen | Hlen].
      * rewrite (int_long U d Hlen). split; [ | reflexivity].
        intros _. right. split; [reflexivity | ]. exists m, d. auto.
      * destruct (int_Some U d Hne Hd Hlen) as [n ->].
        split; [discriminate | ].
        intros [[? _] | [_ (m' & d' & Em & Hg' & Hlen')]]; [discriminate | ].
        inversion Em; subst m'. rewrite Hg in Hg'. inversion Hg'; subst d'. lia.
    + rewrite H. split; [discriminate | ].
      intros [[? _] | [_ (m' & d' & Em & _)]]; discriminate.
  - unfold sort_and_limit, re_found. rewrite Ht.
    destruct (re_search (bottom_n_re U) query) as [m | ] eqn:E.
    + assert (contains BOTTOM_KO query = true) as ->.
      { apply (search_lit BOTTOM_KO
                 (Seq (Star (Cls (is_space U))) (Grp 1 (plus (digit U)))) query).
        change (Seq (lit BOTTOM_KO) _) with (bottom_n_re U).
        unfold re_found. rewrite E. reflexivity. }
      rewrite (bottom_n_group_2 query m E).
      split; [intros _; left; split; reflexivity | intros _; reflexivity].
    + destruct (contains BOTTOM_KO query);
        (split; [discriminate | intros [[_ ?] | [? _]]; discriminate]).
Qed.

Lemma _analyze_query_raises (query : str) :
  _analyze_query U query = Raise <-> sort_and_limit U query = Raise.
Proof.
  unfold _analyze_query.
  destruct (sort_and_limit U query) as [[s l] | ];
    split; intros; first [discriminate | reflexivity].
Qed.

Lemma calculate_passes_on (query dataset_filter : str) :
  _analyze_query U query = Raise ->
  calculate U num_repr period_text raw_dataframes get_column_mapping answer_raises
    query dataset_filter = Raise.
Proof.
  intros H. unfold calculate. rewrite H.
  destruct (_select_datasets query dataset_filter); reflexivity.
Qed.

Lemma date_filter_sublist (df : DataFrame) (a : analysis) :
  sublist (date_filter num_repr df a) (all_rows df).
Proof.
  unfold date_filter, select.
  destruct (time_range a) as [[year [m | ]] | ]; [ | | reflexivity];
    (destruct (get_col (columns df) Lookup.A_2) as [dates | ]; [ | reflexivity]).
  - etrans; apply filter_sublist.
  - apply filter_sublist.
Qed.

Lemma date_filter_matches (df : DataFrame) (a : analysis) (year : str)
    (month : option str) (dates : column) (i : nat) :
  time_range a = Some (year, month) ->
  get_col (columns df) Lookup.A_2 = Some dates ->
  In i (date_filter num_repr df a) <->
  (i < nrows df)%nat /\
  col_contains num_repr dates year i = true /\
  forall m, month = Some m ->
            col_contains num_repr dates (hyphen :: zfill2 m) i = true.
Proof.
  intros Ht Hd. unfold date_filter, select. rewrite Ht, Hd.
  destruct month as [m | ]; rewrite ?filter_In.
  - unfold all_rows. rewrite in_seq. split.
    + intros [[Hi Hy] Hm]. split; [lia | ]. split; [exact Hy | ].
      intros m' E. inversion E; subst. exact Hm.
    + intros (Hi & Hy & Hm). split; [split; [lia | exact Hy] | ].
      apply Hm. reflexivity.
  - unfold all_rows. rewrite in_seq. split.
    + intros [Hi Hy]. split; [lia | ]. split; [exact Hy | ]. discriminate.
    + intros (Hi & Hy & _). split; [lia | exact Hy].
Qed.

Lemma quarter_none (a : analysis) (dataset_name : str) :
  groupby a = Some ByQuarter ->
  _calculate_single_dataset num_repr period_text raw_dataframes
    get_column_mapping answer_raises dataset_name a = Ok None.
Proof.
  intros Hg. unfold _calculate_single_dataset, aggregated, _perform_groupby.
  destruct (raw_dataframes !! dataset_name); [ | reflexivity].
  rewrite Hg. reflexivity.
Qed.

Lemma analyze_groupby_quarter (query : str) (a : analysis) :
  _analyze_query U query = Ok a ->
  contains BY_COMPANY query = false ->
  contains BY_PRODUCT query = false ->
  contains BY_ITEM query = false ->
  contains BY_MONTH query = false ->
  contains BY_QUARTER query = true ->
  groupby a = Some ByQuarter.
Proof.
  unfold _analyze_query. intros H H1 H2 H3 H4 H5.
  destruct (sort_and_limit U query) as [[s l] | ]; [ | discriminate].
  inversion H; subst a. cbn [groupby].
  rewrite H1, H2, H3, H4, H5. reflexivity.
Qed.

Lemma sort_one_row (a : analysis) (r : DataFrame) :
  nrows r = 1%nat -> sorted_and_cut a r = [0%nat].
Proof.
  intros Hn. unfold sorted_and_cut, all_rows. rewrite Hn. cbn [seq].
  destruct (sort a) as [dir | ]; [ | reflexivity].
  destruct (first_numeric r) as [[label c] | ]; [ | reflexivity].
  assert (sort_values c match dir with Asc => true | Desc => false end [0%nat]
          = [0%nat]) as ->.
  { apply Permutation_singleton_r. apply sort_values_perm. }
  destruct (limit a) as [n | ]; [ | reflexivity].
  destruct (N.eqb_spec n 0); [reflexivity | ].
  unfold head. destruct (N.to_nat n) as [ | [ | k]] eqn:E; [lia | reflexivity | reflexivity].
Qed.

(** In a frame whose columns are all numeric the sort column is the
    first column. *)
Lemma first_of_numeric (r : DataFrame) :
  Forall (fun '(_, c) => is_numeric c = true) (columns r) ->
  first_numeric r = List.head (columns r).
Proof.
  intros H. unfold first_numeric, numeric_columns. f_equal.
  induction H as [ | [n c] l Hc _ IH]; [reflexivity | ].
  simpl. rewrite Hc, IH. reflexivity.
Qed.

Lemma sort_raises_first (a : analysis) (r : DataFrame) :
  Forall (fun '(_, c) => is_numeric c = true) (columns r) ->
  sort_raises a r
  = match sort a, columns r with
    | Some _, (label, _) :: _ => negb (label_unique label r)
    | _, _ => false
    end.
Proof.
  intros H. unfold sort_raises. rewrite (first_of_numeric r H).
  destruct (sort a); [ | reflexivity].
  destruct (columns r) as [ | [label c] l]; reflexivity.
Qed.
End Engine.
End MoreCalcFacts.

(** X6. [_analyze_query] raises in exactly two cases.  A bottom-N query
    with its number, that is a query without 상위 and top in which 하위
    is followed by digits: the branch reads [match.group(2)] of a
    pattern that has one group, an IndexError.  A query with 상위 or
    top whose number has more than 4300 digits: [int] refuses it with a
    ValueError.  Every other query is analysed without error.
    [calculate] passes the exception on. *)
Theorem calculate_raises (U : Unicode) (num_repr : Q -> str)
    (period_text : Pandas.cell -> str)
    (raw_dataframes : gmap str Pandas.DataFrame)
    (get_column_mapping : str -> gmap str str)
    (answer_raises : Pandas.DataFrame -> Pandas.rows_of -> bool)
    (query dataset_filter : str) :
  let top := contains Calc.TOP_KO query || contains Calc.TOP_EN (lower U query) in
  let bottom_n := top = false /\ re_found (Calc.bottom_n_re U) query = true in
  let too_long :=
    top = true /\
    exists m d,
      re_search (Calc.top_n_re U) (lower U query) = Some m /\
      group 2 (m_groups m) = Some d /\
      (MAX_STR_DIGITS < N.of_nat (length d))%N in
  (Calc._analyze_query U query = Raise <-> bottom_n \/ too_long) /\
  (bottom_n \/ too_long ->
   Calc.calculate U num_repr period_text raw_dataframes get_column_mapping
     answer_raises query dataset_filter = Raise).
Proof.
  intros top bottom_n too_long.
  assert (Calc._analyze_query U query = Raise <-> bottom_n \/ too_long) as H.
  { etrans; [exact (MoreCalcFacts._analyze_query_raises U query) | ].
    exact (MoreCalcFacts.sort_and_limit_raises U query). }
  split; [exact H | ].
  intros Hq. apply MoreCalcFacts.calculate_passes_on. apply H. exact Hq.
Qed.

(** X7. The date filter only narrows: the rows it keeps are rows of the
    table, in their order, and when the query names a year and the
    table has the date column A-2, a row is kept exactly when its date
    text contains the year and, for a query with a month, the text
    [-MM] of the month padded to two digits. *)
Theorem date_filter_narrows (num_repr : Q -> str) (df : Pandas.DataFrame)
    (a : Calc.analysis) :
  sublist (Calc.date_filter num_repr df a) (Pandas.all_rows df) /\
  (length (Calc.date_filter num_repr df a) <= Pandas.nrows df)%nat /\
  forall year month dates i,
    Calc.time_range a = Some (year, month) ->
    Pandas.get_col (Pandas.columns df) Lookup.A_2 = Some dates ->
    In i (Calc.date_filter num_repr df a) <->
    (i < Pandas.nrows df)%nat /\
    Pandas.col_contains num_repr dates year i = true /\
    forall m, month = Some m ->
              Pandas.col_contains num_repr dates (hyphen :: zfill2 m) i = true.
Proof.
  split; [apply MoreCalcFacts.date_filter_sublist | ]. split.
  - rewrite <- (JoinFacts.all_rows_length df).
    apply sublist_length, MoreCalcFacts.date_filter_sublist.
  - intros year month dates i. apply MoreCalcFacts.date_filter_matches.
Qed.

(** X8. The month filter looks for the text [-MM] anywhere in the date,
    so it also keeps a row of another month whose day of the month is
    that number: a date [YYYY-mm-MM] passes the filter for month MM of
    year YYYY whatever its month mm is. *)
Theorem date_filter_keeps_day (num_repr : Q -> str) (df : Pandas.DataFrame)
    (a : Calc.analysis) (year m mm : str) (dates : Pandas.column) (i : nat) :
  Calc.time_range a = Some (year, Some m) ->
  Pandas.get_col (Pandas.columns df) Lookup.A_2 = Some dates ->
  (i < Pandas.nrows df)%nat ->
  Pandas.cell_at dates i = Pandas.Text (year ++ hyphen :: mm ++ hyphen :: zfill2 m) ->
  In i (Calc.date_filter num_repr df a).
Proof.
  intros Ht Hd Hi Hc.
  apply (MoreCalcFacts.date_filter_matches num_repr df a year (Some m) dates i Ht Hd).
  split; [exact Hi | ]. unfold Pandas.col_contains. rewrite Hc. cbn [Pandas.cell_text].
  split.
  - apply (RegexFacts.contains_app year []).
  - intros m' E. inversion E; subst m'.
    pose proof (RegexFacts.contains_app (hyphen :: zfill2 m) (year ++ hyphen :: mm) [])
      as H.
    rewrite app_nil_r, <- app_assoc in H. exact H.
Qed.

(** X9. A query grouped by quarter (분기별) never gets a result: the
    analysis records the grouping, and no column is chosen for it. *)
Theorem calculate_by_quarter (U : Unicode) (num_repr : Q -> str)
    (period_text : Pandas.cell -> str)
    (raw_dataframes : gmap str Pandas.DataFrame)
    (get_column_mapping : str -> gmap str str)
    (answer_raises : Pandas.DataFrame -> Pandas.rows_of -> bool)
    (query dataset_filter : str) :
  contains Calc.BY_COMPANY query = false ->
  contains Calc.BY_PRODUCT query = false ->
  contains Calc.BY_ITEM query = false ->
  contains Calc.BY_MONTH query = false ->
  contains Calc.BY_QUARTER query = true ->
  Calc.calculate U num_repr period_text raw_dataframes get_column_mapping
    answer_raises query dataset_filter <> Raise ->
  Calc.calculate U num_repr period_text raw_dataframes get_column_mapping
    answer_raises query dataset_filter = Ok None.
Proof.
  intros H1 H2 H3 H4 H5. unfold Calc.calculate.
  destruct (Calc._select_datasets query dataset_filter) as [ | d ds];
    [contradiction | ].
  destruct (Calc._analyze_query U query) as [a | ] eqn:E; [ | contradiction].
  intros _. apply MoreCalcFacts.quarter_none.
  apply (MoreCalcFacts.analyze_groupby_quarter U query a E H1 H2 H3 H4 H5).
Qed.

(** X10. Without a grouping the aggregation of a loaded table with
    distinct column names gives a frame of exactly one row and between
    one and five columns, all numeric.  The result is that frame with
    its one row, whatever order and limit the query asks for, unless
    sorting or writing the answer raises; sorting raises when the query
    asks for an order and the label of the first column, after the
    codebook translated the labels, is the label of another column
    too. *)
Theorem calculate_without_groupby (num_repr : Q -> str)
    (period_text : Pandas.cell -> str)
    (raw_dataframes : gmap str Pandas.DataFrame)
    (get_column_mapping : str -> gmap str str)
    (answer_raises : Pandas.DataFrame -> Pandas.rows_of -> bool)
    (dataset_name : str) (a : Calc.analysis) (df : Pandas.DataFrame) :
  raw_dataframes !! dataset_name = Some df ->
  NoDup (map fst (Pandas.columns df)) ->
  Calc.groupby a = None ->
  exists r,
    Calc._perform_simple_aggregation get_column_mapping df
      (Calc.date_filter num_repr df a) a dataset_name = Some r /\
    Pandas.nrows r = 1%nat /\
    (1 <= length (Pandas.columns r) <= 5)%nat /\
    Forall (fun '(_, c) => Pandas.is_numeric c = true) (Pandas.columns r) /\
    Calc.sort_raises a r
    = match Calc.sort a, Pandas.columns r with
      | Some _, (label, _) :: _ => negb (Calc.label_unique label r)
      | _, _ => false
      end /\
    Calc._calculate_single_dataset num_repr period_text raw_dataframes
      get_column_mapping answer_raises dataset_name a
    = if Calc.sort_raises a r || answer_raises r [0%nat] then Raise
      else Ok (Some (r, [0%nat])).
Proof.
  intros Hdf _ Hg.
  destruct (SingleFacts.simple_one_row get_column_mapping df
              (Calc.date_filter num_repr df a) a dataset_name)
    as (r & Hr & Hn & Hc & Hnum).
  exists r. split; [exact Hr | ]. split; [exact Hn | ]. split; [exact Hc | ].
  split; [exact Hnum | ]. split; [apply MoreCalcFacts.sort_raises_first; exact Hnum | ].
  rewrite (SingleFacts.single_of_frame num_repr period_text raw_dataframes
             get_column_mapping answer_raises a dataset_name df r Hdf).
  - rewrite (MoreCalcFacts.sort_one_row a r Hn).
    destruct (Calc.sort_raises a r); [reflexivity | ].
    destruct (answer_raises r [0%nat]); reflexivity.
  - unfold Calc.aggregated. rewrite Hg, Hr. reflexivity.
Qed.

(** Sample tables and analyses for the date filter. *)
Module MoreCalcSamples.
Import Pandas Calc.

Definition dated : DataFrame :=
  {| nrows := 3;
     columns :=
       [(Lookup.A_2, JoinSamples.texts ["2024-01-15"; "2024-03-01"; "2023-01-01"]%string);
        (u "amount", NumCol [Some 100; Some 300; Some 50])] |}.

Definition january_2024 : analysis :=
  {| aggregation := None; groupby := None; sort := Some Desc; limit := Some 3%N;
     time_range := Some (u "2024", Some (u "1")) |}.

Definition by_quarter : str := Eval vm_compute in u "분기별 매출".
End MoreCalcSamples.

Lemma calculate_raises_witness :
  CalcSamples.run CalcSamples.ties CalcSamples.bottom_1 = Raise.
Proof.
  apply (proj2 (calculate_raises plain CalcSamples.no_numbers CalcSamples.no_period
                  {[ Lookup.SALES := CalcSamples.ties ]} CalcSamples.no_mapping
                  CalcSamples.answers CalcSamples.bottom_1 Lookup.SALES)).
  left. split; reflexivity.
Defined.

Lemma date_filter_narrows_witness :
  Calc.date_filter CalcSamples.no_numbers MoreCalcSamples.dated
    MoreCalcSamples.january_2024 = [0%nat; 1%nat] /\
  (length (Calc.date_filter CalcSamples.no_numbers MoreCalcSamples.dated
             MoreCalcSamples.january_2024) <= 3)%nat.
Proof.
  split; [vm_compute; reflexivity | ].
  apply (date_filter_narrows CalcSamples.no_numbers MoreCalcSamples.dated
           MoreCalcSamples.january_2024).
Defined.

Lemma date_filter_keeps_day_witness :
  Pandas.cell_at (JoinSamples.texts ["2024-01-15"; "2024-03-01"; "2023-01-01"]%string) 1
  = Pandas.Text (u "2024" ++ hyphen :: u "03" ++ hyphen :: zfill2 (u "1")) /\
  In 1%nat (Calc.date_filter CalcSamples.no_numbers MoreCalcSamples.dated
              MoreCalcSamples.january_2024).
Proof.
  split; [vm_compute; reflexivity | ].
  apply (date_filter_keeps_day CalcSamples.no_numbers MoreCalcSamples.dated
           MoreCalcSamples.january_2024 (u "2024") (u "1") (u "03")
           (JoinSamples.texts ["2024-01-15"; "2024-03-01"; "2023-01-01"]%string) 1).
  - reflexivity.
  - reflexivity.
  - simpl. lia.
  - vm_compute. reflexivity.
Defined.

Lemma calculate_by_quarter_witness :
  contains Calc.BY_QUARTER MoreCalcSamples.by_quarter = true /\
  CalcSamples.run CalcSamples.amounts MoreCalcSamples.by_quarter = Ok None.
Proof.
  split; [reflexivity | ].
  apply (calculate_by_quarter plain CalcSamples.no_numbers CalcSamples.no_period
           {[ Lookup.SALES := CalcSamples.amounts ]} CalcSamples.no_mapping
           CalcSamples.answers MoreCalcSamples.by_quarter Lookup.SALES);
    try reflexivity.
  vm_compute. discriminate.
Defined.

Lemma calculate_without_groupby_witness :
  exists r,
    Calc._calculate_single_dataset CalcSamples.no_numbers CalcSamples.no_period
      {[ Lookup.SALES := MoreCalcSamples.dated ]} CalcSamples.no_mapping
      CalcSamples.answers Lookup.SALES MoreCalcSamples.january_2024
    = Ok (Some (r, [0%nat])) /\
    Pandas.nrows r = 1%nat /\
    Pandas.columns r = [(u "amount", Pandas.NumCol [Some 400])].
Proof.
  assert (({[ Lookup.SALES := MoreCalcSamples.dated ]} : gmap str Pandas.DataFrame)
            !! Lookup.SALES = Some MoreCalcSamples.dated) as Hdf
    by (vm_compute; reflexivity).
  assert (NoDup (map fst (Pandas.columns MoreCalcSamples.dated))) as Hnames.
  { vm_compute. repeat constructor; intros H;
      repeat (apply elem_of_cons in H as [H | H]; [discriminate | ]); inversion H. }
  destruct (calculate_without_groupby CalcSamples.no_numbers CalcSamples.no_period
              {[ Lookup.SALES := MoreCalcSamples.dated ]} CalcSamples.no_mapping
              CalcSamples.answers Lookup.SALES MoreCalcSamples.january_2024
              MoreCalcSamples.dated Hdf Hnames eq_refl)
    as (r & Hr & Hn & _ & _ & Hs & H).
  exists r. vm_compute in Hr. inversion Hr; subst r.
  split; [ | split; [reflexivity | vm_compute; reflexivity]].
  rewrite H, Hs. reflexivity.
Defined.

(* ================================================================= *)
(** ** More of old_files/lookup_engine.py *)

Module MoreLookupFacts.
Import Pandas PandasFacts Lookup RegexFacts.

(** [re.findall] returns words of the pattern that stand in the text. *)
Lemma findall_from_sound (r : regex) :
  forall s skip x,
    In x (findall_from r skip s) ->
    derives r x /\ exists pre post, s = pre ++ x ++ post.
Proof.
  induction s as [ | c t IH]; intros skip x H; [destruct H | ].
  cbn [findall_from] in H. destruct skip as [ | n].
  - destruct (match_at r (c :: t)) as [[[mt rest] g] | ] eqn:E.
    + apply match_at_sound in E as [E D].
      assert (In x (mt :: findall_from r (length mt - 1) t) \/
              In x ([] :: findall_from r 0 t) /\ mt = []) as Hx.
      { destruct mt; [right; auto | left; exact H]. }
      destruct Hx as [[<- | Hx] | [[<- | Hx] ->]].
      * split; [exact D | ]. exists [], rest. exact E.
      * apply IH in Hx as [Dx (pre & post & ->)].
        split; [exact Dx | ]. exists (c :: pre), post. reflexivity.
      * split; [exact D | ]. exists [], (c :: t). reflexivity.
      * apply IH in Hx as [Dx (pre & post & ->)].
        split; [exact Dx | ]. exists (c :: pre), post. reflexivity.
    + apply IH in H as [Dx (pre & post & ->)].
      split; [exact Dx | ]. exists (c :: pre), post. reflexivity.
  - apply IH in H as [Dx (pre & post & ->)].
    split; [exact Dx | ]. exists (c :: pre), post. reflexivity.
Qed.

Lemma re_findall_sound (r : regex) (s x : str) :
  In x (re_findall r s) -> derives r x /\ contains x s = true.
Proof.
  intros H. apply findall_from_sound in H as [D (pre & post & ->)].
  split; [exact D | apply contains_app].
Qed.

(** The first group of a pattern [(r1)c]. *)
Lemma first_group_chr (i : nat) (r1 : regex) (c : N) (s mt rest : str) (g : caps) :
  match_at (Seq (Grp i r1) (Chr c)) s = Some (mt, rest, g) ->
  exists d, group i g = Some d /\ derives r1 d /\ mt = d ++ [c].
Proof.
  unfold match_at. cbn [re_m]. intros H.
  apply re_m_sound in H as (s1 & s2 & g1 & -> & D & H).
  destruct s2 as [ | x t]; [discriminate | ].
  destruct (N.eqb_spec x c) as [-> | ]; [ | discriminate].
  injection H as <- <- <-. exists s1. cbn [group]. rewrite Nat.eqb_refl, consumed_app.
  split; [reflexivity | ]. split; [exact D | ].
  replace (s1 ++ c :: t) with ((s1 ++ [c]) ++ t) by (rewrite <- app_assoc; reflexivity).
  apply consumed_app.
Qed.

Lemma group1_chr (r1 : regex) (c : N) (s d : str) :
  group1 (re_search (Seq (Grp 1 r1) (Chr c)) s) = Some d ->
  derives r1 d /\ contains (d ++ [c]) s = true.
Proof.
  unfold group1. destruct (re_search _ s) as [m | ] eqn:E; [ | discriminate].
  intros Hg. pose proof (re_search_sound _ _ _ E) as [Hs _].
  apply CalcFacts.search_from_match in E as [s' E].
  apply first_group_chr in E as (d' & Hd & D & Ht).
  rewrite Hd in Hg. inversion Hg; subst d'.
  split; [exact D | ]. rewrite Hs, Ht. apply contains_app.
Qed.

Lemma name_ending_hangul (w : str) :
  In w NAME_ENDINGS -> Forall (fun c => is_hangul c = true) w.
Proof.
  unfold NAME_ENDINGS. intros H.
  repeat (destruct H as [<- | H]; [repeat constructor | ]). destruct H.
Qed.

Lemma sublist_sorted {A : Type} (R : relation A) (k l : list A) :
  sublist k l -> StronglySorted R l -> StronglySorted R k.
Proof.
  induction 1 as [ | x k l Hs IH | x k l Hs IH]; intros H.
  - constructor.
  - apply StronglySorted_inv in H as [H1 H2]. constructor; [apply IH; exact H1 | ].
    apply Forall_forall. intros y Hy. rewrite Forall_forall in H2. apply H2.
    apply list_elem_of_In. apply list_elem_of_In in Hy.
    revert Hy. clear -Hs. induction Hs; intros Hy;
      [exact Hy | destruct Hy as [-> | Hy]; [left; reflexivity | right; auto]
      | right; auto].
  - apply StronglySorted_inv in H as [H1 _]. apply IH. exact H1.
Qed.

Section Engine.
Variable U : Unicode.
Variable num_repr : Q -> str.
Variable raw_dataframes : gmap str DataFrame.
Variable get_column_mapping : str -> gmap str str.

Lemma derives_name_re (n : str) :
  derives name_re n -> (2 <= length n)%nat /\ Forall (fun c => is_hangul c = true) n.
Proof.
  unfold name_re, hangul. intros D.
  inversion D as [ | | | r1 r2 s1 s2 D1 D2 | | | | | | ]; subst.
  apply (derives_times_cls is_hangul 2) in D1 as [L1 F1].
  inversion D2 as [ | | | r1 r2 s3 s4 D3 D4 | | | | | | ]; subst.
  apply CalcFacts.derives_star_cls in D3.
  assert (Forall (fun c => is_hangul c = true) s4) as F4.
  { inversion D4 as [ | | | | r1 r2 s' D5 | r1 r2 s' D5 | | | | ]; subst.
    - apply (derives_alts_lit NAME_ENDINGS) in D5. apply name_ending_hangul. exact D5.
    - inversion D5. constructor. }
  split; [rewrite !length_app; lia | ].
  repeat (apply Forall_app; split); assumption.
Qed.

Lemma derives_code_re (c : str) :
  derives code_re c ->
  (3 <= length c)%nat /\
  Forall (fun x => ascii_upper x || ascii_digit x = true) c.
Proof.
  unfold code_re. intros D.
  inversion D as [ | | | r1 r2 s1 s2 D1 D2 | | | | | | ]; subst.
  apply (derives_times_cls (fun x => ascii_upper x || ascii_digit x) 3) in D1
    as [L1 F1].
  apply CalcFacts.derives_star_cls in D2.
  split; [rewrite length_app; lia | ].
  apply Forall_app; split; assumption.
Qed.

Lemma length_zfill2 (s : str) : (2 <= length (zfill2 s))%nat.
Proof. unfold zfill2. rewrite length_app, length_replicate. lia. Qed.

Lemma conditions_from_query (query : str) :
  let cond := _extract_search_conditions U query in
  (forall n, c_name cond = Some n ->
     contains n query = true /\ (2 <= length n)%nat /\
     Forall (fun c => is_hangul c = true) n /\ ~ In n QUESTION_WORDS) /\
  (forall y, c_year cond = Some y ->
     length y = 4%nat /\ Forall (fun c => is_digit U c = true) y /\
     contains (y ++ [Router.NYEON]) query = true) /\
  (forall m, c_month cond = Some m ->
     is_Some (c_year cond) /\ (2 <= length m)%nat /\
     exists m0, m = zfill2 m0 /\ m0 <> [] /\
                Forall (fun c => is_digit U c = true) m0 /\
                contains (m0 ++ [Router.WOL]) query = true) /\
  (forall c, c_code cond = Some c ->
     (3 <= length c)%nat /\
     Forall (fun x => ascii_upper x || ascii_digit x = true) c /\
     contains c query = true) /\
  (c_recent cond = contains RECENT query) /\
  (c_past cond = true -> c_recent cond = false /\ contains PAST query = true).
Proof.
  intros cond. subst cond. unfold _extract_search_conditions.
  cbn [c_name c_year c_month c_code c_recent c_past].
  split; [ | split; [ | split; [ | split; [ | split]]]].
  - intros n H. apply find_some in H as [Hin Hq].
    apply re_findall_sound in Hin as [D Hc].
    apply derives_name_re in D as [L F].
    split; [exact Hc | ]. split; [exact L | ]. split; [exact F | ].
    intros Hn. apply negb_true_iff in Hq.
    assert (existsb (str_eqb n) QUESTION_WORDS = true) as Hx; [ | congruence].
    apply existsb_exists. exists n. split; [exact Hn | apply MergeFacts.str_eqb_refl].
  - intros y H. apply group1_chr in H as [D Hc].
    apply derives_times_cls in D as [L F]. auto.
  - intros m H.
    destruct (group1 (re_search (year_re U) query)) as [y | ]; [ | discriminate].
    split; [eauto | ].
    destruct (group1 (re_search (month_re U) query)) as [m0 | ] eqn:E; [ | discriminate].
    cbn [option_map] in H. inversion H; subst m.
    split; [apply length_zfill2 | ].
    apply group1_chr in E as [D Hc].
    apply CalcFacts.derives_plus_cls in D as [Hne F].
    exists m0. auto.
  - intros c H.
    destruct (re_search code_re query) as [m | ] eqn:E; [ | discriminate].
    cbn [option_map] in H. inversion H; subst c.
    apply re_search_sound in E as [Hs D].
    apply derives_code_re in D as [L F].
    split; [exact L | ]. split; [exact F | ].
    rewrite Hs. apply contains_app.
  - reflexivity.
  - intros H. apply andb_prop in H as [H1 H2].
    apply negb_true_iff in H1. auto.
Qed.

Lemma keep_where_In (cond : option str) (col : option column)
    (decorate : str -> str) (rows : rows_of) (i : nat) :
  In i (keep_where num_repr cond col decorate rows) <->
  In i rows /\
  forall pat c, cond = Some pat -> col = Some c ->
                col_contains num_repr c (decorate pat) i = true.
Proof.
  unfold keep_where, select.
  destruct cond as [pat | ]; [destruct col as [c | ] | ].
  - rewrite filter_In. split.
    + intros [H1 H2]. split; [exact H1 | ].
      intros pat' c' E1 E2. inversion E1; inversion E2; subst. exact H2.
    + intros [H1 H2]. split; [exact H1 | apply H2; reflexivity].
  - split; [intros H; split; [exact H | intros; discriminate] | intros [H _]; exact H].
  - split; [intros H; split; [exact H | intros; discriminate] | intros [H _]; exact H].
Qed.

Lemma keep_where_sublist (cond : option str) (col : option column)
    (decorate : str -> str) (rows : rows_of) :
  sublist (keep_where num_repr cond col decorate rows) rows.
Proof.
  unfold keep_where, select.
  destruct cond, col; try reflexivity. apply MoreCalcFacts.filter_sublist.
Qed.

(** The rows left by the name filter. *)
Definition named (df : DataFrame) (cond : conditions) (i : nat) : Prop :=
  forall name, c_name cond = Some name ->
    omap (get_col (columns df)) [B_1; C_2] <> [] ->
    exists c, In c (omap (get_col (columns df)) [B_1; C_2]) /\
              col_contains num_repr c name i = true.

Lemma matching_In (df : DataFrame) (cond : conditions) (i : nat) :
  In i (matching num_repr df cond) <->
  (i < nrows df)%nat /\
  named df cond i /\
  (forall code c, c_code cond = Some code -> get_col (columns df) B_2 = Some c ->
                  col_contains num_repr c code i = true) /\
  (forall year c, c_year cond = Some year -> get_col (columns df) A_2 = Some c ->
                  col_contains num_repr c year i = true) /\
  (forall month c, c_month cond = Some month -> get_col (columns df) A_2 = Some c ->
                   col_contains num_repr c (hyphen :: month) i = true).
Proof.
  unfold matching. rewrite !keep_where_In. unfold id.
  assert (In i (all_rows df) <-> (i < nrows df)%nat) as Hall.
  { unfold all_rows. rewrite in_seq. lia. }
  unfold named.
  destruct (c_name cond) as [name | ].
  - destruct (omap (get_col (columns df)) [B_1; C_2]) as [ | c0 cs] eqn:E.
    + rewrite Hall. split.
      * intros (((Hi & H1) & H2) & H3). repeat split; try assumption.
        intros n _ Hne. contradiction.
      * intros (Hi & _ & H1 & H2 & H3). repeat split; assumption.
    + unfold select. rewrite filter_In, Hall, existsb_exists. split.
      * intros ((((Hi & c & Hc) & H1) & H2) & H3). repeat split; try assumption.
        intros n En _. inversion En; subst n. exists c. exact Hc.
      * intros (Hi & Hn & H1 & H2 & H3). repeat split; try assumption.
        apply (Hn name eq_refl). discriminate.
  - rewrite Hall. split.
    + intros (((Hi & H1) & H2) & H3). repeat split; try assumption.
      intros n En. discriminate.
    + intros (Hi & _ & H1 & H2 & H3). repeat split; assumption.
Qed.

Lemma matching_sublist (df : DataFrame) (cond : conditions) :
  sublist (matching num_repr df cond) (all_rows df).
Proof.
  unfold matching.
  repeat (etrans; [apply keep_where_sublist | ]).
  destruct (c_name cond); [ | reflexivity].
  destruct (omap _ _); [reflexivity | apply MoreCalcFacts.filter_sublist].
Qed.

Lemma found_rows_subset (df : DataFrame) (cond : conditions) (i : nat) :
  In i (found_rows num_repr df cond) -> In i (matching num_repr df cond).
Proof.
  unfold found_rows, head. intros H.
  apply list_elem_of_In in H. apply (subseteq_take 10) in H.
  apply list_elem_of_In.
  destruct (c_recent cond); [ | exact H].
  destruct (get_col (columns df) A_2); [ | exact H].
  rewrite sort_values_perm in H. exact H.
Qed.

Lemma found_rows_all (df : DataFrame) (cond : conditions) :
  (length (matching num_repr df cond) <= 10)%nat ->
  found_rows num_repr df cond ≡ₚ matching num_repr df cond.
Proof.
  intros H. unfold found_rows, head.
  destruct (c_recent cond); [ | rewrite take_ge by lia; reflexivity].
  destruct (get_col (columns df) A_2) as [dates | ];
    [ | rewrite take_ge by lia; reflexivity].
  rewrite take_ge.
  - apply sort_values_perm.
  - rewrite (Permutation_length (sort_values_perm _ _ _)). lia.
Qed.

Lemma found_rows_in_order (df : DataFrame) (cond : conditions) :
  c_recent cond = false \/ get_col (columns df) A_2 = None ->
  found_rows num_repr df cond = take 10 (matching num_repr df cond) /\
  StronglySorted lt (found_rows num_repr df cond).
Proof.
  intros H.
  assert (found_rows num_repr df cond = take 10 (matching num_repr df cond)) as E.
  { unfold found_rows, head. destruct H as [-> | ->]; [reflexivity | ].
    destruct (c_recent cond); reflexivity. }
  split; [exact E | ]. rewrite E.
  assert (StronglySorted lt (all_rows df)) as Hs.
  { unfold all_rows. generalize 0%nat. induction (nrows df) as [ | n IH]; intros k.
    - constructor.
    - simpl. constructor; [apply IH | ].
      apply Forall_forall. intros j Hj. apply list_elem_of_In, in_seq in Hj. lia. }
  apply (sublist_sorted lt _ (all_rows df)); [ | exact Hs].
  etrans; [apply sublist_take | apply matching_sublist].
Qed.

Lemma fields_of_record (dataset_name : str) (df : DataFrame) (i : nat)
    (col v : str) :
  In (col, v) (r_fields (to_record U num_repr get_column_mapping dataset_name df i)) <->
  exists name c,
    In (name, c) (columns df) /\
    col = translate get_column_mapping dataset_name name /\
    cell_at c i <> NaN /\
    v = (if _is_sensitive col
         then Utils.mask_sensitive_info U (cell_text num_repr (cell_at c i))
         else cell_text num_repr (cell_at c i)).
Proof.
  unfold to_record. cbn [r_fields].
  rewrite <- list_elem_of_In, list_elem_of_omap. split.
  - intros ([name c] & Hin & H). exists name, c.
    apply list_elem_of_In in Hin. split; [exact Hin | ].
    destruct (cell_at c i) eqn:E; [discriminate | | ];
      inversion H; subst; (split; [reflexivity | ]); (split; [discriminate | reflexivity]).
  - intros (name & c & Hin & -> & Hc & ->). exists (name, c).
    split; [apply list_elem_of_In; exact Hin | ].
    destruct (cell_at c i) eqn:E; [contradiction | reflexivity | reflexivity].
Qed.
End Engine.
End MoreLookupFacts.

(** X12. Every search condition is read from the query text: the name
    is a run of at least two Hangul syllables that stands in the query
    and is not one of the excluded question words; the year is four
    digits followed by 년 in the query; a month is only set together
    with a year and is the digits before 월 padded to two characters;
    the code is a run of at least three capitals or ASCII digits of the
    query; 지난 counts only when 최근 is absent. *)
Theorem search_conditions_from_query (U : Unicode) (query : str) :
  let cond := Lookup._extract_search_conditions U query in
  (forall n, Lookup.c_name cond = Some n ->
     contains n query = true /\ (2 <= length n)%nat /\
     Forall (fun c => is_hangul c = true) n /\ ~ In n Lookup.QUESTION_WORDS) /\
  (forall y, Lookup.c_year cond = Some y ->
     length y = 4%nat /\ Forall (fun c => is_digit U c = true) y /\
     contains (y ++ [Router.NYEON]) query = true) /\
  (forall m, Lookup.c_month cond = Some m ->
     is_Some (Lookup.c_year cond) /\ (2 <= length m)%nat /\
     exists m0, m = zfill2 m0 /\ m0 <> [] /\
                Forall (fun c => is_digit U c = true) m0 /\
                contains (m0 ++ [Router.WOL]) query = true) /\
  (forall c, Lookup.c_code cond = Some c ->
     (3 <= length c)%nat /\
     Forall (fun x => ascii_upper x || ascii_digit x = true) c /\
     contains c query = true) /\
  (Lookup.c_recent cond = contains Lookup.RECENT query) /\
  (Lookup.c_past cond = true ->
   Lookup.c_recent cond = false /\ contains Lookup.PAST query = true).
Proof. apply MoreLookupFacts.conditions_from_query. Qed.

(** X13. Every record found in a table is a row of that table that
    passes each filter that applies: some name column (B-1, C-2) of the
    row contains the name, B-2 contains the code, A-2 contains the year
    and the text [-MM] of the month; a filter whose condition or column
    is missing is skipped. *)
Theorem lookup_rows_match (U : Unicode) (num_repr : Q -> str)
    (raw_dataframes : gmap str Pandas.DataFrame)
    (get_column_mapping : str -> gmap str str)
    (dataset_name : str) (cond : Lookup.conditions) (df : Pandas.DataFrame)
    (r : Lookup.record) :
  raw_dataframes !! dataset_name = Some df ->
  In r (Lookup._search_in_dataset U num_repr raw_dataframes get_column_mapping
          dataset_name cond) ->
  let i := Lookup.r_row_id r in
  r = Lookup.to_record U num_repr get_column_mapping dataset_name df i /\
  (i < Pandas.nrows df)%nat /\
  MoreLookupFacts.named num_repr df cond i /\
  (forall code c,
      Lookup.c_code cond = Some code ->
      Pandas.get_col (Pandas.columns df) Lookup.B_2 = Some c ->
      Pandas.col_contains num_repr c code i = true) /\
  (forall year c,
      Lookup.c_year cond = Some year ->
      Pandas.get_col (Pandas.columns df) Lookup.A_2 = Some c ->
      Pandas.col_contains num_repr c year i = true) /\
  (forall month c,
      Lookup.c_month cond = Some month ->
      Pandas.get_col (Pandas.columns df) Lookup.A_2 = Some c ->
      Pandas.col_contains num_repr c (hyphen :: month) i = true).
Proof.
  intros Hdf Hr i. unfold Lookup._search_in_dataset in Hr. rewrite Hdf in Hr.
  apply in_map_iff in Hr as (j & <- & Hj). subst i. cbn [Lookup.r_row_id Lookup.to_record].
  split; [reflexivity | ].
  apply MoreLookupFacts.found_rows_subset in Hj.
  apply (MoreLookupFacts.matching_In num_repr) in Hj. exact Hj.
Qed.

Lemma lookup_rows_match_witness :
  let r := Lookup.to_record plain LookupSamples.no_numbers LookupSamples.no_mapping
             Lookup.JOURNAL LookupSamples.visits 3 in
  In r (Lookup._search_in_dataset plain LookupSamples.no_numbers
          LookupSamples.journal_only LookupSamples.no_mapping Lookup.JOURNAL
          (Lookup._extract_search_conditions plain LookupSamples.recent_visit)) /\
  (Lookup.r_row_id r < 4)%nat.
Proof.
  intros r.
  assert (In r (Lookup._search_in_dataset plain LookupSamples.no_numbers
                  LookupSamples.journal_only LookupSamples.no_mapping Lookup.JOURNAL
                  (Lookup._extract_search_conditions plain LookupSamples.recent_visit)))
    as Hr by (vm_compute; left; reflexivity).
  split; [exact Hr | ].
  assert (LookupSamples.journal_only !! Lookup.JOURNAL = Some LookupSamples.visits)
    as Hdf by (vm_compute; reflexivity).
  destruct (lookup_rows_match plain LookupSamples.no_numbers LookupSamples.journal_only
              LookupSamples.no_mapping Lookup.JOURNAL
              (Lookup._extract_search_conditions plain LookupSamples.recent_visit)
              LookupSamples.visits r Hdf Hr) as (_ & Hi & _).
  exact Hi.
Defined.

(** X14. For a query without 최근, or on a table without the date
    column A-2, the records of a table are its first ten matching rows
    in file order: the row ids are strictly increasing. *)
Theorem lookup_file_order (U : Unicode) (num_repr : Q -> str)
    (raw_dataframes : gmap str Pandas.DataFrame)
    (get_column_mapping : str -> gmap str str)
    (dataset_name : str) (cond : Lookup.conditions) (df : Pandas.DataFrame) :
  raw_dataframes !! dataset_name = Some df ->
  Lookup.c_recent cond = false \/
  Pandas.get_col (Pandas.columns df) Lookup.A_2 = None ->
  let ids :=
    map Lookup.r_row_id
        (Lookup._search_in_dataset U num_repr raw_dataframes get_column_mapping
           dataset_name cond) in
  ids = take 10 (Lookup.matching num_repr df cond) /\ StronglySorted lt ids.
Proof.
  intros Hdf H ids. subst ids. unfold Lookup._search_in_dataset. rewrite Hdf.
  rewrite LookupFacts.row_ids. apply MoreLookupFacts.found_rows_in_order. exact H.
Qed.

Lemma lookup_file_order_witness :
  map Lookup.r_row_id
      (Lookup._search_in_dataset plain LookupSamples.no_numbers
         LookupSamples.journal_only LookupSamples.no_mapping Lookup.JOURNAL
         (Lookup._extract_search_conditions plain (u "한국상사 방문")))
  = [0; 2; 3]%nat.
Proof.
  assert (LookupSamples.journal_only !! Lookup.JOURNAL = Some LookupSamples.visits)
    as Hdf by (vm_compute; reflexivity).
  destruct (lookup_file_order plain LookupSamples.no_numbers LookupSamples.journal_only
              LookupSamples.no_mapping Lookup.JOURNAL
              (Lookup._extract_search_conditions plain (u "한국상사 방문"))
              LookupSamples.visits Hdf (or_introl eq_refl)) as [H _].
  rewrite H. vm_compute. reflexivity.
Defined.

(** X15. Nothing is dropped while at most ten rows match: the records
    of a table are then exactly its matching rows, each once. *)
Theorem lookup_complete (U : Unicode) (num_repr : Q -> str)
    (raw_dataframes : gmap str Pandas.DataFrame)
    (get_column_mapping : str -> gmap str str)
    (dataset_name : str) (cond : Lookup.conditions) (df : Pandas.DataFrame) :
  raw_dataframes !! dataset_name = Some df ->
  (length (Lookup.matching num_repr df cond) <= 10)%nat ->
  map Lookup.r_row_id
      (Lookup._search_in_dataset U num_repr raw_dataframes get_column_mapping
         dataset_name cond)
  ≡ₚ Lookup.matching num_repr df cond.
Proof.
  intros Hdf H. unfold Lookup._search_in_dataset. rewrite Hdf.
  rewrite LookupFacts.row_ids. apply MoreLookupFacts.found_rows_all. exact H.
Qed.

Lemma lookup_complete_witness :
  Lookup.matching LookupSamples.no_numbers LookupSamples.visits
    (Lookup._extract_search_conditions plain LookupSamples.recent_visit)
  = [0; 2; 3]%nat /\
  map Lookup.r_row_id
      (Lookup._search_in_dataset plain LookupSamples.no_numbers
         LookupSamples.journal_only LookupSamples.no_mapping Lookup.JOURNAL
         (Lookup._extract_search_conditions plain LookupSamples.recent_visit))
  ≡ₚ [0; 2; 3]%nat.
Proof.
  assert (Lookup.matching LookupSamples.no_numbers LookupSamples.visits
            (Lookup._extract_search_conditions plain LookupSamples.recent_visit)
          = [0; 2; 3]%nat) as E by (vm_compute; reflexivity).
  split; [exact E | ]. rewrite <- E.
  apply (lookup_complete plain LookupSamples.no_numbers LookupSamples.journal_only
           LookupSamples.no_mapping Lookup.JOURNAL
           (Lookup._extract_search_conditions plain LookupSamples.recent_visit)
           LookupSamples.visits).
  - vm_compute. reflexivity.
  - rewrite E. simpl. lia.
Defined.

(** X16. The fields of a record are the cells of its row that are not
    NaN, under the translated column names: the value is the text of the
    cell, passed through the masking when the translated name contains
    a sensitive keyword, so it differs from the stored text at most in
    digits replaced by asterisks. *)
Theorem record_fields (U : Unicode) (num_repr : Q -> str)
    (get_column_mapping : str -> gmap str str)
    (dataset_name : str) (df : Pandas.DataFrame) (i : nat) (col v : str) :
  In (col, v)
     (Lookup.r_fields (Lookup.to_record U num_repr get_column_mapping dataset_name df i)) ->
  exists name c,
    In (name, c) (Pandas.columns df) /\
    col = Lookup.translate get_column_mapping dataset_name name /\
    Pandas.cell_at c i <> Pandas.NaN /\
    Forall2 (MoreUtils.masked_char U) v
            (Pandas.cell_text num_repr (Pandas.cell_at c i)) /\
    (Lookup._is_sensitive col = false ->
     v = Pandas.cell_text num_repr (Pandas.cell_at c i)).
Proof.
  intros H. apply MoreLookupFacts.fields_of_record in H as (name & c & Hin & -> & Hc & ->).
  exists name, c. split; [exact Hin | ]. split; [reflexivity | ]. split; [exact Hc | ].
  destruct (Lookup._is_sensitive _).
  - split; [apply MoreMaskFacts.mask_pointwise | discriminate].
  - split; [ | reflexivity].
    apply Forall2_same_length_lookup_2; [reflexivity | ].
    intros k x y Hx Hy. rewrite Hx in Hy. inversion Hy. left. reflexivity.
Qed.

(** A client table with a phone column. *)
Module MoreLookupSamples.
Import Pandas Lookup.

Definition PHONE : str := Eval vm_compute in u "전화번호".

Definition clients : DataFrame :=
  {| nrows := 1;
     columns :=
       [(B_1, ObjCol [Some (u "한국상사")]);
        (PHONE, ObjCol [Some (u "02-1234-5678")]);
        (u "memo", ObjCol [None])] |}.
End MoreLookupSamples.

Lemma record_fields_witness :
  Lookup.r_fields (Lookup.to_record plain LookupSamples.no_numbers
                     LookupSamples.no_mapping Lookup.CLIENTS
                     MoreLookupSamples.clients 0)
  = [(Lookup.B_1, u "한국상사"); (MoreLookupSamples.PHONE, u "02-****-5678")] /\
  exists name c,
    In (name, c) (Pandas.columns MoreLookupSamples.clients) /\
    Forall2 (MoreUtils.masked_char plain) (u "02-****-5678")
            (Pandas.cell_text LookupSamples.no_numbers (Pandas.cell_at c 0)).
Proof.
  split; [vm_compute; reflexivity | ].
  destruct (record_fields plain LookupSamples.no_numbers LookupSamples.no_mapping
              Lookup.CLIENTS MoreLookupSamples.clients 0
              MoreLookupSamples.PHONE (u "02-****-5678"))
    as (name & c & Hin & _ & _ & H & _).
  - vm_compute. right. left. reflexivity.
  - exists name, c. split; [exact Hin | exact H].
Defined.

(* ================================================================= *)
(** ** More of smart_analyst.py: the join over any number of tables *)

Module MoreJoinFacts.
Import Pandas Join JoinFacts MergeFacts HeuristicFacts.

Lemma important_no_underscore (col : str) :
  is_important col = true -> 95%N ∉ col.
Proof.
  unfold is_important. intros H. apply existsb_exists in H as (w & Hw & E).
  apply str_eqb_eq in E. subst w. unfold important_cols in Hw.
  repeat (destruct Hw as [<- | Hw];
          [intros H; repeat (apply elem_of_cons in H as [H | H]; [discriminate | ]);
           inversion H | ]).
  destruct Hw.
Qed.

(** The new name of a column. *)
Definition renamed (filename col : str) : str :=
  if is_important col then col else file_prefix filename ++ [95%N] ++ col.

Lemma renamed_inj (filename a b : str) :
  renamed filename a = renamed filename b -> a = b.
Proof.
  unfold renamed.
  destruct (is_important a) eqn:Ea, (is_important b) eqn:Eb; intros H.
  - exact H.
  - exfalso. apply (important_no_underscore a Ea). rewrite H.
    apply elem_of_app. right. left.
  - exfalso. apply (important_no_underscore b Eb). rewrite <- H.
    apply elem_of_app. right. left.
  - apply app_inv_head in H. apply app_inv_head in H. exact H.
Qed.

Lemma rename_columns_names (filename : str) (df : DataFrame) :
  map fst (columns (rename_columns filename df))
  = map (renamed filename) (map fst (columns df)).
Proof.
  unfold rename_columns. cbn [columns].
  induction (columns df) as [ | [col c] cols IH]; [reflexivity | ].
  cbn [map fst]. rewrite IH. reflexivity.
Qed.

Lemma get_col_None (cols : list (str * column)) (name : str) :
  get_col cols name = None -> ~ In name (map fst cols).
Proof.
  induction cols as [ | [n c] cols IH]; simpl; [tauto | ].
  destruct (str_eqb n name) eqn:E; [discriminate | ].
  intros H [-> | Hin]; [rewrite str_eqb_refl in E; discriminate | ].
  apply IH; assumption.
Qed.

Section Heuristic.
Variable U : Unicode.
Variable num_repr : Q -> str.
Variable merge_refuses : DataFrame -> DataFrame -> bool.

Lemma with_company_names (m : gmap str str) (df : DataFrame) :
  NoDup (map fst (columns df)) ->
  NoDup (map fst (columns (with_company U num_repr m df))).
Proof.
  intros H. unfold with_company.
  destruct (get_col (columns df) COMPANY) eqn:E1; [exact H | ].
  apply get_col_None in E1.
  assert (NoDup (map fst (columns df ++ [(COMPANY, ObjCol [])]))) as H'.
  { rewrite map_app. apply NoDup_app. split; [exact H | ]. split.
    - intros x Hx Hc. apply list_elem_of_singleton in Hc. subst x.
      apply E1. apply list_elem_of_In. exact Hx.
    - apply NoDup_singleton. }
  rewrite map_app in H'.
  destruct (get_col (columns df) COMPANY_NAME);
    [cbn [columns]; rewrite map_app; exact H' | ].
  destruct (get_col (columns df) COMPANY_CODE);
    [cbn [columns]; rewrite map_app; exact H' | exact H].
Qed.

Lemma prepare_names (m : gmap str str) (filename : str) (df : DataFrame) :
  NoDup (map fst (columns df)) ->
  NoDup (map fst (columns (prepare U num_repr m filename df))).
Proof.
  intros H. unfold prepare. rewrite rename_columns_names.
  assert (Inj eq eq (renamed filename)) as Hinj
    by (intros a b; apply renamed_inj).
  apply (NoDup_fmap_2 (renamed filename)).
  apply with_company_names. exact H.
Qed.

Lemma pd_merge_rows (i : nat) (left right merged : DataFrame) :
  pd_merge merge_refuses i left right = Ok merged ->
  (nrows left <= nrows merged)%nat /\ (nrows right <= nrows merged)%nat.
Proof.
  unfold pd_merge. destruct (merge_refuses left right); [discriminate | ].
  destruct (outer_merge COMPANY (95%N :: nat_repr i) left right) as [df | ] eqn:E;
    [ | discriminate].
  intros H. inversion H; subst df.
  apply outer_merge_rows in E as [E _]. lia.
Qed.

Lemma merge_all_rows (rest : list (str * DataFrame)) :
  forall i init out,
    merge_all merge_refuses i init rest = Ok out ->
    (nrows init <= nrows out)%nat /\
    forall f df, In (f, df) rest -> (nrows df <= nrows out)%nat.
Proof.
  induction rest as [ | [f0 df0] rest IH]; intros i init out H; simpl in H.
  - inversion H; subst. split; [lia | ]. intros f df [].
  - destruct (pd_merge merge_refuses i init df0) as [merged | ] eqn:E; [ | discriminate].
    apply pd_merge_rows in E as [E1 E2].
    apply IH in H as [H1 H2]. split; [lia | ].
    intros f df [Hin | Hin].
    + inversion Hin; subst. lia.
    + apply (H2 f df Hin).
Qed.

Lemma joinable_dfs_In (dataframes : list (str * DataFrame)) (f : str) (df : DataFrame) :
  In (f, df) dataframes -> joinable df = true ->
  exists p, In (f, p) (joinable_dfs U num_repr dataframes) /\ nrows p = nrows df.
Proof.
  intros Hin Hj. unfold joinable_dfs.
  exists (prepare U num_repr (code_to_name_map U num_repr dataframes) f df).
  split.
  - apply list_elem_of_In, list_elem_of_omap. exists (f, df).
    split; [apply list_elem_of_In; exact Hin | ]. rewrite Hj. reflexivity.
  - apply prepare_cells.
Qed.

Lemma join_many (dataframes : list (str * DataFrame)) (joined : DataFrame) :
  _join_dataframes U num_repr merge_refuses dataframes = Some joined ->
  forall f df, In (f, df) dataframes -> joinable df = true ->
               (nrows df <= nrows joined)%nat.
Proof.
  unfold _join_dataframes, join_body. intros H f df Hin Hj.
  destruct (joinable_dfs_In dataframes f df Hin Hj) as (p & Hp & <-).
  destruct (joinable_dfs U num_repr dataframes) as [ | [fa a] [ | [fb b] l]];
    [discriminate | discriminate | ].
  destruct (merge_all merge_refuses 1 a ((fb, b) :: l)) as [out | ] eqn:E;
    [ | discriminate].
  inversion H; subst out.
  apply merge_all_rows in E as [E1 E2].
  destruct Hp as [Hp | Hp].
  - inversion Hp; subst. exact E1.
  - apply (E2 f p Hp).
Qed.
End Heuristic.
End MoreJoinFacts.

(** X17. However many tables are joined, no table loses rows to the
    join: when [_join_dataframes] returns a table, it has at least as
    many rows as each input table that has a company column. *)
Theorem join_keeps_row_counts (U : Unicode) (num_repr : Q -> str)
    (merge_refuses : Pandas.DataFrame -> Pandas.DataFrame -> bool)
    (dataframes : list (str * Pandas.DataFrame)) (joined : Pandas.DataFrame)
    (f : str) (df : Pandas.DataFrame) :
  Join._join_dataframes U num_repr merge_refuses dataframes = Some joined ->
  In (f, df) dataframes ->
  Join.joinable df = true ->
  (Pandas.nrows df <= Pandas.nrows joined)%nat.
Proof.
  intros H Hin Hj.
  apply (MoreJoinFacts.join_many U num_repr merge_refuses dataframes joined H f df Hin Hj).
Qed.

(** X18. Preparing a table for the join keeps its rows, gives it the
    key column 거래처, and keeps its column names distinct: the names
    on the list of important columns stay, every other name gets the
    file prefix and an underscore, and no two names fall together. *)
Theorem prepare_keeps_names_distinct (U : Unicode) (num_repr : Q -> str)
    (m : gmap str str) (filename : str) (df : Pandas.DataFrame) :
  Join.joinable df = true ->
  NoDup (map fst (Pandas.columns df)) ->
  let p := Join.prepare U num_repr m filename df in
  Pandas.nrows p = Pandas.nrows df /\
  Pandas.has_col p Join.COMPANY = true /\
  NoDup (map fst (Pandas.columns p)) /\
  forall col, In col (map fst (Pandas.columns p)) ->
    Join.is_important col = true \/
    exists col0, Join.is_important col0 = false /\
                 col = Join.file_prefix filename ++ [95%N] ++ col0.
Proof.
  intros Hj Hn p. subst p.
  split; [apply HeuristicFacts.prepare_cells | ]. split.
  - unfold Pandas.has_col.
    destruct (HeuristicFacts.prepare_has_key U num_repr m filename df Hj) as [c ->].
    reflexivity.
  - split; [apply MoreJoinFacts.prepare_names; exact Hn | ].
    intros col Hc. unfold Join.prepare in Hc.
    rewrite MoreJoinFacts.rename_columns_names in Hc.
    apply in_map_iff in Hc as (col0 & <- & _). unfold MoreJoinFacts.renamed.
    destruct (Join.is_important col0) eqn:E; [left; exact E | right].
    exists col0. auto.
Qed.

(** Three tables with a company column of one kind or another. *)
Module MoreJoinSamples.
Import Pandas Join.

Definition orders_file : str := Eval vm_compute in u "orders.csv".

(** Orders that name the company by its code only. *)
Definition orders : DataFrame :=
  {| nrows := 4;
     columns := [(COMPANY_CODE, JoinSamples.texts ["C1"; "C2"; "C1"; "C9"]%string);
                 (u "수량", NumCol [Some 1; Some 2; Some 3; Some 4])] |}.

Definition codes_file : str := Eval vm_compute in u "codes.csv".

Definition codes : DataFrame :=
  {| nrows := 2;
     columns := [(COMPANY_CODE, JoinSamples.texts ["C1"; "C2"]%string);
                 (COMPANY_NAME, JoinSamples.texts ["가나상사"; "다라전자"]%string)] |}.

Definition three : list (str * DataFrame) :=
  [(JoinSamples.sales_file, JoinSamples.sales);
   (codes_file, codes);
   (orders_file, orders)].
End MoreJoinSamples.

Example join_three_tables :
  option_map
    (fun df => (Pandas.nrows df, map fst (Pandas.columns df)))
    (Join._join_dataframes plain JoinSamples.no_numbers JoinSamples.accepts
       MoreJoinSamples.three)
  = Some (6%nat, [u "거래처"; u "합계"; u "거래처 코드"; u "거래처명";
                  u "거래처 코드_2"; u "orders_수량"]).
Proof. vm_compute. reflexivity. Qed.

Lemma join_keeps_row_counts_witness :
  exists joined,
    Join._join_dataframes plain JoinSamples.no_numbers JoinSamples.accepts
      MoreJoinSamples.three = Some joined /\
    (4 <= Pandas.nrows joined)%nat.
Proof.
  destruct (Join._join_dataframes plain JoinSamples.no_numbers JoinSamples.accepts
              MoreJoinSamples.three) as [joined | ] eqn:E;
    [ | vm_compute in E; discriminate].
  exists joined. split; [reflexivity | ].
  apply (join_keeps_row_counts plain JoinSamples.no_numbers JoinSamples.accepts
           MoreJoinSamples.three joined MoreJoinSamples.orders_file
           MoreJoinSamples.orders E).
  - right. right. left. reflexivity.
  - reflexivity.
Defined.

Lemma prepare_keeps_names_distinct_witness :
  map fst (Pandas.columns
             (Join.prepare plain JoinSamples.no_numbers ∅ JoinSamples.clients_file
                JoinSamples.clients))
  = [u "거래처명"; u "clients__지역"; u "거래처"] /\
  NoDup (map fst (Pandas.columns
                    (Join.prepare plain JoinSamples.no_numbers ∅
                       JoinSamples.clients_file JoinSamples.clients))).
Proof.
  split; [vm_compute; reflexivity | ].
  apply (prepare_keeps_names_distinct plain JoinSamples.no_numbers ∅
           JoinSamples.clients_file JoinSamples.clients).
  - reflexivity.
  - vm_compute. repeat constructor; intros H;
      repeat (apply elem_of_cons in H as [H | H]; [discriminate | ]); inversion H.
Defined.

(* ================================================================= *)
(** ** upload_handler.py: reading an upload and the list of uploads *)

Module Upload.

(** The encodings tried by [_process_csv]: those of config.py, then
    latin-1. *)
Inductive encoding : Type :=
| Known (e : Loader.encoding)
| Latin1.

Definition ENCODINGS : list encoding :=
  [Known Loader.Utf8Sig; Known Loader.Utf8; Known Loader.Cp949; Known Loader.EucKr;
   Latin1].

Section WithFrames.
Context {DF : Type}.

(** What [pd.read_csv(io.BytesIO(file_bytes), encoding=e)] does. *)
Variable read_csv : encoding -> Loader.outcome DF.

(** The [for] loop of [_process_csv]: the bare [except] goes on to the
    next encoding whatever was raised. *)
Fixpoint try_all (encodings : list encoding) : option DF :=
  match encodings with
  | [] => None
  | e :: rest =>
    match read_csv e with
    | Loader.Parsed df => Some df
    | _ => try_all rest
    end
  end.

(** The frame [_process_csv] goes on with, or its [ValueError]. *)
Definition read_upload : result DF :=
  match try_all ENCODINGS with
  | Some df => Ok df
  | None => Raise
  end.

Definition failed (e : encoding) : Prop := forall df, read_csv e <> Loader.Parsed df.
End WithFrames.

(** [UploadedFile.type] *)
Inductive file_type : Type := Csv | Excel | Image | Pdf.

(** [UploadedFile]; [size] and [summary] are not used by the functions
    below. *)
Record UploadedFile (C : Type) : Type := {
  name : str;
  type : file_type;
  content : C
}.

Arguments name {C} _.
Arguments type {C} _.
Arguments content {C} _.

(** A Python dict with string keys: the entries in insertion order. *)
Fixpoint dict_set {V : Type} (d : list (str * V)) (k : str) (v : V) : list (str * V) :=
  match d with
  | [] => [(k, v)]
  | (k', v') :: rest =>
    if str_eqb k' k then (k', v) :: rest else (k', v') :: dict_set rest k v
  end.

Fixpoint dict_get {V : Type} (d : list (str * V)) (k : str) : option V :=
  match d with
  | [] => None
  | (k', v) :: rest => if str_eqb k' k then Some v else dict_get rest k
  end.

Section Store.
Context {C : Type}.

(** [file.type in ['csv', 'excel']] *)
Definition tabular (f : UploadedFile C) : bool :=
  match type f with Csv | Excel => true | _ => false end.

(** [add_file] on the list [uploaded_files] *)
Definition add_file (uploaded_files : list (UploadedFile C)) (f : UploadedFile C)
  : list (UploadedFile C) :=
  uploaded_files ++ [f].

(** [get_all_dataframes] *)
Definition get_all_dataframes (uploaded_files : list (UploadedFile C)) : list (str * C) :=
  fold_left (fun dataframes file =>
               if tabular file then dict_set dataframes (name file) (content file)
               else dataframes)
            uploaded_files [].

(** [get_file_by_name] *)
Definition get_file_by_name (uploaded_files : list (UploadedFile C)) (n : str)
  : option (UploadedFile C) :=
  List.find (fun file => str_eqb (name file) n) uploaded_files.

(** [clear_files] *)
Definition clear_files (uploaded_files : list (UploadedFile C)) : list (UploadedFile C) :=
  [].

(** The last table uploaded under a name. *)
Definition last_table (uploaded_files : list (UploadedFile C)) (n : str)
  : option (UploadedFile C) :=
  List.find (fun file => tabular file && str_eqb (name file) n) (rev uploaded_files).
End Store.
End Upload.

Module UploadFacts.
Import Upload.

Section WithFrames.
Context {DF : Type}.
Variable read_csv : encoding -> Loader.outcome DF.

Lemma try_all_spec (encodings : list encoding) :
  match try_all read_csv encodings with
  | Some df =>
    exists pre e post,
      encodings = pre ++ e :: post /\ Forall (failed read_csv) pre /\
      read_csv e = Loader.Parsed df
  | None => Forall (failed read_csv) encodings
  end.
Proof.
  induction encodings as [ | e rest IH]; simpl; [constructor | ].
  destruct (read_csv e) as [df | | | ] eqn:E.
  1: exists [], e, rest; auto.
  all: assert (failed read_csv e) as He by (intros df; rewrite E; discriminate).
  all: destruct (try_all read_csv rest) as [df | ];
    [ destruct IH as (pre & e' & post & -> & Hpre & He');
      exists (e :: pre), e', post; split; [reflexivity | ];
      split; [constructor; assumption | assumption]
    | constructor; assumption ].
Qed.

(** Where the loader of utils.py gets a frame, the upload gets the
    same frame. *)
Lemma try_all_after_loader (encodings : list Loader.encoding) (more : list encoding)
    (df : DF) :
  Loader.try_encodings (fun e => read_csv (Known e)) encodings = Some df ->
  try_all read_csv (map Known encodings ++ more) = Some df.
Proof.
  induction encodings as [ | e rest IH]; simpl; [discriminate | ].
  destruct (read_csv (Known e)); auto; discriminate.
Qed.
End WithFrames.

Section Dict.
Context {V : Type}.

Lemma dict_get_set_eq (d : list (str * V)) (k : str) (v : V) :
  dict_get (dict_set d k v) k = Some v.
Proof.
  induction d as [ | [k' v'] d IH]; simpl.
  - rewrite MergeFacts.str_eqb_refl. reflexivity.
  - destruct (str_eqb k' k) eqn:E; simpl; rewrite E; [reflexivity | exact IH].
Qed.

Lemma dict_get_set_ne (d : list (str * V)) (k k' : str) (v : V) :
  str_eqb k k' = false -> dict_get (dict_set d k v) k' = dict_get d k'.
Proof.
  intros Hne. induction d as [ | [k0 v0] d IH]; simpl.
  - rewrite Hne. reflexivity.
  - destruct (str_eqb k0 k) eqn:E; simpl.
    + apply MergeFacts.str_eqb_eq in E. subst k0. rewrite Hne. reflexivity.
    + rewrite IH. reflexivity.
Qed.

Lemma dict_get_None (d : list (str * V)) (k : str) :
  dict_get d k = None -> ~ In k (map fst d).
Proof.
  induction d as [ | [k' v] d IH]; simpl; [tauto | ].
  destruct (str_eqb k' k) eqn:E; [discriminate | ].
  intros H [-> | Hin]; [rewrite MergeFacts.str_eqb_refl in E; discriminate | ].
  apply IH; assumption.
Qed.

Lemma dict_set_keys (d : list (str * V)) (k : str) (v : V) :
  map fst (dict_set d k v)
  = match dict_get d k with
    | Some _ => map fst d
    | None => map fst d ++ [k]
    end.
Proof.
  induction d as [ | [k' v'] d IH]; simpl; [reflexivity | ].
  destruct (str_eqb k' k) eqn:E; simpl; [reflexivity | ].
  rewrite IH. destruct (dict_get d k); reflexivity.
Qed.

Lemma dict_set_NoDup (d : list (str * V)) (k : str) (v : V) :
  NoDup (map fst d) -> NoDup (map fst (dict_set d k v)).
Proof.
  intros H. rewrite dict_set_keys.
  destruct (dict_get d k) eqn:E; [exact H | ].
  apply NoDup_app. split; [exact H | ]. split; [ | apply NoDup_singleton].
  intros x Hx Hk. apply list_elem_of_singleton in Hk. subst x.
  apply (dict_get_None d k E). apply list_elem_of_In. exact Hx.
Qed.
End Dict.

Section Store.
Context {C : Type}.

Lemma get_all_dataframes_snoc (files : list (UploadedFile C)) (f : UploadedFile C) :
  get_all_dataframes (add_file files f)
  = if tabular f
    then dict_set (get_all_dataframes files) (name f) (content f)
    else get_all_dataframes files.
Proof. unfold get_all_dataframes, add_file. rewrite fold_left_app. reflexivity. Qed.

Lemma get_all_dataframes_NoDup (files : list (UploadedFile C)) :
  NoDup (map fst (get_all_dataframes files)).
Proof.
  induction files as [ | f files IH] using rev_ind; [constructor | ].
  fold (add_file files f). rewrite get_all_dataframes_snoc.
  destruct (tabular f); [apply dict_set_NoDup | ]; exact IH.
Qed.

Lemma get_all_dataframes_get (files : list (UploadedFile C)) (n : str) :
  dict_get (get_all_dataframes files) n = option_map content (last_table files n).
Proof.
  unfold last_table.
  induction files as [ | f files IH] using rev_ind; [reflexivity | ].
  fold (add_file files f). rewrite get_all_dataframes_snoc.
  unfold add_file. rewrite rev_app_distr. cbn [rev app List.find].
  destruct (tabular f); cbn [andb]; [ | exact IH].
  destruct (str_eqb (name f) n) eqn:E.
  - apply MergeFacts.str_eqb_eq in E. subst n. apply dict_get_set_eq.
  - rewrite (dict_get_set_ne _ _ _ _ E). exact IH.
Qed.

Lemma get_file_by_name_snoc (files : list (UploadedFile C)) (f : UploadedFile C) :
  get_file_by_name (add_file files f) (name f)
  = Some (default f (get_file_by_name files (name f))).
Proof.
  unfold get_file_by_name, add_file.
  induction files as [ | g files IH]; simpl.
  - rewrite MergeFacts.str_eqb_refl. reflexivity.
  - destruct (str_eqb (name g) (name f)); [reflexivity | exact IH].
Qed.
End Store.
End UploadFacts.

(** X19. The upload reader goes through all five encodings whatever a
    call raises: its frame is that of the first encoding, in the fixed
    order, whose call parses the bytes, and it raises only when none of
    the five calls parses. *)
Theorem read_upload_first_parsed {DF : Type}
    (read_csv : Upload.encoding -> Loader.outcome DF) :
  match Upload.read_upload read_csv with
  | Ok df =>
    exists pre e post,
      Upload.ENCODINGS = pre ++ e :: post /\
      Forall (Upload.failed read_csv) pre /\
      read_csv e = Loader.Parsed df
  | Raise => Forall (Upload.failed read_csv) Upload.ENCODINGS
  end.
Proof.
  unfold Upload.read_upload.
  pose proof (UploadFacts.try_all_spec read_csv Upload.ENCODINGS) as H.
  destruct (Upload.try_all read_csv Upload.ENCODINGS); exact H.
Qed.

(** X20. Whatever the loader of utils.py can load, the upload reader
    reads to the same frame, the parser behaving alike on file and
    bytes: both take the frame of the first encoding that parses, and
    the upload reader has one more encoding and no error that stops
    it. *)
Theorem read_upload_extends_loader {DF : Type}
    (read_csv : Upload.encoding -> Loader.outcome DF) (df : DF) :
  Loader.load_csv_with_fallback (fun e => read_csv (Upload.Known e)) = Some df ->
  Upload.read_upload read_csv = Ok df.
Proof.
  intros H. unfold Upload.read_upload.
  change Upload.ENCODINGS with (map Upload.Known Loader.ENCODINGS ++ [Upload.Latin1]).
  rewrite (UploadFacts.try_all_after_loader read_csv Loader.ENCODINGS [Upload.Latin1] df H).
  reflexivity.
Qed.

Lemma read_upload_extends_loader_witness :
  let read_csv := fun e =>
    match e with
    | Upload.Known Loader.Utf8Sig => Loader.UnicodeError
    | Upload.Known Loader.Utf8 => Loader.Parsed 7%nat
    | _ => Loader.Parsed 1%nat
    end in
  Loader.load_csv_with_fallback (fun e => read_csv (Upload.Known e)) = Some 7%nat /\
  Upload.read_upload read_csv = Ok 7%nat.
Proof.
  intros read_csv. split; [reflexivity | ].
  apply (read_upload_extends_loader read_csv 7%nat). reflexivity.
Defined.

(** The upload reads a file that the loader rejects. *)
Example read_upload_goes_on :
  let read_csv := fun e =>
    match e with
    | Upload.Known Loader.Utf8Sig => Loader.OtherError
    | _ => Loader.Parsed 1%nat
    end in
  Loader.load_csv_with_fallback (fun e => read_csv (Upload.Known e)) = None /\
  Upload.read_upload read_csv = Ok 1%nat.
Proof. split; reflexivity. Qed.

(** X21. The dict of [get_all_dataframes] has each name once and holds,
    under a name, the content of the last table (csv or excel) uploaded
    under that name; images and PDFs are left out. *)
Theorem get_all_dataframes_last {C : Type} (files : list (Upload.UploadedFile C)) :
  NoDup (map fst (Upload.get_all_dataframes files)) /\
  forall n,
    Upload.dict_get (Upload.get_all_dataframes files) n
    = option_map Upload.content (Upload.last_table files n).
Proof.
  split; [apply UploadFacts.get_all_dataframes_NoDup | ].
  apply UploadFacts.get_all_dataframes_get.
Qed.

(* ================================================================= *)
(** ** app.py: the list of uploads during a session *)

Module App.
Import Upload.

(** What a run of the script does to the list of uploads: the upload
    loop over the files of the uploader, the delete button of the file
    at a position, the button that removes all files, and a button that
    loads a sample file. *)
Inductive event (B : Type) : Type :=
| Uploads (uploaded_files : list (B * str))
| Delete (i : nat)
| ClearAll
| Sample (file_bytes : B) (filename : str).

Arguments Uploads {B} _.
Arguments Delete {B} _.
Arguments ClearAll {B}.
Arguments Sample {B} _ _.

Section Session.
Context {B C : Type}.

(** The type and the content that [process_upload] finds for the bytes
    of a file, or the exception it raises. *)
Variable process : B -> str -> result (file_type * C).

(** [process_upload]: each of its branches builds
    [UploadedFile(name=filename, ...)]. *)
Definition process_upload (file_bytes : B) (filename : str) : result (UploadedFile C) :=
  match process file_bytes filename with
  | Ok (t, c) => Ok {| name := filename; type := t; content := c |}
  | Raise => Raise
  end.

(** [y == file] as [list.remove] asks it of the dataclass: an object
    equals itself, and the fields are compared in order, the name
    first. *)
Variable file_eq : UploadedFile C -> UploadedFile C -> bool.

(** The body of the upload loop: a file whose name is in the list is
    skipped; an exception of the processing is reported and the list
    stays as it is. *)
Definition upload_one (files : list (UploadedFile C)) (uploaded_file : B * str)
  : list (UploadedFile C) :=
  let '(file_bytes, filename) := uploaded_file in
  match get_file_by_name files filename with
  | Some _ => files
  | None =>
    match process_upload file_bytes filename with
    | Ok processed_file => add_file files processed_file
    | Raise => files
    end
  end.

(** [uploaded_files.remove(file)]: the first element equal to [file]
    goes. *)
Fixpoint list_remove (file : UploadedFile C) (files : list (UploadedFile C))
  : list (UploadedFile C) :=
  match files with
  | [] => []
  | y :: rest => if file_eq y file then rest else y :: list_remove file rest
  end.

(** The delete button of the file at position [i]. *)
Definition delete_button (files : list (UploadedFile C)) (i : nat)
  : list (UploadedFile C) :=
  match files !! i with
  | Some file => list_remove file files
  | None => files
  end.

(** A sample button: the buttons are shown while the list is empty. *)
Definition sample_button (files : list (UploadedFile C)) (file_bytes : B)
    (filename : str) : list (UploadedFile C) :=
  match files with
  | [] =>
    match process_upload file_bytes filename with
    | Ok processed => add_file files processed
    | Raise => files
    end
  | _ => files
  end.

Definition step (files : list (UploadedFile C)) (ev : event B)
  : list (UploadedFile C) :=
  match ev with
  | Uploads uploaded_files => fold_left upload_one uploaded_files files
  | Delete i => delete_button files i
  | ClearAll => clear_files files
  | Sample file_bytes filename => sample_button files file_bytes filename
  end.

(** The list of uploads after the events of a session; a session starts
    with a new handler, whose list is empty. *)
Definition session (events : list (event B)) : list (UploadedFile C) :=
  fold_left step events [].
End Session.
End App.

Module AppFacts.
Import Upload App.

Section Session.
Context {B C : Type}.
Variable process : B -> str -> result (file_type * C).
Variable file_eq : UploadedFile C -> UploadedFile C -> bool.

Lemma names_unique (files : list (UploadedFile C)) (f g : UploadedFile C) :
  NoDup (map name files) -> In f files -> In g files -> name f = name g -> f = g.
Proof.
  induction files as [ | y rest IH]; intros Hn Hf Hg E; [destruct Hf | ].
  cbn [map] in Hn. apply NoDup_cons in Hn as [Hy Hn].
  assert (forall x, In x rest -> name y <> name x) as Hrest.
  { intros x Hx Ex. apply Hy. rewrite Ex. apply list_elem_of_In.
    apply in_map. exact Hx. }
  destruct Hf as [<- | Hf], Hg as [<- | Hg]; [reflexivity | | | ].
  - destruct (Hrest g Hg E).
  - destruct (Hrest f Hf (eq_sym E)).
  - apply IH; assumption.
Qed.

Lemma get_file_by_name_None (files : list (UploadedFile C)) (n : str) :
  get_file_by_name files n = None -> ~ In n (map name files).
Proof.
  unfold get_file_by_name. intros H Hin.
  apply in_map_iff in Hin as (f & <- & Hf).
  pose proof (find_none _ _ H f Hf) as E. cbn in E.
  rewrite MergeFacts.str_eqb_refl in E. discriminate.
Qed.

Lemma get_file_by_name_In (files : list (UploadedFile C)) (f : UploadedFile C) :
  NoDup (map name files) -> In f files ->
  get_file_by_name files (name f) = Some f.
Proof.
  intros Hn Hf. unfold get_file_by_name.
  destruct (List.find _ files) as [g | ] eqn:E.
  - apply find_some in E as [Hg E]. apply MergeFacts.str_eqb_eq in E.
    f_equal. apply (names_unique files g f Hn Hg Hf E).
  - pose proof (find_none _ _ E f Hf) as E'. cbn in E'.
    rewrite MergeFacts.str_eqb_refl in E'. discriminate.
Qed.

Lemma last_table_In (files : list (UploadedFile C)) (f : UploadedFile C) :
  NoDup (map name files) -> In f files -> tabular f = true ->
  last_table files (name f) = Some f.
Proof.
  intros Hn Hf Ht. unfold last_table.
  destruct (List.find _ (rev files)) as [g | ] eqn:E.
  - apply find_some in E as [Hg E]. apply andb_prop in E as [_ E].
    apply MergeFacts.str_eqb_eq in E. apply in_rev in Hg.
    f_equal. apply (names_unique files g f Hn Hg Hf E).
  - apply in_rev in Hf. pose proof (find_none _ _ E f Hf) as E'. cbn in E'.
    rewrite Ht, MergeFacts.str_eqb_refl in E'. discriminate.
Qed.

Lemma add_file_names (files : list (UploadedFile C)) (f : UploadedFile C) :
  NoDup (map name files) -> ~ In (name f) (map name files) ->
  NoDup (map name (add_file files f)).
Proof.
  intros Hn Hf. unfold add_file. rewrite map_app. apply NoDup_app.
  split; [exact Hn | ]. split; [ | apply NoDup_singleton].
  intros x Hx Hk. apply list_elem_of_singleton in Hk. subst x.
  apply Hf. apply list_elem_of_In. exact Hx.
Qed.

Lemma process_upload_name (file_bytes : B) (filename : str) (f : UploadedFile C) :
  process_upload process file_bytes filename = Ok f -> name f = filename.
Proof.
  unfold process_upload. destruct (process file_bytes filename) as [[t c] | ];
    [ | discriminate].
  intros H. inversion H. reflexivity.
Qed.

Lemma upload_one_names (files : list (UploadedFile C)) (uploaded_file : B * str) :
  NoDup (map name files) -> NoDup (map name (upload_one process files uploaded_file)).
Proof.
  intros Hn. destruct uploaded_file as [file_bytes filename]. unfold upload_one.
  destruct (get_file_by_name files filename) eqn:E; [exact Hn | ].
  destruct (process_upload process file_bytes filename) as [f | ] eqn:Ef; [ | exact Hn].
  apply add_file_names; [exact Hn | ].
  rewrite (process_upload_name _ _ _ Ef). apply get_file_by_name_None. exact E.
Qed.

Lemma uploads_names (uploaded_files : list (B * str)) :
  forall files,
    NoDup (map name files) ->
    NoDup (map name (fold_left (upload_one process) uploaded_files files)).
Proof.
  induction uploaded_files as [ | up rest IH]; intros files Hn; [exact Hn | ].
  apply IH. apply upload_one_names. exact Hn.
Qed.

Lemma list_remove_sublist (file : UploadedFile C) (files : list (UploadedFile C)) :
  sublist (list_remove file_eq file files) files.
Proof.
  induction files as [ | y rest IH]; simpl; [constructor | ].
  destruct (file_eq y file); [apply sublist_cons; reflexivity | ].
  apply sublist_skip. exact IH.
Qed.

Lemma map_sublist {X Y : Type} (g : X -> Y) (l k : list X) :
  sublist l k -> sublist (map g l) (map g k).
Proof.
  induction 1; simpl; [constructor | apply sublist_skip | apply sublist_cons];
    assumption.
Qed.

Lemma delete_button_names (files : list (UploadedFile C)) (i : nat) :
  NoDup (map name files) -> NoDup (map name (delete_button file_eq files i)).
Proof.
  intros Hn. unfold delete_button. destruct (files !! i) as [file | ]; [ | exact Hn].
  apply (sublist_NoDup _ (map name files) Hn).
  apply map_sublist. apply list_remove_sublist.
Qed.

Lemma sample_button_names (files : list (UploadedFile C)) (file_bytes : B)
    (filename : str) :
  NoDup (map name files) ->
  NoDup (map name (sample_button process files file_bytes filename)).
Proof.
  intros Hn. unfold sample_button. destruct files as [ | y rest]; [ | exact Hn].
  destruct (process_upload process file_bytes filename); [ | exact Hn].
  apply add_file_names; [exact Hn | intros []].
Qed.

Lemma step_names (files : list (UploadedFile C)) (ev : event B) :
  NoDup (map name files) -> NoDup (map name (step process file_eq files ev)).
Proof.
  intros Hn. destruct ev as [ups | i | | file_bytes filename]; cbn [step].
  - apply uploads_names. exact Hn.
  - apply delete_button_names. exact Hn.
  - constructor.
  - apply sample_button_names. exact Hn.
Qed.

Lemma session_names (events : list (event B)) :
  NoDup (map name (session process file_eq events)).
Proof.
  unfold session.
  assert (forall files,
             NoDup (map name files) ->
             NoDup (map name (fold_left (step process file_eq) events files))) as H.
  { induction events as [ | ev rest IH]; intros files Hn; [exact Hn | ].
    apply IH. apply step_names. exact Hn. }
  apply H. constructor.
Qed.

Hypothesis file_eq_refl : forall f, file_eq f f = true.
Hypothesis file_eq_name : forall f g, file_eq f g = true -> name f = name g.

(** With distinct names the delete button takes out the file it
    belongs to. *)
Lemma delete_button_at (files : list (UploadedFile C)) :
  NoDup (map name files) ->
  forall i f, files !! i = Some f -> delete_button file_eq files i = delete i files.
Proof.
  intros Hn i f Hi. unfold delete_button. rewrite Hi. revert i Hi.
  induction files as [ | y rest IH]; intros i Hi; [discriminate | ].
  cbn [map] in Hn. apply NoDup_cons in Hn as [Hy Hn]. cbn [list_remove].
  destruct i as [ | j].
  - inversion Hi; subst y. rewrite file_eq_refl. reflexivity.
  - cbn in Hi. destruct (file_eq y f) eqn:E.
    + exfalso. apply Hy. rewrite (file_eq_name y f E).
      apply list_elem_of_fmap_2. apply list_elem_of_lookup_2 with j. exact Hi.
    + cbn. f_equal. apply IH; assumption.
Qed.
End Session.
End AppFacts.

(** X22. In the app a file name is taken once.  The upload loop skips a
    file whose name is already in the list, the sample buttons add to
    the empty list only, and deleting and clearing add nothing; so
    after any sequence of uploads, deletions, clearings and sample
    loads the names of the files in the list are distinct.  For a file
    of the list [get_file_by_name] then gives that file for its name,
    the dict of [get_all_dataframes] holds the content of a table under
    its name, and a further upload under its name changes nothing: the
    file stays as it was first uploaded.  The delete button of a file
    takes out that file and no other. *)
Theorem session_names_distinct {B C : Type}
    (process : B -> str -> result (Upload.file_type * C))
    (file_eq : Upload.UploadedFile C -> Upload.UploadedFile C -> bool)
    (events : list (App.event B)) :
  (forall f, file_eq f f = true) ->
  (forall f g, file_eq f g = true -> Upload.name f = Upload.name g) ->
  let files := App.session process file_eq events in
  NoDup (map Upload.name files) /\
  (forall f,
      In f files ->
      Upload.get_file_by_name files (Upload.name f) = Some f /\
      (Upload.tabular f = true ->
       Upload.dict_get (Upload.get_all_dataframes files) (Upload.name f)
       = Some (Upload.content f)) /\
      forall file_bytes,
        App.upload_one process files (file_bytes, Upload.name f) = files) /\
  (forall i f, files !! i = Some f -> App.delete_button file_eq files i = delete i files).
Proof.
  intros Hrefl Hname files.
  pose proof (AppFacts.session_names process file_eq events) as Hn. fold files in Hn.
  split; [exact Hn | ]. split.
  - intros f Hf.
    pose proof (AppFacts.get_file_by_name_In files f Hn Hf) as Hget.
    split; [exact Hget | ]. split.
    + intros Ht. rewrite UploadFacts.get_all_dataframes_get.
      rewrite (AppFacts.last_table_In files f Hn Hf Ht). reflexivity.
    + intros file_bytes. unfold App.upload_one. rewrite Hget. reflexivity.
  - apply (AppFacts.delete_button_at file_eq Hrefl Hname files Hn).
Qed.

(** A session: two files of one name and a third file are put into the
    uploader. *)
Module AppSamples.
Import Upload App.

Definition process : nat -> str -> result (file_type * nat) :=
  fun file_bytes _ => Ok (Csv, file_bytes).

Definition file_eq (f g : UploadedFile nat) : bool :=
  str_eqb (name f) (name g) && Nat.eqb (content f) (content g).

Definition a_csv : str := Eval vm_compute in u "a.csv".
Definition b_csv : str := Eval vm_compute in u "b.csv".

Definition events : list (event nat) :=
  [Uploads [(1%nat, a_csv); (2%nat, a_csv); (3%nat, b_csv)]].

Definition first_a : UploadedFile nat :=
  {| name := a_csv; type := Csv; content := 1%nat |}.
End AppSamples.

Lemma session_names_distinct_witness :
  App.session AppSamples.process AppSamples.file_eq AppSamples.events
  = [AppSamples.first_a;
     {| Upload.name := AppSamples.b_csv; Upload.type := Upload.Csv;
        Upload.content := 3%nat |}] /\
  Upload.dict_get
    (Upload.get_all_dataframes
       (App.session AppSamples.process AppSamples.file_eq AppSamples.events))
    AppSamples.a_csv = Some 1%nat.
Proof.
  split; [vm_compute; reflexivity | ].
  assert (forall f, AppSamples.file_eq f f = true) as Hrefl.
  { intros f. unfold AppSamples.file_eq.
    rewrite MergeFacts.str_eqb_refl, Nat.eqb_refl. reflexivity. }
  assert (forall f g, AppSamples.file_eq f g = true -> Upload.name f = Upload.name g)
    as Hname.
  { intros f g H. apply andb_prop in H as [H _].
    apply MergeFacts.str_eqb_eq. exact H. }
  destruct (session_names_distinct AppSamples.process AppSamples.file_eq
              AppSamples.events Hrefl Hname) as (_ & H & _).
  destruct (H AppSamples.first_a) as (_ & Hd & _); [left; reflexivity | ].
  apply Hd. reflexivity.
Defined.

(* ================================================================= *)
(** ** smart_analyst.py: the company a query names *)

Module Analyst.
Import Pandas.

Section WithRepr.
Variable num_repr : Q -> str.

(** [pd.notna(company) and str(company) in query] *)
Definition named_in (query : str) (company : cell) : bool :=
  match company with
  | NaN => false
  | _ => contains (cell_text num_repr company) query
  end.

(** The column [_extract_company_name] reads. *)
Definition company_column (df : DataFrame) : option column :=
  match get_col (columns df) Join.COMPANY with
  | Some c => Some c
  | None => get_col (columns df) Join.COMPANY_NAME
  end.

(** [_extract_company_name]; [unique()] keeps the first occurrence of
    each value, in order of appearance. *)
Definition _extract_company_name (query : str) (df : DataFrame) : option str :=
  match company_column df with
  | None => None
  | Some c =>
    let all_companies := Calc.distinct (map (cell_at c) (all_rows df)) in
    option_map (cell_text num_repr) (List.find (named_in query) all_companies)
  end.
End WithRepr.
End Analyst.

Module AnalystFacts.
Import Pandas Analyst.

Lemma find_filter {A : Type} (P Q : A -> bool) (l : list A) :
  (forall y, Q y = false -> P y = false) ->
  List.find P (List.filter Q l) = List.find P l.
Proof.
  intros H. induction l as [ | x l IH]; [reflexivity | ].
  simpl. destruct (Q x) eqn:E; simpl.
  - rewrite IH. reflexivity.
  - rewrite (H x E). exact IH.
Qed.

Lemma find_distinct (P : cell -> bool) (l : list cell) :
  (forall x y, Join.key_eqb x y = true -> P x = P y) ->
  List.find P (Calc.distinct l) = List.find P l.
Proof.
  intros H. induction l as [ | x l IH]; [reflexivity | ].
  cbn [Calc.distinct List.find]. destruct (P x) eqn:E; [reflexivity | ].
  rewrite find_filter; [exact IH | ].
  intros y Hy. apply negb_false_iff in Hy. rewrite <- (H x y Hy). exact E.
Qed.

Lemma find_map_first {A B : Type} (P : B -> bool) (f : A -> B) (l : list A) :
  match List.find P (map f l) with
  | Some v =>
    exists pre i post,
      l = pre ++ i :: post /\ f i = v /\ P v = true /\
      Forall (fun j => P (f j) = false) pre
  | None => Forall (fun j => P (f j) = false) l
  end.
Proof.
  induction l as [ | x l IH]; simpl; [constructor | ].
  destruct (P (f x)) eqn:E.
  - exists [], x, l. auto.
  - destruct (List.find P (map f l)) as [v | ].
    + destruct IH as (pre & i & post & -> & Hi & Hv & Hpre).
      exists (x :: pre), i, post. auto.
    + constructor; assumption.
Qed.

Lemma seq_split (pre post : list nat) (i : nat) :
  forall a n, seq a n = pre ++ i :: post ->
              i = (a + length pre)%nat /\ (i < a + n)%nat /\
              forall j, (a <= j < i)%nat -> In j pre.
Proof.
  induction pre as [ | x pre IH]; intros a n H.
  - destruct n as [ | n]; [discriminate | ]. simpl in H. inversion H; subst.
    simpl. split; [lia | ]. split; [lia | ]. intros j Hj. lia.
  - destruct n as [ | n]; [discriminate | ]. simpl in H. inversion H; subst x.
    apply IH in H2 as (Hi & Hn & Hpre). simpl. split; [lia | ]. split; [lia | ].
    intros j Hj. destruct (Nat.eq_dec j a) as [-> | Hne]; [left; reflexivity | ].
    right. apply Hpre. lia.
Qed.

Section WithRepr.
Variable num_repr : Q -> str.
Hypothesis num_repr_proper : forall a b, a == b -> num_repr a = num_repr b.

Lemma named_in_proper (query : str) (x y : cell) :
  Join.key_eqb x y = true -> named_in num_repr query x = named_in num_repr query y.
Proof using num_repr_proper.
  destruct x as [ | a | a], y as [ | b | b]; simpl; intros H;
    try discriminate; try reflexivity.
  - apply MergeFacts.str_eqb_eq in H. subst. reflexivity.
  - apply Qeq_bool_iff in H. rewrite (num_repr_proper a b H). reflexivity.
Qed.

Lemma extract_first_row (query : str) (df : DataFrame) :
  match _extract_company_name num_repr query df with
  | Some company =>
    exists c i,
      company_column df = Some c /\ (i < nrows df)%nat /\
      cell_at c i <> NaN /\
      company = cell_text num_repr (cell_at c i) /\
      contains company query = true /\
      forall j, (j < i)%nat -> named_in num_repr query (cell_at c j) = false
  | None =>
    forall c, company_column df = Some c ->
      forall j, (j < nrows df)%nat -> named_in num_repr query (cell_at c j) = false
  end.
Proof using num_repr_proper.
  unfold _extract_company_name.
  destruct (company_column df) as [c | ]; [ | intros c; discriminate].
  rewrite (find_distinct _ _ (named_in_proper query)).
  pose proof (find_map_first (named_in num_repr query) (cell_at c) (all_rows df)) as H.
  destruct (List.find _ _) as [v | ]; cbn [option_map].
  - destruct H as (pre & i & post & Hsplit & <- & Hv & Hpre).
    unfold all_rows in Hsplit. apply seq_split in Hsplit as (_ & Hi & Hin).
    exists c, i. split; [reflexivity | ]. split; [simpl in Hi; exact Hi | ].
    unfold named_in in Hv.
    destruct (cell_at c i) eqn:E; [discriminate | | ];
      (split; [discriminate | ]); (split; [reflexivity | ]);
      (split; [exact Hv | ]);
      intros j Hj; rewrite Forall_forall in Hpre;
      apply Hpre, list_elem_of_In, Hin; lia.
  - intros c' Hc' j Hj. inversion Hc'; subst c'.
    rewrite Forall_forall in H. apply H. apply list_elem_of_In.
    unfold all_rows. apply in_seq. lia.
Qed.
End WithRepr.
End AnalystFacts.

(** X23. The company [_extract_company_name] returns is the text of the
    company column (거래처, or 거래처명 when that is missing) in the first
    row of the table, in file order, whose value is not NaN and occurs
    in the query as a substring; it is not the longest such name.
    Without such a row, or without a company column, the result is
    [None].  Floats of equal value are taken to print alike. *)
Theorem extract_company_first_row (num_repr : Q -> str) (query : str)
    (df : Pandas.DataFrame) :
  (forall a b, a == b -> num_repr a = num_repr b) ->
  match Analyst._extract_company_name num_repr query df with
  | Some company =>
    exists c i,
      Analyst.company_column df = Some c /\ (i < Pandas.nrows df)%nat /\
      Pandas.cell_at c i <> Pandas.NaN /\
      company = Pandas.cell_text num_repr (Pandas.cell_at c i) /\
      contains company query = true /\
      forall j, (j < i)%nat ->
                Analyst.named_in num_repr query (Pandas.cell_at c j) = false
  | None =>
    forall c, Analyst.company_column df = Some c ->
      forall j, (j < Pandas.nrows df)%nat ->
                Analyst.named_in num_repr query (Pandas.cell_at c j) = false
  end.
Proof. intros H. apply AnalystFacts.extract_first_row. exact H. Qed.

(** Two companies, one name a part of the other. *)
Module AnalystSamples.
Import Pandas.

Definition companies : DataFrame :=
  {| nrows := 3;
     columns := [(Join.COMPANY, JoinSamples.texts ["한국"; "한국상사"; "한국"]%string)] |}.
End AnalystSamples.

Lemma extract_company_first_row_witness :
  Analyst._extract_company_name JoinSamples.no_numbers (u "한국상사 매출")
    AnalystSamples.companies = Some (u "한국") /\
  contains (u "한국") (u "한국상사 매출") = true.
Proof.
  split; [vm_compute; reflexivity | ].
  pose proof (extract_company_first_row JoinSamples.no_numbers (u "한국상사 매출")
                AnalystSamples.companies (fun a b _ => eq_refl)) as H.
  destruct (Analyst._extract_company_name JoinSamples.no_numbers (u "한국상사 매출")
              AnalystSamples.companies) as [company | ] eqn:E;
    [ | vm_compute in E; discriminate].
  destruct H as (c & i & _ & _ & _ & _ & Hc & _).
  vm_compute in E. inversion E; subst company. exact Hc.
Defined.

(* ================================================================= *)
(** ** old_files/codebook_loader.py: from column codes to names *)

Module Codebook.
Import Pandas.

Definition FILE_COL : str := Eval vm_compute in u "파일 구분".
Definition CODE_COL : str := Eval vm_compute in u "번호".
Definition ITEM_COL : str := Eval vm_compute in u "항목".
Definition DESC_COL : str := Eval vm_compute in u "항목설명".

Section WithRepr.
Variable U : Unicode.
Variable num_repr : Q -> str.

(** [str(x).strip()] *)
Definition text_of (v : cell) : str := strip U (cell_text num_repr v).

(** The rows of one group of [groupby('파일 구분')]. *)
Definition group_of (df : DataFrame) (files : column) (file_name : str) : rows_of :=
  List.filter (fun i => Join.key_eqb (Text file_name) (cell_at files i)) (all_rows df).

(** One turn of the loop over the rows of a group. *)
Definition add_row (codes items : column) (descs : option column)
    (m : gmap str (str * str)) (i : nat) : gmap str (str * str) :=
  match cell_at codes i, cell_at items i with
  | NaN, _ | _, NaN => m
  | code, item_name =>
    let item_desc :=
      match descs with
      | Some d => match cell_at d i with NaN => [] | v => text_of v end
      | None => []
      end in
    <[text_of code := (text_of item_name, item_desc)]> m
  end.

(** [_create_mappings]: the dict [code_to_name].  A group whose key is
    not a string cannot be reached by the lookups below, which take a
    string, and is left out. *)
Definition _create_mappings (codebook_df : option DataFrame)
  : gmap str (gmap str (str * str)) :=
  match codebook_df with
  | None => ∅
  | Some df =>
    let col := get_col (columns df) in
    match col FILE_COL, col CODE_COL, col ITEM_COL with
    | Some files, Some codes, Some items =>
      fold_left
        (fun code_to_name key =>
           match key with
           | Text file_name =>
             <[file_name :=
                 fold_left (add_row codes items (col DESC_COL))
                           (group_of df files file_name) ∅]> code_to_name
           | _ => code_to_name
           end)
        (Calc.group_keys files (all_rows df)) ∅
    | _, _, _ => ∅
    end
  end.

Variable code_to_name : gmap str (gmap str (str * str)).

(** [get_column_mapping] *)
Definition get_column_mapping (file_type : str) : gmap str str :=
  match code_to_name !! file_type with
  | None => ∅
  | Some mapping => fst <$> mapping
  end.

(** [get_column_description] *)
Definition get_column_description (file_type code : str) : str :=
  match code_to_name !! file_type with
  | None => []
  | Some mapping =>
    match mapping !! code with
    | None => []
    | Some (_, item_desc) => item_desc
    end
  end.

(** [translate_column_name] *)
Definition translate_column_name (file_type code : str) : str :=
  default code (get_column_mapping file_type !! code).
End WithRepr.

(** The row of the codebook that names a code of a file: it has the
    file, a code and an item, and its code is the one asked for. *)
Definition names (U : Unicode) (num_repr : Q -> str) (files codes items : column)
    (file_type code : str) (i : nat) : bool :=
  Join.key_eqb (Text file_type) (cell_at files i) &&
  match cell_at codes i, cell_at items i with
  | NaN, _ | _, NaN => false
  | c, _ => str_eqb (text_of U num_repr c) code
  end.
End Codebook.

Module CodebookFacts.
Import Pandas Codebook.

Lemma find_filter_and {A : Type} (P Q : A -> bool) (l : list A) :
  List.find Q (List.filter P l) = List.find (fun x => P x && Q x) l.
Proof.
  induction l as [ | x l IH]; [reflexivity | ].
  simpl. destruct (P x); simpl; [destruct (Q x); [reflexivity | exact IH] | exact IH].
Qed.

Lemma filter_rev {A : Type} (P : A -> bool) (l : list A) :
  List.filter P (rev l) = rev (List.filter P l).
Proof.
  induction l as [ | x l IH]; [reflexivity | ].
  simpl. rewrite List.filter_app, IH. simpl. destruct (P x); simpl;
    [reflexivity | rewrite app_nil_r; reflexivity].
Qed.

Lemma key_eqb_sym (x y : cell) : Join.key_eqb x y = Join.key_eqb y x.
Proof.
  destruct x as [ | a | a], y as [ | b | b]; simpl; try reflexivity.
  - destruct (str_eqb a b) eqn:E.
    + apply MergeFacts.str_eqb_eq in E. subst. symmetry. apply MergeFacts.str_eqb_refl.
    + destruct (str_eqb b a) eqn:E'; [ | reflexivity].
      apply MergeFacts.str_eqb_eq in E'. subst.
      rewrite MergeFacts.str_eqb_refl in E. discriminate.
  - destruct (Qeq_bool a b) eqn:E.
    + symmetry. apply Qeq_bool_iff. symmetry. apply Qeq_bool_iff. exact E.
    + destruct (Qeq_bool b a) eqn:E'; [ | reflexivity].
      apply Qeq_bool_iff in E'. symmetry in E'. apply Qeq_bool_iff in E'. congruence.
Qed.

Lemma key_eqb_trans (x y z : cell) :
  Join.key_eqb x y = true -> Join.key_eqb y z = true -> Join.key_eqb x z = true.
Proof.
  destruct x as [ | a | a], y as [ | b | b], z as [ | c | c]; simpl;
    try discriminate; try reflexivity; intros H1 H2.
  - apply MergeFacts.str_eqb_eq in H1. subst. exact H2.
  - apply Qeq_bool_iff in H1. apply Qeq_bool_iff in H2. apply Qeq_bool_iff.
    rewrite H1. exact H2.
Qed.

(** [distinct] keeps one value of each class of equal values. *)
Lemma distinct_sub (l : list cell) (y : cell) : In y (Calc.distinct l) -> In y l.
Proof.
  revert y. induction l as [ | x l IH]; intros y H; [exact H | ].
  cbn [Calc.distinct] in H. destruct H as [-> | H]; [left; reflexivity | ].
  apply filter_In in H as [H _]. right. apply IH. exact H.
Qed.

Lemma distinct_repr (l : list cell) (x : cell) :
  In x l -> exists y, In y (Calc.distinct l) /\ Join.key_eqb y x = true.
Proof.
  induction l as [ | x0 l IH]; intros H; [destruct H | ].
  cbn [Calc.distinct]. destruct H as [-> | H].
  - exists x. split; [left; reflexivity | apply MergeFacts.key_eqb_refl].
  - destruct (IH H) as (y & Hy & Hyx).
    destruct (Join.key_eqb x0 y) eqn:E.
    + exists x0. split; [left; reflexivity | ]. apply (key_eqb_trans x0 y x E Hyx).
    + exists y. split; [ | exact Hyx]. right. apply filter_In.
      split; [exact Hy | ]. rewrite E. reflexivity.
Qed.

Lemma distinct_apart (l : list cell) :
  StronglySorted (fun a b => Join.key_eqb a b = false) (Calc.distinct l).
Proof.
  induction l as [ | x l IH]; cbn [Calc.distinct]; [constructor | ].
  constructor.
  - apply (MoreLookupFacts.sublist_sorted _ _ (Calc.distinct l));
      [apply MoreCalcFacts.filter_sublist | exact IH].
  - apply Forall_forall. intros y Hy. apply list_elem_of_In, filter_In in Hy as [_ Hy].
    apply negb_true_iff in Hy. exact Hy.
Qed.

(** The keys of the groups are the values of the key column that are
    not NaN. *)
Lemma group_keys_text (key : column) (rows : rows_of) (f : str) :
  In (Text f) (Calc.group_keys key rows) <->
  exists i, In i rows /\ cell_at key i = Text f.
Proof.
  unfold Calc.group_keys.
  rewrite <- list_elem_of_In, merge_sort_Permutation, list_elem_of_In. split.
  - intros H. apply distinct_sub, filter_In in H as [H _].
    apply in_map_iff in H as (i & Hi & Hin). exists i. auto.
  - intros (i & Hin & Hi).
    destruct (distinct_repr
                (List.filter (fun v => match v with NaN => false | _ => true end)
                             (map (cell_at key) rows)) (Text f)) as (y & Hy & E).
    + apply filter_In. split; [ | reflexivity].
      apply in_map_iff. exists i. auto.
    + destruct y as [ | s | q]; try discriminate. simpl in E.
      apply MergeFacts.str_eqb_eq in E. subst s. exact Hy.
Qed.

Section WithRepr.
Variable U : Unicode.
Variable num_repr : Q -> str.

Lemma add_rows_lookup (codes items : column) (descs : option column) (code : str)
    (rows : rows_of) :
  fst <$> (fold_left (add_row U num_repr codes items descs) rows ∅ !! code)
  = option_map (fun i => text_of U num_repr (cell_at items i))
      (List.find (fun i =>
                    match cell_at codes i, cell_at items i with
                    | NaN, _ | _, NaN => false
                    | c, _ => str_eqb (text_of U num_repr c) code
                    end) (rev rows)).
Proof.
  induction rows as [ | i rows IH] using rev_ind; [reflexivity | ].
  rewrite fold_left_app, rev_app_distr. cbn [fold_left rev app List.find].
  unfold add_row at 1.
  destruct (cell_at codes i) as [ | c | c] eqn:Ec; [exact IH | | ];
    (destruct (cell_at items i) as [ | n | n] eqn:En; [exact IH | | ]);
    match goal with
    | |- context [str_eqb ?k code] =>
      destruct (str_eqb k code) eqn:E;
        [ apply MergeFacts.str_eqb_eq in E; rewrite <- E, lookup_insert_eq;
          cbn [fmap option_fmap option_map fst]; rewrite En; reflexivity
        | rewrite lookup_insert_ne;
            [exact IH
            | intros Heq; apply (f_equal (fun s => str_eqb s code)) in Heq;
              rewrite MergeFacts.str_eqb_refl in Heq; congruence] ]
    end.
Qed.

Definition is_text (f : str) (k : cell) : bool :=
  match k with Text s => str_eqb s f | _ => false end.

Lemma create_lookup (keys : list cell) (g : str -> gmap str (str * str)) (f : str) :
  forall m : gmap str (gmap str (str * str)),
    fold_left (fun code_to_name key =>
                 match key with
                 | Text file_name => <[file_name := g file_name]> code_to_name
                 | _ => code_to_name
                 end) keys m !! f
    = if existsb (is_text f) keys then Some (g f) else m !! f.
Proof.
  induction keys as [ | k keys IH]; intros m; [reflexivity | ].
  cbn [fold_left existsb]. rewrite IH.
  destruct (existsb (is_text f) keys); [rewrite orb_true_r; reflexivity | ].
  rewrite orb_false_r. destruct k as [ | s | q]; try reflexivity.
  cbn [is_text]. destruct (str_eqb s f) eqn:E.
  - apply MergeFacts.str_eqb_eq in E. subst s. apply lookup_insert_eq.
  - apply lookup_insert_ne. intros ->. rewrite MergeFacts.str_eqb_refl in E.
    discriminate.
Qed.

Lemma translate_last_row (df : DataFrame) (files codes items : column)
    (file_type code : str) :
  get_col (columns df) FILE_COL = Some files ->
  get_col (columns df) CODE_COL = Some codes ->
  get_col (columns df) ITEM_COL = Some items ->
  translate_column_name (_create_mappings U num_repr (Some df)) file_type code
  = match List.find (names U num_repr files codes items file_type code)
                    (rev (all_rows df)) with
    | Some i => text_of U num_repr (cell_at items i)
    | None => code
    end.
Proof.
  intros Hf Hc Hi.
  unfold translate_column_name, get_column_mapping, _create_mappings.
  rewrite Hf, Hc, Hi. rewrite create_lookup. rewrite lookup_empty.
  destruct (existsb (is_text file_type) (Calc.group_keys files (all_rows df))) eqn:E.
  - rewrite lookup_fmap, add_rows_lookup. unfold group_of.
    rewrite <- filter_rev, find_filter_and.
    fold (names U num_repr files codes items file_type code).
    destruct (List.find _ _); reflexivity.
  - rewrite lookup_empty. cbn [default].
    destruct (List.find _ _) as [i | ] eqn:Efind; [ | reflexivity].
    exfalso. apply find_some in Efind as [Hin Hn].
    assert (existsb (is_text file_type) (Calc.group_keys files (all_rows df)) = true)
      as E'; [ | congruence].
    apply existsb_exists. exists (Text file_type).
    split; [ | apply MergeFacts.str_eqb_refl].
    apply group_keys_text. exists i. split; [apply in_rev; exact Hin | ].
    unfold names in Hn. apply andb_prop in Hn as [Hn _].
    destruct (cell_at files i); try discriminate.
    simpl in Hn. apply MergeFacts.str_eqb_eq in Hn. subst. reflexivity.
Qed.
End WithRepr.
End CodebookFacts.

(** X24. With the codebook's three required columns present,
    [translate_column_name] gives a code of a file the item of the last
    codebook row that has this file, a code and an item and whose code,
    as text without surrounding white space, is the code asked for;
    later rows override earlier ones.  Without such a row it returns
    the code itself. *)
Theorem translate_column_name_last_row (U : Unicode) (num_repr : Q -> str)
    (df : Pandas.DataFrame) (files codes items : Pandas.column)
    (file_type code : str) :
  Pandas.get_col (Pandas.columns df) Codebook.FILE_COL = Some files ->
  Pandas.get_col (Pandas.columns df) Codebook.CODE_COL = Some codes ->
  Pandas.get_col (Pandas.columns df) Codebook.ITEM_COL = Some items ->
  Codebook.translate_column_name
    (Codebook._create_mappings U num_repr (Some df)) file_type code
  = match List.find (Codebook.names U num_repr files codes items file_type code)
                    (rev (Pandas.all_rows df)) with
    | Some i => Codebook.text_of U num_repr (Pandas.cell_at items i)
    | None => code
    end.
Proof. apply CodebookFacts.translate_last_row. Qed.

(** A codebook with a code listed twice for one file. *)
Module CodebookSamples.
Import Pandas Codebook.

Definition codebook : DataFrame :=
  {| nrows := 4;
     columns :=
       [(FILE_COL, JoinSamples.texts ["sales data"; "sales data"; "영업일지"; "sales data"]%string);
        (CODE_COL, JoinSamples.texts ["A-2"; " B-1 "; "A-2"; "A-2"]%string);
        (ITEM_COL, JoinSamples.texts ["날짜"; "거래처명"; "방문일"; "매출일"]%string)] |}.
End CodebookSamples.

Lemma translate_column_name_last_row_witness :
  Codebook.translate_column_name
    (Codebook._create_mappings plain JoinSamples.no_numbers
       (Some CodebookSamples.codebook)) Lookup.SALES_FILE Lookup.A_2
  = u "매출일".
Proof.
  rewrite (translate_column_name_last_row plain JoinSamples.no_numbers
             CodebookSamples.codebook
             (JoinSamples.texts ["sales data"; "sales data"; "영업일지"; "sales data"]%string)
             (JoinSamples.texts ["A-2"; " B-1 "; "A-2"; "A-2"]%string)
             (JoinSamples.texts ["날짜"; "거래처명"; "방문일"; "매출일"]%string)
             Lookup.SALES_FILE Lookup.A_2 eq_refl eq_refl eq_refl).
  vm_compute. reflexivity.
Defined.

(* ================================================================= *)
(** ** The groups of a grouped aggregation *)

Module GroupFacts.
Import Pandas Calc CodebookFacts.

Definition has_key (key : column) (i : nat) : bool :=
  match cell_at key i with NaN => false | _ => true end.

Lemma filter_length_perm {A : Type} (P : A -> bool) (l l' : list A) :
  l ≡ₚ l' -> length (List.filter P l) = length (List.filter P l').
Proof.
  induction 1 as [ | x l l' _ IH | x y l | l l' l'' _ IH1 _ IH2]; simpl.
  - reflexivity.
  - destruct (P x); simpl; rewrite IH; reflexivity.
  - destruct (P x), (P y); reflexivity.
  - rewrite IH1. exact IH2.
Qed.

Lemma filter_none {A : Type} (P : A -> bool) (l : list A) :
  (forall y, In y l -> P y = false) -> List.filter P l = [].
Proof.
  induction l as [ | x l IH]; intros H; [reflexivity | ].
  simpl. rewrite (H x) by (left; reflexivity).
  apply IH. intros y Hy. apply H. right. exact Hy.
Qed.

(** Row [i] is in the group of key [k]. *)
Definition in_group (key : column) (rows : rows_of) (k : cell) (i : nat) : bool :=
  existsb (Nat.eqb i) (group_rows key rows k).

Lemma in_group_eq (key : column) (rows : rows_of) (k : cell) (i : nat) :
  In i rows -> in_group key rows k i = Join.key_eqb k (cell_at key i).
Proof.
  intros Hin. unfold in_group, group_rows.
  destruct (Join.key_eqb k (cell_at key i)) eqn:E.
  - apply existsb_exists. exists i. split; [ | apply Nat.eqb_refl].
    apply filter_In. auto.
  - destruct (existsb _ _) eqn:Ex; [ | reflexivity].
    apply existsb_exists in Ex as (j & Hj & Hij).
    apply Nat.eqb_eq in Hij. subst j. apply filter_In in Hj as [_ Hj]. congruence.
Qed.

Lemma apart_at_most_one (c : cell) (l : list cell) :
  StronglySorted (fun a b => Join.key_eqb a b = false) l ->
  (length (List.filter (fun k => Join.key_eqb k c) l) <= 1)%nat.
Proof.
  induction 1 as [ | x l Hs IH Hx]; simpl; [lia | ].
  destruct (Join.key_eqb x c) eqn:E; [ | exact IH].
  assert (List.filter (fun k => Join.key_eqb k c) l = []) as ->; [ | simpl; lia].
  apply filter_none.
  rewrite Forall_forall in Hx. intros y Hy.
  destruct (Join.key_eqb y c) eqn:Ey; [ | reflexivity].
  rewrite key_eqb_sym in Ey.
  pose proof (key_eqb_trans x c y E Ey) as H.
  rewrite (Hx y) in H by (apply list_elem_of_In; exact Hy). discriminate.
Qed.

Lemma group_keys_of (key : column) (rows : rows_of) :
  group_keys key rows
  ≡ₚ distinct (List.filter (fun v => match v with NaN => false | _ => true end)
                           (map (cell_at key) rows)).
Proof. unfold group_keys. apply merge_sort_Permutation. Qed.

Lemma group_keys_NoDup (key : column) (rows : rows_of) : NoDup (group_keys key rows).
Proof.
  rewrite group_keys_of.
  generalize (List.filter (fun v => match v with NaN => false | _ => true end)
                          (map (cell_at key) rows)). intros l.
  pose proof (distinct_apart l) as H.
  induction H as [ | x l' Hs IH Hx]; constructor; [ | exact IH].
  intros Hin. rewrite Forall_forall in Hx. specialize (Hx x Hin).
  rewrite MergeFacts.key_eqb_refl in Hx. discriminate.
Qed.

Lemma group_keys_In (key : column) (rows : rows_of) (k : cell) :
  In k (group_keys key rows) ->
  k <> NaN /\ exists i, In i rows /\ cell_at key i = k.
Proof.
  intros H. apply list_elem_of_In in H. rewrite group_keys_of in H.
  apply list_elem_of_In, distinct_sub, filter_In in H as [H Hk].
  split; [intros ->; discriminate | ].
  apply in_map_iff in H as (i & Hi & Hin). exists i. auto.
Qed.

(** The number of groups a row falls in: one, or none for a row
    without a key. *)
Lemma groups_of_row (key : column) (rows : rows_of) (i : nat) :
  In i rows ->
  length (List.filter (fun k => Join.key_eqb k (cell_at key i)) (group_keys key rows))
  = if has_key key i then 1%nat else 0%nat.
Proof.
  intros Hin. rewrite (filter_length_perm _ _ _ (group_keys_of key rows)).
  set (l := List.filter (fun v => match v with NaN => false | _ => true end)
                        (map (cell_at key) rows)).
  unfold has_key. destruct (cell_at key i) as [ | s | q] eqn:E.
  - assert (List.filter (fun k => Join.key_eqb k NaN) (distinct l) = []) as ->;
      [ | reflexivity].
    apply filter_none. intros y Hy.
    apply distinct_sub, filter_In in Hy as [_ Hy].
    destruct y; [discriminate | reflexivity | reflexivity].
  - apply Nat.le_antisymm; [apply apart_at_most_one, distinct_apart | ].
    destruct (distinct_repr l (Text s)) as (y & Hy & Hys).
    + apply filter_In. split; [ | reflexivity]. apply in_map_iff. exists i. auto.
    + assert (In y (List.filter (fun k => Join.key_eqb k (Text s)) (distinct l))) as H
        by (apply filter_In; auto).
      destruct (List.filter _ (distinct l)); [destruct H | simpl; lia].
  - apply Nat.le_antisymm; [apply apart_at_most_one, distinct_apart | ].
    destruct (distinct_repr l (Number q)) as (y & Hy & Hys).
    + apply filter_In. split; [ | reflexivity]. apply in_map_iff. exists i. auto.
    + assert (In y (List.filter (fun k => Join.key_eqb k (Number q)) (distinct l))) as H
        by (apply filter_In; auto).
      destruct (List.filter _ (distinct l)); [destruct H | simpl; lia].
Qed.

(** Counting the pairs of a key and a row of its group, by keys and by
    rows. *)
Lemma count_by_rows (key : column) (keys : list cell) (rs : rows_of) :
  list_sum (map (fun k => length (group_rows key rs k)) keys)
  = list_sum (map (fun i => length (List.filter
                                      (fun k => Join.key_eqb k (cell_at key i)) keys))
                  rs).
Proof.
  unfold group_rows. induction rs as [ | i rs IH]; simpl.
  - induction keys as [ | k keys IHk]; [reflexivity | exact IHk].
  - rewrite <- IH. clear IH.
    induction keys as [ | k keys IHk]; [reflexivity | ].
    simpl. destruct (Join.key_eqb k (cell_at key i)); simpl; lia.
Qed.

Lemma sizes_add_up (key : column) (rows : rows_of) :
  list_sum (map (fun k => length (group_rows key rows k)) (group_keys key rows))
  = length (List.filter (has_key key) rows).
Proof.
  rewrite count_by_rows.
  assert (forall rs, (forall i, In i rs -> In i rows) ->
            list_sum (map (fun i => length (List.filter
                                              (fun k => Join.key_eqb k (cell_at key i))
                                              (group_keys key rows))) rs)
            = length (List.filter (has_key key) rs)) as H.
  { induction rs as [ | i rs IH]; intros Hsub; [reflexivity | ].
    cbn [map list_sum fold_right List.filter].
    rewrite (groups_of_row key rows i) by (apply Hsub; left; reflexivity).
    change (fold_right Nat.add 0%nat ?l) with (list_sum l).
    rewrite IH by (intros j Hj; apply Hsub; right; exact Hj).
    destruct (has_key key i); reflexivity. }
  apply H. auto.
Qed.

Lemma group_not_empty (key : column) (rows : rows_of) (k : cell) :
  In k (group_keys key rows) -> group_rows key rows k <> [].
Proof.
  intros H. apply group_keys_In in H as (_ & i & Hin & <-).
  unfold group_rows. intros E.
  assert (In i (List.filter (fun j => Join.key_eqb (cell_at key i) (cell_at key j)) rows))
    as Hi by (apply filter_In; split; [exact Hin | apply MergeFacts.key_eqb_refl]).
  rewrite E in Hi. destruct Hi.
Qed.
End GroupFacts.

(** X25. The groups of a grouped aggregation split the rows that have a
    key: the group keys are the values of the key column that are not
    NaN, each once; no group is empty; a row without a key is in no
    group and every other row in exactly one, so that the group sizes
    (the column 건수 of a grouped count) add up to the number of rows
    with a key. *)
Theorem groupby_partitions (key : Pandas.column) (rows : Pandas.rows_of) :
  let keys := Calc.group_keys key rows in
  NoDup keys /\
  (forall k, In k keys ->
     k <> Pandas.NaN /\ Calc.group_rows key rows k <> []) /\
  (forall i, In i rows ->
     length (List.filter (fun k => GroupFacts.in_group key rows k i) keys)
     = if GroupFacts.has_key key i then 1%nat else 0%nat) /\
  list_sum (map (fun k => length (Calc.group_rows key rows k)) keys)
  = length (List.filter (GroupFacts.has_key key) rows).
Proof.
  intros keys. subst keys.
  split; [apply GroupFacts.group_keys_NoDup | ]. split; [ | split].
  - intros k Hk. split; [apply (GroupFacts.group_keys_In key rows k Hk) | ].
    apply GroupFacts.group_not_empty. exact Hk.
  - intros i Hi. rewrite <- (GroupFacts.groups_of_row key rows i Hi).
    f_equal. apply filter_ext. intros k. apply GroupFacts.in_group_eq. exact Hi.
  - apply GroupFacts.sizes_add_up.
Qed.

(* ================================================================= *)
(** ** A limit of zero *)

Module LimitFacts.
Import Pandas PandasFacts Calc.

Lemma sorted_and_cut_all (a : analysis) (r : DataFrame) :
  limit a = Some 0%N \/ limit a = None ->
  sorted_and_cut a r ≡ₚ all_rows r.
Proof.
  intros H. unfold sorted_and_cut.
  destruct (sort a) as [dir | ]; [ | reflexivity].
  destruct (first_numeric r) as [[label c] | ]; [ | reflexivity].
  destruct H as [-> | ->]; apply sort_values_perm.
Qed.

Lemma sort_and_cut_all (a : analysis) (r : DataFrame) (rows : rows_of) :
  limit a = Some 0%N \/ limit a = None ->
  sort_and_cut a r = Ok rows ->
  rows ≡ₚ all_rows r.
Proof.
  intros H. unfold sort_and_cut.
  destruct (sort_raises a r); [discriminate | ].
  intros E. inversion E; subst rows. apply sorted_and_cut_all. exact H.
Qed.
End LimitFacts.

(** X26. A limit of 0 is no limit: when the number of a top-N query
    reads as 0 (or the analysis has no limit), sorting and cutting keep
    every row of the aggregated frame, because the cut is guarded by
    the truth value of the limit. *)
Theorem limit_zero_keeps_all (num_repr : Q -> str)
    (period_text : Pandas.cell -> str)
    (raw_dataframes : gmap str Pandas.DataFrame)
    (get_column_mapping : str -> gmap str str)
    (answer_raises : Pandas.DataFrame -> Pandas.rows_of -> bool)
    (dataset_name : str) (a : Calc.analysis)
    (result_df : Pandas.DataFrame) (rows : Pandas.rows_of) :
  Calc.limit a = Some 0%N \/ Calc.limit a = None ->
  Calc._calculate_single_dataset num_repr period_text raw_dataframes
    get_column_mapping answer_raises dataset_name a = Ok (Some (result_df, rows)) ->
  rows ≡ₚ Pandas.all_rows result_df /\ length rows = Pandas.nrows result_df.
Proof.
  intros Hl H. unfold Calc._calculate_single_dataset in H.
  destruct (raw_dataframes !! dataset_name) as [df | ]; [ | discriminate].
  destruct (Calc.aggregated period_text get_column_mapping df
              (Calc.date_filter num_repr df a) a dataset_name) as [[r | ] | ];
    [ | discriminate | discriminate].
  destruct (Calc.sort_and_cut a r) as [rows' | ] eqn:E; [ | discriminate].
  destruct (answer_raises r rows'); [discriminate | ].
  inversion H; subst result_df rows.
  pose proof (LimitFacts.sort_and_cut_all a r rows' Hl E) as Hp.
  split; [exact Hp | ].
  rewrite (Permutation_length Hp). apply JoinFacts.all_rows_length.
Qed.

(** The analysis of the query "거래처별 매출 top 0". *)
Module LimitSamples.
Import Calc.

Definition top_zero : analysis :=
  {| aggregation := None; groupby := Some ByCompany; sort := Some Desc;
     limit := Some 0%N; time_range := None |}.
End LimitSamples.

Lemma limit_zero_keeps_all_witness :
  Calc._analyze_query plain CalcSamples.top_0 = Ok LimitSamples.top_zero /\
  exists result_df rows,
    Calc._calculate_single_dataset CalcSamples.no_numbers CalcSamples.no_period
      {[ Lookup.SALES := CalcSamples.ties ]} CalcSamples.no_mapping
      CalcSamples.answers Lookup.SALES LimitSamples.top_zero
    = Ok (Some (result_df, rows)) /\
    length rows = Pandas.nrows result_df.
Proof.
  split; [vm_compute; reflexivity | ].
  destruct (Calc._calculate_single_dataset CalcSamples.no_numbers CalcSamples.no_period
              {[ Lookup.SALES := CalcSamples.ties ]} CalcSamples.no_mapping
              CalcSamples.answers Lookup.SALES LimitSamples.top_zero)
    as [[[result_df rows] | ] | ] eqn:E;
    [ | vm_compute in E; discriminate | vm_compute in E; discriminate].
  exists result_df, rows. split; [reflexivity | ].
  apply (limit_zero_keeps_all CalcSamples.no_numbers CalcSamples.no_period
           {[ Lookup.SALES := CalcSamples.ties ]} CalcSamples.no_mapping
           CalcSamples.answers Lookup.SALES LimitSamples.top_zero result_df rows
           (or_introl eq_refl) E).
Defined.

(* ================================================================= *)
(** ** utils.py: cleaning names and empty values *)

Module Cleaning.
Import Pandas.

Section WithUnicode.
Variable U : Unicode.
Variable num_repr : Q -> str.

(** [is_empty_value]: NaN, or a string of white space only. *)
Definition is_empty_value (value : cell) : bool :=
  match value with
  | NaN => true
  | Text s => str_eqb (strip U s) []
  | Number _ => false
  end.

(** [clean_column_name] on any value. *)
Definition clean_column_name (col_name : cell) : str :=
  match col_name with
  | NaN => []
  | _ => MoreUtils.clean_column_name U (cell_text num_repr col_name)
  end.
End WithUnicode.
End Cleaning.

Module CleaningFacts.
Import Pandas Cleaning.

Section WithUnicode.
Variable U : Unicode.

(** [s.lstrip()] *)
Fixpoint lstrip (s : str) : str :=
  match s with
  | c :: t => if is_space U c then lstrip t else s
  | [] => []
  end.

Lemma strip_eq (s : str) : strip U s = rev (lstrip (rev (lstrip s))).
Proof. reflexivity. Qed.

Lemma lstrip_split (s : str) :
  exists pre, s = pre ++ lstrip s /\ Forall (fun c => is_space U c = true) pre.
Proof.
  induction s as [ | c t (pre & IH & Hpre)]; [exists []; auto | ].
  simpl. destruct (is_space U c) eqn:E.
  - exists (c :: pre). split; [simpl; rewrite <- IH; reflexivity | ].
    constructor; assumption.
  - exists []. auto.
Qed.

Lemma lstrip_head (s : str) (c : N) (t : str) :
  lstrip s = c :: t -> is_space U c = false.
Proof.
  induction s as [ | x s IH]; simpl; [discriminate | ].
  destruct (is_space U x) eqn:E; [exact IH | ].
  intros H. inversion H; subst. exact E.
Qed.

Lemma lstrip_keeps (c : N) (t : str) :
  is_space U c = false -> lstrip (c :: t) = c :: t.
Proof. intros H. simpl. rewrite H. reflexivity. Qed.

Lemma lstrip_spaces (s : str) :
  Forall (fun c => is_space U c = true) s -> lstrip s = [].
Proof. induction 1 as [ | c s Hc _ IH]; simpl; [reflexivity | rewrite Hc; exact IH]. Qed.

(** A text without white space at either end. *)
Definition trimmed (s : str) : Prop :=
  (forall c t, s = c :: t -> is_space U c = false) /\
  (forall t c, s = t ++ [c] -> is_space U c = false).

Lemma strip_cases (s : str) :
  (strip U s = [] /\ Forall (fun c => is_space U c = true) s) \/
  (exists a t m b, lstrip s = a :: t /\ lstrip (rev (lstrip s)) = b :: m /\
                   is_space U a = false /\ is_space U b = false /\
                   strip U s = rev m ++ [b] /\
                   exists t', strip U s = a :: t').
Proof.
  rewrite strip_eq. destruct (lstrip_split s) as (pre & Hs & Hpre).
  destruct (lstrip s) as [ | a t] eqn:EL.
  - left. split; [reflexivity | ]. rewrite Hs, app_nil_r. exact Hpre.
  - right. pose proof (lstrip_head s a t EL) as Ha.
    destruct (lstrip_split (rev (a :: t))) as (pre' & Hr & Hpre').
    destruct (lstrip (rev (a :: t))) as [ | b m] eqn:EM.
    + exfalso. rewrite app_nil_r in Hr. rewrite Forall_forall in Hpre'.
      assert (is_space U a = true) as Ha'; [ | congruence].
      apply Hpre'. rewrite <- Hr. apply list_elem_of_In, in_rev.
      rewrite rev_involutive. left. reflexivity.
    + exists a, t, m, b. split; [reflexivity | ]. split; [reflexivity | ].
      split; [exact Ha | ]. split; [exact (lstrip_head _ b m EM) | ].
      split; [reflexivity | ].
      apply (f_equal (@rev N)) in Hr. rewrite rev_involutive, rev_app_distr in Hr.
      cbn [rev] in Hr |- *.
      destruct (rev m ++ [b]) as [ | x y] eqn:Ex.
      * destruct (rev m); discriminate.
      * simpl in Hr. inversion Hr; subst. eauto.
Qed.

Lemma strip_trimmed (s : str) : trimmed (strip U s).
Proof.
  destruct (strip_cases s) as [[-> _] | (a & t & m & b & _ & _ & Ha & Hb & E1 & t' & E2)].
  - split; [intros c t; discriminate | intros t c H; destruct t; discriminate].
  - split.
    + intros c t0 H. rewrite E2 in H. inversion H; subst. exact Ha.
    + intros t0 c H. rewrite E1 in H. apply app_inj_tail in H as [_ <-]. exact Hb.
Qed.

Lemma strip_of_trimmed (s : str) : trimmed s -> strip U s = s.
Proof.
  intros [Hh Hl]. rewrite strip_eq.
  assert (lstrip s = s) as ->.
  { destruct s as [ | c t]; [reflexivity | ].
    apply lstrip_keeps. apply (Hh c t). reflexivity. }
  assert (lstrip (rev s) = rev s) as ->; [ | apply rev_involutive].
  destruct (rev s) as [ | c t] eqn:E; [reflexivity | ].
  apply lstrip_keeps. apply (Hl (rev t) c).
  apply (f_equal (@rev N)) in E. rewrite rev_involutive in E. exact E.
Qed.

Lemma strip_empty (s : str) :
  strip U s = [] <-> Forall (fun c => is_space U c = true) s.
Proof.
  split.
  - intros H. destruct (strip_cases s) as [[_ Hs] | (a & t & m & b & _ & _ & _ & _ & E & _)];
      [exact Hs | ].
    rewrite H in E. destruct (rev m); discriminate.
  - intros H. rewrite strip_eq, (lstrip_spaces s H). reflexivity.
Qed.
End WithUnicode.
End CleaningFacts.

(** X27. [clean_column_name] returns a name without white space at
    either end, and cleaning a cleaned name changes nothing.  A name
    cleans to the empty text exactly when it consists of white space
    only, which is when [is_empty_value] calls the text empty. *)
Theorem clean_column_name_idempotent (U : Unicode) (col_name : str) :
  let cleaned := MoreUtils.clean_column_name U col_name in
  CleaningFacts.trimmed U cleaned /\
  MoreUtils.clean_column_name U cleaned = cleaned /\
  (cleaned = [] <-> Forall (fun c => is_space U c = true) col_name) /\
  (Cleaning.is_empty_value U (Pandas.Text col_name) = true <-> cleaned = []).
Proof.
  intros cleaned. subst cleaned. unfold MoreUtils.clean_column_name.
  split; [apply CleaningFacts.strip_trimmed | ].
  split; [apply CleaningFacts.strip_of_trimmed, CleaningFacts.strip_trimmed | ].
  split; [apply CleaningFacts.strip_empty | ].
  cbn [Cleaning.is_empty_value]. split.
  - intros H. apply MergeFacts.str_eqb_eq in H. exact H.
  - intros ->. reflexivity.
Qed.

(* ================================================================= *)
(** ** smart_analyst.py: from company codes to company names *)

Module CodeFacts.
Import Pandas Join HeuristicFacts.

Section Heuristic.
Variable U : Unicode.
Variable num_repr : Q -> str.

(** The (code, name) rows a table adds to the map. *)
Definition code_pairs (df : DataFrame) : list (str * str) :=
  let col := get_col (columns df) in
  match col COMPANY_CODE, col COMPANY, col COMPANY_NAME with
  | Some code, Some name, _
  | Some code, None, Some name => code_name_rows U num_repr df code name
  | _, _, _ => []
  end.

Definition all_code_pairs (dataframes : list (str * DataFrame)) : list (str * str) :=
  flat_map (fun '(_, df) => code_pairs df) dataframes.

(** The name the last row with this code gives. *)
Definition last_name (pairs : list (str * str)) (code : str) : option str :=
  option_map snd (List.find (fun '(k, _) => str_eqb k code) (rev pairs)).

Lemma fold_insert_lookup (pairs : list (str * str)) (code : str) :
  forall m : gmap str str,
    fold_left (fun m '(k, v) => <[k := v]> m) pairs m !! code
    = match last_name pairs code with
      | Some v => Some v
      | None => m !! code
      end.
Proof.
  unfold last_name.
  induction pairs as [ | [k v] pairs IH] using rev_ind; intros m; [reflexivity | ].
  rewrite fold_left_app, rev_app_distr. cbn [fold_left rev app List.find].
  destruct (str_eqb k code) eqn:E.
  - apply MergeFacts.str_eqb_eq in E. subst k. cbn [option_map snd].
    apply lookup_insert_eq.
  - rewrite lookup_insert_ne; [apply IH | ].
    intros ->. rewrite MergeFacts.str_eqb_refl in E. discriminate.
Qed.

Lemma add_codes_pairs (m : gmap str str) (df : DataFrame) :
  add_codes U num_repr m df = fold_left (fun m '(k, v) => <[k := v]> m) (code_pairs df) m.
Proof.
  unfold add_codes, code_pairs.
  destruct (get_col (columns df) COMPANY_CODE); [ | reflexivity].
  destruct (get_col (columns df) COMPANY); [reflexivity | ].
  destruct (get_col (columns df) COMPANY_NAME); reflexivity.
Qed.

Lemma code_to_name_map_pairs (dataframes : list (str * DataFrame)) :
  code_to_name_map U num_repr dataframes
  = fold_left (fun m '(k, v) => <[k := v]> m) (all_code_pairs dataframes) ∅.
Proof.
  unfold code_to_name_map, all_code_pairs. generalize (∅ : gmap str str).
  induction dataframes as [ | [f df] rest IH]; intros m; [reflexivity | ].
  cbn [fold_left flat_map]. rewrite fold_left_app, IH, add_codes_pairs. reflexivity.
Qed.

Lemma code_to_name_map_lookup (dataframes : list (str * DataFrame)) (code : str) :
  code_to_name_map U num_repr dataframes !! code
  = last_name (all_code_pairs dataframes) code.
Proof.
  rewrite code_to_name_map_pairs, fold_insert_lookup, lookup_empty.
  destruct (last_name _ _); reflexivity.
Qed.

Lemma cell_at_rows (g : nat -> option str) (df : DataFrame) (i : nat) :
  (i < nrows df)%nat ->
  cell_at (ObjCol (map g (all_rows df))) i
  = match g i with Some s => Text s | None => NaN end.
Proof.
  intros Hi. unfold cell_at, all_rows.
  rewrite list_lookup_fmap, lookup_seq_lt by exact Hi. reflexivity.
Qed.

Lemma company_of_code (dataframes : list (str * DataFrame)) (filename : str)
    (df : DataFrame) (code : column) (i : nat) :
  get_col (columns df) COMPANY = None ->
  get_col (columns df) COMPANY_NAME = None ->
  get_col (columns df) COMPANY_CODE = Some code ->
  (i < nrows df)%nat ->
  exists c,
    get_col (columns (prepare U num_repr (code_to_name_map U num_repr dataframes)
                        filename df)) COMPANY = Some c /\
    cell_at c i
    = match cell_at code i with
      | NaN => NaN
      | x =>
        let s := cell_text num_repr x in
        Text (default s (last_name (all_code_pairs dataframes) (strip U s)))
      end.
Proof.
  intros H1 H2 H3 Hi. eexists. split.
  - unfold prepare. rewrite get_col_rename. unfold with_company.
    rewrite H1, H2, H3. cbn [columns]. apply get_col_app_miss. exact H1.
  - unfold names_of_codes. rewrite cell_at_rows by exact Hi.
    destruct (cell_at code i); [reflexivity | | ];
      cbn zeta; rewrite code_to_name_map_lookup; reflexivity.
Qed.
End Heuristic.
End CodeFacts.

(** X28. A table that names its companies by code only (it has 거래처
    코드 but neither 거래처 nor 거래처명) enters the join with a column
    거래처 that holds, row by row, the name the code stands for: the
    name of the last row, over all uploaded tables in order, that pairs
    this code (as text without surrounding white space) with a name.
    A code no table explains stays as its own text, and NaN stays
    NaN. *)
Theorem company_from_code (U : Unicode) (num_repr : Q -> str)
    (dataframes : list (str * Pandas.DataFrame)) (filename : str)
    (df : Pandas.DataFrame) (code : Pandas.column) (i : nat) :
  Pandas.get_col (Pandas.columns df) Join.COMPANY = None ->
  Pandas.get_col (Pandas.columns df) Join.COMPANY_NAME = None ->
  Pandas.get_col (Pandas.columns df) Join.COMPANY_CODE = Some code ->
  (i < Pandas.nrows df)%nat ->
  exists c,
    Pandas.get_col
      (Pandas.columns
         (Join.prepare U num_repr (Join.code_to_name_map U num_repr dataframes)
            filename df)) Join.COMPANY = Some c /\
    Pandas.cell_at c i
    = match Pandas.cell_at code i with
      | Pandas.NaN => Pandas.NaN
      | x =>
        let s := Pandas.cell_text num_repr x in
        Pandas.Text
          (default s (CodeFacts.last_name
                        (CodeFacts.all_code_pairs U num_repr dataframes)
                        (strip U s)))
      end.
Proof. apply CodeFacts.company_of_code. Qed.

Lemma company_from_code_witness :
  exists c,
    Pandas.get_col
      (Pandas.columns
         (Join.prepare plain JoinSamples.no_numbers
            (Join.code_to_name_map plain JoinSamples.no_numbers MoreJoinSamples.three)
            MoreJoinSamples.orders_file MoreJoinSamples.orders)) Join.COMPANY = Some c /\
    Pandas.cell_at c 1 = Pandas.Text (u "다라전자") /\
    Pandas.cell_at c 3 = Pandas.Text (u "C9").
Proof.
  destruct (company_from_code plain JoinSamples.no_numbers MoreJoinSamples.three
              MoreJoinSamples.orders_file MoreJoinSamples.orders
              (JoinSamples.texts ["C1"; "C2"; "C1"; "C9"]%string) 1
              eq_refl eq_refl eq_refl) as (c & Hc & H1); [simpl; lia | ].
  exists c. split; [exact Hc | ]. split; [rewrite H1; vm_compute; reflexivity | ].
  vm_compute in Hc. inversion Hc. vm_compute. reflexivity.
Defined.
